(** * WebP Converter AI: complexity estimate, quality suggestion, adaptive encode

    A shallow embedding of [src/app.js].  JavaScript numbers are IEEE-754
    binary64 values; they are modelled with the Standard Library's
    [spec_float] at precision 53 and maximal exponent 1024, so that the
    rounding of [q -= 0.05] and of [entry.quality / 100] is the one the
    script really performs. *)

From Stdlib Require Import ZArith List Bool Lia String Ascii.
From Stdlib Require Import Permutation DecimalString.
From Stdlib Require Import Floats.SpecFloat.
Import ListNotations.
Local Open Scope Z_scope.

(** ** JavaScript numbers *)

Module Num.

Definition number := spec_float.

Definition prec : Z := 53.
Definition emax : Z := 1024.

Definition NaN : number := S754_nan.

(** The number a mathematical integer converts to (round to nearest,
    ties to even; exact below 2^53). *)
Definition of_Z (z : Z) : number := binary_normalize prec emax z 0 false.

Definition add (x y : number) : number := SFadd prec emax x y.
Definition sub (x y : number) : number := SFsub prec emax x y.
Definition mul (x y : number) : number := SFmul prec emax x y.
Definition div (x y : number) : number := SFdiv prec emax x y.

(** [x > y], [x < y], [x <= y]: false as soon as one side is NaN. *)
Definition gt (x y : number) : bool := SFltb y x.
Definition lt (x y : number) : bool := SFltb x y.
Definition le (x y : number) : bool := SFleb x y.

Definition isNaN (x : number) : bool :=
  match x with S754_nan => true | _ => false end.

(** Decimal literals of the script, as the nearest binary64 value. *)
Definition lit_0_2 : number := S754_finite false 7205759403792794 (-55).
Definition lit_0_05 : number := S754_finite false 7205759403792794 (-57).
Definition lit_0_15 : number := S754_finite false 5404319552844595 (-55).

(** [Math.round]: the integer nearest to [x], ties towards +infinity;
    NaN, the infinities and the zeros are returned as they are, and a
    negative argument that rounds to zero gives -0. *)
Definition Math_round (x : number) : number :=
  match x with
  | S754_finite s m e =>
      if 0 <=? e then x
      else
        let d := Z.pow 2 (- e) in
        let v := if s then Z.neg m else Z.pos m in
        let r := (2 * v + d) / (2 * d) in
        if r =? 0 then S754_zero s else of_Z r
  | _ => x
  end.

(** [Math.floor] for the same representation. *)
Definition Math_floor (x : number) : number :=
  match x with
  | S754_finite s m e =>
      if 0 <=? e then x
      else
        let d := Z.pow 2 (- e) in
        let v := if s then Z.neg m else Z.pos m in
        let r := v / d in
        if r =? 0 then S754_zero s else of_Z r
  | _ => x
  end.

Definition Math_abs (x : number) : number := SFabs x.

(** [Math.max] of two numbers: NaN if either is NaN. *)
Definition Math_max (x y : number) : number :=
  if isNaN x || isNaN y then NaN
  else if lt x y then y else x.

(** The integer value of a number that holds one ([None] otherwise). *)
Definition to_Z (x : number) : option Z :=
  match x with
  | S754_zero _ => Some 0
  | S754_finite s m e =>
      if 0 <=? e then
        Some ((if s then Z.neg m else Z.pos m) * Z.pow 2 e)
      else
        let d := Z.pow 2 (- e) in
        if Z.pos m mod d =? 0
        then Some ((if s then Z.neg m else Z.pos m) / d)
        else None
  | _ => None
  end.

End Num.

Import Num.

(** ** Strings and [parseInt]

    A character stands for a UTF-16 code unit below 256; the white space
    of [parseInt] among these is TAB, LF, VT, FF, CR, space and NBSP. *)

Definition isWhiteSpace (c : ascii) : bool :=
  let n := Z.of_N (N_of_ascii c) in
  ((9 <=? n) && (n <=? 13)) || (n =? 32) || (n =? 160).

Fixpoint trimStart (s : string) : string :=
  match s with
  | String c r => if isWhiteSpace c then trimStart r else s
  | EmptyString => s
  end.

Definition digitValue (c : ascii) : option Z :=
  let n := Z.of_N (N_of_ascii c) in
  if (48 <=? n) && (n <=? 57) then Some (n - 48) else None.

(** The value of the longest prefix of decimal digits, [acc] being the
    value of the digits already read ([None] when none was). *)
Fixpoint digitsPrefix (s : string) (acc : option Z) : option Z :=
  match s with
  | String c r =>
      match digitValue c with
      | Some d =>
          digitsPrefix r (Some (10 * match acc with Some a => a | None => 0 end + d))
      | None => acc
      end
  | EmptyString => acc
  end.

(** [parseInt(s, 10)].  The digits are read as a mathematical integer
    and converted once, to the nearest binary64 number. *)
Definition parseInt (s : string) : number :=
  let s1 := trimStart s in
  let '(neg, s2) :=
    match s1 with
    | String "-" r => (true, r)
    | String "+" r => (false, r)
    | _ => (false, s1)
    end in
  match digitsPrefix s2 None with
  | None => NaN
  | Some z => if z =? 0 then S754_zero neg else of_Z (if neg then - z else z)
  end.

(** ** Data of the page *)

Record File := mkFile { file_name : string; file_type : string }.

(** A decoded image: its natural size and its address; the pixels are
    only reached through the canvas. *)
Record Image := mkImage
  { naturalWidth : Z; naturalHeight : Z; src : string }.

(** A blob is its bytes; [size] is their number. *)
Definition Blob := list Byte.byte.
Definition size (b : Blob) : Z := Z.of_nat (List.length b).

(** The text of a card's label: which quality it shows and why. *)
Inductive Label :=
| Suggested (q : number)
| Chosen (q : number)
| Used (q : number).

Record Entry := mkEntry
  { file : File;
    img : Image;
    quality : number;
    convertedBlob : option Blob;
    label : Label;
    downloadDisabled : bool }.

(** ** The complexity estimate *)

(** [data[i]] of the canvas's byte array, as a number.  A read outside
    the array gives [undefined], which the subtraction turns into NaN. *)
Definition byteAt (data : list Z) (i : Z) : number :=
  match nth_error data (Z.to_nat i) with
  | Some b => of_Z b
  | None => NaN
  end.

(** The loop of [computeComplexity] from index [i] on (lines 87 to 94). *)
Fixpoint diffLoop (fuel : nat) (data : list Z) (i : Z)
    (diffSum maxDiff : number) : number * number :=
  match fuel with
  | O => (diffSum, maxDiff)
  | S fuel' =>
      if i <? Z.of_nat (List.length data) - 4 then
        let dr := Math_abs (sub (byteAt data i) (byteAt data (i + 4))) in
        let dg := Math_abs (sub (byteAt data (i + 1)) (byteAt data (i + 5))) in
        let db := Math_abs (sub (byteAt data (i + 2)) (byteAt data (i + 6))) in
        let diff := add (add dr dg) db in
        diffLoop fuel' data (i + 4) (add diffSum diff)
          (add maxDiff (of_Z 765))
      else (diffSum, maxDiff)
  end.

(** The sums the loop ends with, started as the script starts it; the
    index grows by 4 at each pass, so [data.length] passes are enough. *)
Definition diffSums (data : list Z) : number * number :=
  diffLoop (List.length data) data 0 (of_Z 0) (of_Z 0).

(** Lines 85 to 96: the estimate from the bytes of the canvas. *)
Definition complexityOfData (data : list Z) : number :=
  let '(diffSum, maxDiff) := diffSums data in
  div diffSum maxDiff.

(** Lines 71 to 80: the size of the temporary canvas. *)
Definition scaledSize (width height : Z) : number * number :=
  let maxDim := of_Z 256 in
  let m := Math_max (of_Z width) (of_Z height) in
  let scale := if gt m maxDim then div maxDim m else of_Z 1 in
  (Math_floor (mul (of_Z width) scale), Math_floor (mul (of_Z height) scale)).

(** [Math.round(60 + (90 - 60) * complexity)] of [handleFiles]. *)
Definition suggestedQuality (complexity : number) : number :=
  Math_round (add (of_Z 60) (mul (sub (of_Z 90) (of_Z 60)) complexity)).

Section Canvas.

(** Drawing an image scaled to [w] x [h] on a canvas and reading the
    canvas back: the browser's resampling, which the script only calls. *)
Variable getImageData : Image -> number -> number -> list Z.

Definition computeComplexity (image : Image) : number :=
  let '(w, h) := scaledSize (naturalWidth image) (naturalHeight image) in
  complexityOfData (getImageData image w h).

(** The entry [img.onload] pushes for an accepted file. *)
Definition newEntry (f : File) (image : Image) : Entry :=
  let q := suggestedQuality (computeComplexity image) in
  {| file := f; img := image; quality := q; convertedBlob := None;
     label := Suggested q; downloadDisabled := true |}.

End Canvas.

(** The slider of a card: [entry.quality = parseInt(range.value, 10)]. *)
Definition setQuality (value : string) (entry : Entry) : Entry :=
  let q := parseInt value in
  {| file := file entry; img := img entry; quality := q;
     convertedBlob := convertedBlob entry; label := Chosen q;
     downloadDisabled := downloadDisabled entry |}.

(** ** The codec and the encode loop *)

(** One [canvas.toBlob] request: the image drawn and the quality asked. *)
Record Call := mkCall { call_img : Image; call_quality : number }.

(** The requests made so far, oldest first. *)
Definition World := list Call.

(** The browser's encoder.  Its answer may depend on everything it was
    asked before; an encoder that ignores this history is deterministic. *)
Definition Codec := World -> Image -> number -> Blob.

Definition deterministic (codec : Codec) : Prop :=
  forall w1 w2 image q, codec w1 image q = codec w2 image q.

(** Computations that make requests and may run out of fuel. *)
Definition M (A : Type) : Type := World -> option (A * World).

Definition ret {A} (a : A) : M A := fun w => Some (a, w).

Definition bind {A B} (m : M A) (k : A -> M B) : M B :=
  fun w => match m w with
           | Some (a, w') => k a w'
           | None => None
           end.

Definition outOfFuel {A} : M A := fun _ => None.

Notation "x <- m ;; k" := (bind m (fun x => k))
  (at level 61, m at next level, right associativity).
Notation "' p <- m ;; k" := (bind m (fun x => match x with p => k end))
  (at level 61, p pattern, m at next level, right associativity).

Section Encoder.

Variable codec : Codec.

(** [await new Promise(resolve => canvas.toBlob(resolve, 'image/webp', q))] *)
Definition toBlob (image : Image) (q : number) : M Blob :=
  fun w => Some (codec w image q, w ++ [mkCall image q]).

(** [blob.size > targetKb * 1024] *)
Definition overBudget (blob : Blob) (targetKb : number) : bool :=
  gt (of_Z (size blob)) (mul targetKb (of_Z 1024)).

(** The [while] loop of [convertEntry] (lines 163 to 166). *)
Fixpoint search (fuel : nat) (image : Image) (targetKb : number)
    (blob : Blob) (q : number) : M (Blob * number) :=
  match fuel with
  | O => outOfFuel
  | S fuel' =>
      if overBudget blob targetKb && gt q lit_0_2 then
        let q := sub q lit_0_05 in
        blob <- toBlob image q ;;
        search fuel' image targetKb blob q
      else ret (blob, q)
  end.

(** [!isNaN(targetKb) && targetKb > 0] *)
Definition hasBudget (targetKb : number) : bool :=
  negb (isNaN targetKb) && gt targetKb (of_Z 0).

(** Lines 152 to 168: the blob and the quality [convertEntry] ends with.
    [targetValue] is [targetSizeInput.value]. *)
Definition encode (fuel : nat) (targetValue : string) (entry : Entry)
  : M (Blob * number) :=
  let targetKb := parseInt targetValue in
  let q0 := div (quality entry) (of_Z 100) in
  blob <- toBlob (img entry) q0 ;;
  if hasBudget targetKb
  then search fuel (img entry) targetKb blob q0
  else ret (blob, q0).

Definition convertEntry (fuel : nat) (targetValue : string) (entry : Entry)
  : M Entry :=
  '(blob, q) <- encode fuel targetValue entry ;;
  ret {| file := file entry; img := img entry; quality := quality entry;
         convertedBlob := Some blob;
         label := Used (Math_round (mul q (of_Z 100)));
         downloadDisabled := false |}.

(** The click handler of [convertAllBtn]. *)
Fixpoint convertAll (fuel : nat) (targetValue : string)
    (entries : list Entry) : M (list Entry) :=
  match entries with
  | [] => ret []
  | entry :: rest =>
      entry' <- match convertedBlob entry with
                | None => convertEntry fuel targetValue entry
                | Some _ => ret entry
                end ;;
      rest' <- convertAll fuel targetValue rest ;;
      ret (entry' :: rest')
  end.

End Encoder.

(** ** The sums of the estimate on integers *)

(** [at_index] is the byte at an index of the array, [isByte] what a
    canvas holds. *)
Definition at_index (data : list Z) (i : Z) : Z := nth (Z.to_nat i) data 0.

Definition isByte (b : Z) : bool := (0 <=? b) && (b <=? 255).

(** The difference the loop adds for pixel [p] and the next one. *)
Definition adjacentDiff (data : list Z) (p : Z) : Z :=
  Z.abs (at_index data (4 * p) - at_index data (4 * p + 4))
  + Z.abs (at_index data (4 * p + 1) - at_index data (4 * p + 5))
  + Z.abs (at_index data (4 * p + 2) - at_index data (4 * p + 6)).

(** The sum of these differences for [count] pixels from [p] on. *)
Fixpoint sumDiffs (data : list Z) (p : Z) (count : nat) : Z :=
  match count with
  | O => 0
  | S count' => adjacentDiff data p + sumDiffs data (p + 1) count'
  end.

(** ** The descent of the quality, apart from any codec *)

(** The quality after [k] passes through [q -= 0.05]. *)
Fixpoint descent (q : number) (k : nat) : number :=
  match k with
  | O => q
  | S k' => descent (sub q lit_0_05) k'
  end.

(** The loop with a budget no blob meets: the number of passes until
    [q > 0.2] fails, if [fuel] passes are enough to see it fail. *)
Fixpoint floorSteps (fuel : nat) (q : number) : option nat :=
  match fuel with
  | O => None
  | S fuel' =>
      if gt q lit_0_2 then option_map S (floorSteps fuel' (sub q lit_0_05))
      else Some O
  end.

(** The fraction [convertEntry] starts from for an integer quality [n]. *)
Definition fraction (n : Z) : number := div (of_Z n) (of_Z 100).

(** The quality of the first request of a conversion,
    [entry.quality / 100]. *)
Definition firstQuality (entry : Entry) : number :=
  div (quality entry) (of_Z 100).

(** The entry [convertEntry] leaves when it ends with [blob] and [q]. *)
Definition converted (entry : Entry) (blob : Blob) (q : number) : Entry :=
  {| file := file entry; img := img entry; quality := quality entry;
     convertedBlob := Some blob;
     label := Used (Math_round (mul q (of_Z 100)));
     downloadDisabled := false |}.

(** The requests of [k] passes of the loop started at [q]. *)
Definition descentCalls (image : Image) (q : number) (k : nat) : list Call :=
  map (fun j => mkCall image (descent q j)) (seq 1 k).

Section Loop.

Variable codec : Codec.
Variable image : Image.
Variable targetKb : number.

(** What the loop holds between two passes. *)
Definition LoopState : Type := Blob * number * World.

(** The condition of the [while]. *)
Definition guard (blob : Blob) (q : number) : bool :=
  overBudget blob targetKb && gt q lit_0_2.

(** [passes k s s']: [k] passes of the loop lead from [s] to [s'], the
    condition holding before each of them. *)
Inductive passes : nat -> LoopState -> LoopState -> Prop :=
| passes_O : forall s, passes O s s
| passes_S : forall k blob q w s',
    guard blob q = true ->
    passes k (codec w image (sub q lit_0_05), sub q lit_0_05,
              w ++ [mkCall image (sub q lit_0_05)]) s' ->
    passes (S k) (blob, q, w) s'.

End Loop.

(** ** Binary64 rounding on scaled integers *)

(** Values are carried as integers: a non-negative number [x] stands for
    [x * 2^1200], which is an integer for every binary64 number and for
    every product and sum formed below. *)
Definition scaleB : Z := 1200.

(** The scaled value of a non-negative number. *)
Definition scaled (x : number) : Z :=
  match x with
  | S754_finite false m e => Z.pos m * 2 ^ (e + scaleB)
  | _ => 0
  end.

(** [a / 2^n] rounded to the nearest integer, ties to even. *)
Definition rne (a n : Z) : Z :=
  let q := a / 2 ^ n in
  let r := a mod 2 ^ n in
  match 2 * r ?= 2 ^ n with
  | Lt => q
  | Gt => q + 1
  | Eq => if Z.even q then q else q + 1
  end.

(** The exponent binary64 gives a number of magnitude [x]. *)
Definition fexp64 (x : Z) : Z := Z.max (x - 53) (-1074).

(** The number of mantissa [m <= 2^53] and exponent [e]. *)
Definition mkfloat (m e : Z) : number :=
  if m =? 0 then S754_zero false
  else if m =? 2 ^ 53 then S754_finite false (Z.to_pos (2 ^ 52)) (e + 1)
  else S754_finite false (Z.to_pos m) e.

(** The grid exponent of a scaled value, and rounding on that grid. *)
Definition gridOf (W : Z) : Z := fexp64 (Zdigits2 W - scaleB) + scaleB.

Definition roundedScaled (W : Z) : Z := rne W (gridOf W) * 2 ^ gridOf W.

(** The binary64 number nearest to the scaled value [W]. *)
Definition floatOfScaled (W : Z) : number :=
  mkfloat (rne W (gridOf W)) (gridOf W - scaleB).

(** A non-negative binary64 number: a zero, or a positive finite one. *)
Definition nonneg (x : number) : bool :=
  match x with
  | S754_zero _ => true
  | S754_finite false _ _ => true
  | _ => false
  end.

(** The integer nearest to a scaled value, ties upwards. *)
Definition nearestInt (V : Z) : Z :=
  (2 * V + 2 ^ scaleB) / (2 * 2 ^ scaleB).

(** [suggestedQuality] on scaled values. *)
Definition suggestedScaled (V : Z) : Z :=
  nearestInt (roundedScaled (60 * 2 ^ scaleB + roundedScaled (30 * V))).

(** ** The counts of the specification, in exact arithmetic on hundredths *)

(** [floor((startQuality - 0.20) / 0.05)], clamped at 0, for
    [startQuality = n / 100]. *)
Definition specFloorSteps (n : Z) : Z := Z.max 0 ((n - 20) / 5).

(** [ceil((startQuality - 0.20) / 0.05)], clamped at 0. *)
Definition specCeilSteps (n : Z) : Z := Z.max 0 (- ((20 - n) / 5)).

(** The same two counts evaluated in binary64, as a script would. *)
Definition Math_ceil (x : number) : number :=
  SFopp (Math_floor (SFopp x)).

Definition floatFloorSteps (n : Z) : number :=
  Math_max (of_Z 0) (Math_floor (div (sub (fraction n) lit_0_2) lit_0_05)).

Definition floatCeilSteps (n : Z) : number :=
  Math_max (of_Z 0) (Math_ceil (div (sub (fraction n) lit_0_2) lit_0_05)).

(** The integers from [lo] on, [len] of them. *)
Definition zrange (lo : Z) (len : nat) : list Z :=
  map (fun i => lo + Z.of_nat i) (seq 0 len).

(** What the descent from [n / 100] is checked for, for one [n]:
    it reaches the floor within 17 passes, in the specification's floor
    count or one more and in its ceiling count or one more, and every
    quality it asks for after the first is above 0.15. *)
Definition descentChecked (n : Z) : bool :=
  match floorSteps 18 (fraction n) with
  | Some K =>
      (specFloorSteps n <=? Z.of_nat K)
      && (Z.of_nat K <=? specFloorSteps n + 1)
      && (Z.of_nat K <=? specCeilSteps n + 1)
      && forallb (fun j => gt (descent (fraction n) j) lit_0_15) (seq 1 K)
  | None => false
  end.

(** What the first quality [n / 100] is checked for, for one [n] above
    20: it is above 0.2, hence the loop may start, and above 0.15. *)
Definition startChecked (n : Z) : bool :=
  gt (fraction n) lit_0_2 && gt (fraction n) lit_0_15.

(** ** Notions the statements use *)

(** Two runs agree: both run out of fuel, or both end with the same
    result after the same new requests. *)
Definition agree {A} (r1 r2 : option (A * World)) (w1 w2 : World) : Prop :=
  match r1, r2 with
  | Some (a1, w1'), Some (a2, w2') =>
      a1 = a2 /\ exists calls, w1' = w1 ++ calls /\ w2' = w2 ++ calls
  | None, None => True
  | _, _ => False
  end.

(** An entry [convertAll] still has to convert. *)
Definition pending (entry : Entry) : bool :=
  match convertedBlob entry with
  | None => true
  | Some _ => false
  end.

(** The entries of [after] at the places where [before] is pending. *)
Definition atPending (before after : list Entry) : list Entry :=
  map snd (filter (fun p => pending (fst p)) (combine before after)).

(** The requests of one conversion of [entry] that made [k] passes of
    the loop: the first quality, then the qualities of the descent. *)
Definition requestsOf (entry : Entry) (k : nat) : list Call :=
  mkCall (img entry) (firstQuality entry)
    :: descentCalls (img entry) (firstQuality entry) k.

(** The requests of a run over [entries], entry by entry: those of a
    conversion with [k] passes for a pending entry, [k] being the number
    at the entry's place in [ks], and none for an entry that holds a
    blob. *)
Definition requestGroups (entries : list Entry) (ks : list nat)
  : list (list Call) :=
  map (fun p => if pending (fst p) then requestsOf (fst p) (snd p) else [])
      (combine entries ks).

(** ** Sample values *)

Module Sample.

Definition picture : Image := mkImage 10 10 "data:image/png;base64,AAAA".

Definition entryAt (n : Z) : Entry :=
  {| file := mkFile "a.png" "image/png"; img := picture;
     quality := of_Z n; convertedBlob := None;
     label := Suggested (of_Z n); downloadDisabled := true |}.

(** An encoder whose output is always 2048 bytes. *)
Definition heavy : Codec := fun _ _ _ => repeat Byte.x00 2048.

(** An encoder whose output is always 16 bytes. *)
Definition light : Codec := fun _ _ _ => repeat Byte.x00 16.

(** An encoder that answers with one byte more at every request. *)
Definition growing : Codec := fun w _ _ => repeat Byte.x00 (List.length w).

(** A canvas of one pixel, whatever is drawn. *)
Definition onePixel : Image -> number -> number -> list Z :=
  fun _ _ _ => [12; 34; 56; 255].

(** The canvas of [n] pixels of one colour. *)
Definition uniformCanvas (n : nat) (r g b a : Z) : list Z :=
  List.concat (repeat [r; g; b; a] n).

Definition done : Entry :=
  {| file := mkFile "b.png" "image/png"; img := picture;
     quality := of_Z 75; convertedBlob := Some (repeat Byte.x01 3);
     label := Used (of_Z 75); downloadDisabled := false |}.

End Sample.

(** * Further definitions *)

(** ** File names *)

(** [s.split(c)] for a one-character separator: the pieces between the
    occurrences of [c], at least one piece. *)
Fixpoint splitOn (c : ascii) (s : string) : list string :=
  match s with
  | EmptyString => [EmptyString]
  | String a r =>
      if Ascii.eqb a c then EmptyString :: splitOn c r
      else match splitOn c r with
           | piece :: pieces => String a piece :: pieces
           | [] => [String a EmptyString]
           end
  end.

(** [pieces.slice(0, -1)]: all pieces but the last. *)
Definition dropLast (pieces : list string) : list string := removelast pieces.

(** [pieces.join('.')] *)
Definition joinDot (pieces : list string) : string := String.concat "." pieces.

(** [name.split('.').slice(0, -1).join('.') || name], then [`${ext}.webp`]
    (lines 135-136 and 194-195). *)
Definition downloadName (name : string) : string :=
  let stem := joinDot (dropLast (splitOn "." name)) in
  let ext := match stem with EmptyString => name | _ => stem end in
  (ext ++ ".webp")%string.

(** A string without a dot. *)
Fixpoint noDot (s : string) : bool :=
  match s with
  | EmptyString => true
  | String a r => negb (Ascii.eqb a ".") && noDot r
  end.

(** ** Downloads *)

(** One click on a link the script builds: the name offered and the blob. *)
Record Download := mkDownload
  { download_name : string; download_blob : Blob }.

(** The click handler of a card's download button (lines 131 to 141):
    a download if the entry holds a blob, nothing otherwise. *)
Definition downloadEntry (entry : Entry) : option Download :=
  match convertedBlob entry with
  | Some blob =>
      Some (mkDownload (downloadName (file_name (file entry))) blob)
  | None => None
  end.

(** The click handler of [downloadAllBtn] (lines 185 to 212): [next]
    visits the entries in order; an entry with a blob is downloaded, an
    entry without one is converted and [next] goes on to the entry after
    it.  The result is the entries as they are left and the downloads
    made, oldest first.  The pause of 500 ms between two downloads is not
    modelled. *)
Fixpoint downloadAll (codec : Codec) (fuel : nat) (targetValue : string)
    (entries : list Entry) : M (list Entry * list Download) :=
  match entries with
  | [] => ret ([], [])
  | entry :: rest =>
      match convertedBlob entry with
      | Some blob =>
          '(rest', downloads) <- downloadAll codec fuel targetValue rest ;;
          ret (entry :: rest',
               mkDownload (downloadName (file_name (file entry))) blob
                 :: downloads)
      | None =>
          entry' <- convertEntry codec fuel targetValue entry ;;
          '(rest', downloads) <- downloadAll codec fuel targetValue rest ;;
          ret (entry' :: rest', downloads)
      end
  end.

(** The downloads of the entries that hold a blob, in order. *)
Definition downloadsOf (entries : list Entry) : list Download :=
  flat_map (fun entry => match downloadEntry entry with
                         | Some d => [d]
                         | None => []
                         end) entries.

(** ** Rounding a fraction *)

(** [a / c] rounded to the nearest integer, ties to even, for [0 < c]. *)
Definition rnd (a c : Z) : Z :=
  let q := a / c in
  let r := a mod c in
  match 2 * r ?= c with
  | Lt => q
  | Gt => q + 1
  | Eq => if Z.even q then q else q + 1
  end.

(** What the shifting of [binary_round_aux] holds for the fraction
    [a / c]: its integer part, whether the rest is at least one half, and
    whether it is neither zero nor one half. *)
Definition shrRecord (a c : Z) : shr_record :=
  Build_shr_record (a / c) (c <=? 2 * (a mod c))
    (negb ((a mod c =? 0) || (2 * (a mod c) =? c))).

(** [side] is [floor(256 * x / m)], or one less when the quotient is an
    integer: what the canvas keeps of a side [x] of an image whose
    longer side is [m]. *)
Definition nearFloor (x m side : Z) : Prop :=
  side = 256 * x / m \/ ((256 * x) mod m = 0 /\ side = 256 * x / m - 1).

(** What [getImageData] gives for a canvas of [a] by [b] pixels, both
    from 1 to 256: four bytes for each pixel. *)
Definition canvasContract (getImageData : Image -> number -> number -> list Z)
  : Prop :=
  forall image a b, 1 <= a <= 256 -> 1 <= b <= 256 ->
    Z.of_nat (List.length (getImageData image (of_Z a) (of_Z b))) = 4 * (a * b)
    /\ forallb isByte (getImageData image (of_Z a) (of_Z b)) = true.

Module Examples.

(** A canvas that is black whatever is drawn. *)
Definition blackCanvas : Image -> number -> number -> list Z :=
  fun _ w h =>
    match to_Z w, to_Z h with
    | Some a, Some b => Sample.uniformCanvas (Z.to_nat (a * b)) 0 0 0 255
    | _, _ => []
    end.

Definition photo : Image := mkImage 1000 500 "data:image/png;base64,BBBB".

End Examples.

(** Two numbers are the same value, bit for bit. *)
Definition sameNumber (x y : number) : bool :=
  match x, y with
  | S754_zero a, S754_zero b => Bool.eqb a b
  | S754_infinity a, S754_infinity b => Bool.eqb a b
  | S754_nan, S754_nan => true
  | S754_finite a m e, S754_finite b m' e' =>
      Bool.eqb a b && Pos.eqb m m' && Z.eqb e e'
  | _, _ => false
  end.

(** What the label of a conversion is checked for, for one quality [n]:
    after each number [k] of passes the descent allows, the label shows
    [n - 5 k], and a descent that stopped shows at most 20. *)
Definition labelChecked (n : Z) : bool :=
  match floorSteps 18 (fraction n) with
  | Some K =>
      forallb
        (fun k =>
           let q := descent (fraction n) k in
           sameNumber (Math_round (mul q (of_Z 100)))
                      (of_Z (n - 5 * Z.of_nat k))
           && (gt q lit_0_2 || (n - 5 * Z.of_nat k <=? 20)))
        (seq 0 (S K))
  | None => false
  end.

(** ** Accepting files *)

(** [file.type.startsWith('image/')] *)
Definition isImageFile (f : File) : bool :=
  String.prefix "image/" (file_type f).

Section Loading.

Variable getImageData : Image -> number -> number -> list Z.

(** The image the browser decodes from the data of a file; [None] when it
    cannot, in which case [img.onload] never runs, and when the canvas of
    the estimate cannot be read, in which case [img.onload] stops before
    it pushes an entry. *)
Variable decode : File -> option Image.

Definition loadable (f : File) : bool :=
  match decode f with
  | Some _ => true
  | None => false
  end.

(** [img.onload] of [handleFiles] (lines 46 to 57). *)
Definition onImageLoad (f : File) (image : Image) (fileEntries : list Entry)
  : list Entry :=
  fileEntries ++ [newEntry getImageData f image].

(** [loads fs entries entries']: the loads started for the files [fs]
    complete, in any order, and lead from [entries] to [entries']. *)
Inductive loads : list File -> list Entry -> list Entry -> Prop :=
| loads_done : forall entries, loads [] entries entries
| loads_ok : forall before f after image entries entries',
    decode f = Some image ->
    loads (before ++ after) (onImageLoad f image entries) entries' ->
    loads (before ++ f :: after) entries entries'
| loads_failed : forall before f after entries entries',
    decode f = None ->
    loads (before ++ after) entries entries' ->
    loads (before ++ f :: after) entries entries'.

(** [handleFiles(files)] (lines 39 to 62): a load is started for each
    file of an image type. *)
Definition handleFiles (files : list File) (entries entries' : list Entry)
  : Prop :=
  loads (filter isImageFile files) entries entries'.

(** The entries pushed when the loads complete in the order of the
    files. *)
Definition inOrder (fs : list File) : list Entry :=
  flat_map (fun f => match decode f with
                     | Some image => [newEntry getImageData f image]
                     | None => []
                     end) fs.

End Loading.

(** The value of a slider at the integer [n], as the text the script
    parses. *)
Definition sliderValue (n : Z) : string :=
  NilZero.string_of_int (Z.to_int n).

(** What moving the slider to [n] is checked for: the text parses back
    to [n]. *)
Definition sliderChecked (n : Z) : bool :=
  sameNumber (parseInt (sliderValue n)) (of_Z n).

(** The canvas with the opacity [a] of each pixel replaced by [f a]. *)
Fixpoint mapAlpha (f : Z -> Z) (data : list Z) : list Z :=
  match data with
  | r :: g :: b :: a :: rest => r :: g :: b :: f a :: mapAlpha f rest
  | _ => data
  end.

(** * Properties *)

(** ** The monad *)

Lemma bind_Some {A B} (m : M A) (k : A -> M B) w b w' :
  bind m k w = Some (b, w') ->
  exists a w1, m w = Some (a, w1) /\ k a w1 = Some (b, w').
Proof.
  unfold bind. destruct (m w) as [[a w1]|] eqn:E; [|discriminate].
  intros H. exists a, w1. split; [reflexivity|exact H].
Qed.

(** ** The descent *)

Lemma descent_S q k : descent q (S k) = descent (sub q lit_0_05) k.
Proof. reflexivity. Qed.


Lemma descentCalls_S image q k :
  descentCalls image q (S k)
  = mkCall image (sub q lit_0_05) :: descentCalls image (sub q lit_0_05) k.
Proof.
  unfold descentCalls. cbn [seq map]. f_equal.
  rewrite <- seq_shift, map_map. reflexivity.
Qed.

Lemma floorSteps_spec fuel : forall q K,
  floorSteps fuel q = Some K ->
  (K < fuel)%nat
  /\ gt (descent q K) lit_0_2 = false
  /\ forall j, (j < K)%nat -> gt (descent q j) lit_0_2 = true.
Proof.
  induction fuel as [|fuel IH]; intros q K H; [discriminate|].
  cbn [floorSteps] in H.
  destruct (gt q lit_0_2) eqn:G.
  - destruct (floorSteps fuel (sub q lit_0_05)) as [K'|] eqn:E; [|discriminate].
    injection H as <-. destruct (IH _ _ E) as (Hlt & Hstop & Hbefore).
    repeat split; [lia|exact Hstop|].
    intros [|j] Hj; [exact G|]. apply Hbefore. lia.
  - injection H as <-. repeat split; [lia|exact G|]. intros j Hj. lia.
Qed.

Lemma floorSteps_more fuel : forall fuel' q K,
  floorSteps fuel q = Some K -> (fuel <= fuel')%nat ->
  floorSteps fuel' q = Some K.
Proof.
  induction fuel as [|fuel IH]; intros fuel' q K H Hle; [discriminate|].
  destruct fuel' as [|fuel']; [lia|].
  cbn [floorSteps] in *. destruct (gt q lit_0_2); [|exact H].
  destruct (floorSteps fuel (sub q lit_0_05)) as [K'|] eqn:E; [|discriminate].
  rewrite (IH fuel' _ _ E); [exact H|lia].
Qed.

(** ** The loop *)

Section LoopFacts.

Variable codec : Codec.
Variable image : Image.
Variable targetKb : number.

Lemma search_passes fuel : forall blob q w blob' q' w',
  search codec fuel image targetKb blob q w = Some (blob', q', w') ->
  exists k, (k < fuel)%nat
    /\ passes codec image targetKb k (blob, q, w) (blob', q', w')
    /\ guard targetKb blob' q' = false.
Proof.
  induction fuel as [|fuel IH]; intros blob q w blob' q' w' H;
    [discriminate|].
  cbn [search] in H. fold (guard targetKb blob q) in H.
  destruct (guard targetKb blob q) eqn:G.
  - apply bind_Some in H. destruct H as (b1 & w1 & Hcall & Hrest).
    unfold toBlob in Hcall. injection Hcall as <- <-.
    destruct (IH _ _ _ _ _ _ Hrest) as (k & Hk & Hp & Hstop).
    exists (S k). repeat split; [lia| |exact Hstop].
    apply passes_S; assumption.
  - injection H as <- <- <-. exists O. repeat split; [lia| |exact G].
    apply passes_O.
Qed.

Lemma passes_search k : forall fuel blob q w blob' q' w',
  passes codec image targetKb k (blob, q, w) (blob', q', w') ->
  guard targetKb blob' q' = false ->
  (k < fuel)%nat ->
  search codec fuel image targetKb blob q w = Some (blob', q', w').
Proof.
  induction k as [|k IH]; intros fuel blob q w blob' q' w' Hp Hstop Hk;
    (destruct fuel as [|fuel]; [lia|]); cbn [search];
    fold (guard targetKb blob q); inversion Hp; subst.
  - rewrite Hstop. reflexivity.
  - match goal with G : guard _ _ _ = true |- _ => rewrite G end.
    unfold bind, toBlob. apply IH; [assumption|assumption|lia].
Qed.

Lemma passes_descent k : forall blob q w blob' q' w',
  passes codec image targetKb k (blob, q, w) (blob', q', w') ->
  q' = descent q k
  /\ w' = w ++ descentCalls image q k
  /\ forall j, (j < k)%nat -> gt (descent q j) lit_0_2 = true.
Proof.
  induction k as [|k IH]; intros blob q w blob' q' w' Hp;
    inversion Hp; subst.
  - repeat split; [symmetry; apply app_nil_r|]. intros j Hj. lia.
  - match goal with P : passes _ _ _ k _ _ |- _ =>
      destruct (IH _ _ _ _ _ _ P) as (Hq & Hw & Hbefore) end.
    repeat split.
    + rewrite descent_S. exact Hq.
    + rewrite descentCalls_S, Hw, <- app_assoc. reflexivity.
    + intros [|j] Hj.
      * match goal with G : guard _ _ _ = true |- _ =>
          unfold guard in G; apply andb_prop in G; apply G end.
      * rewrite descent_S. apply Hbefore. lia.
Qed.

(** The blob the loop ends with is the one it started with, or the
    answer to the last request. *)
Lemma passes_blob k : forall blob q w blob' q' w',
  passes codec image targetKb k (blob, q, w) (blob', q', w') ->
  (k = O /\ blob' = blob /\ w' = w)
  \/ exists wm, w' = wm ++ [mkCall image q'] /\ blob' = codec wm image q'.
Proof.
  induction k as [|k IH]; intros blob q w blob' q' w' Hp;
    inversion Hp; subst.
  - left. repeat split.
  - right.
    match goal with P : passes _ _ _ k _ _ |- _ =>
      destruct (IH _ _ _ _ _ _ P) as [(-> & -> & ->)|Hlast] end.
    + match goal with P : passes _ _ _ O _ _ |- _ =>
        inversion P; subst end.
      exists w. split; reflexivity.
    + exact Hlast.
Qed.

(** The loop ends whenever the descent reaches the floor within the
    fuel, whatever the codec answers. *)
Lemma search_total fuel : forall blob q w K,
  floorSteps fuel q = Some K ->
  exists blob' q' w',
    search codec fuel image targetKb blob q w = Some (blob', q', w').
Proof.
  induction fuel as [|fuel IH]; intros blob q w K HK; [discriminate|].
  cbn [floorSteps] in HK. cbn [search]. unfold guard.
  destruct (gt q lit_0_2) eqn:G.
  - destruct (floorSteps fuel (sub q lit_0_05)) as [K'|] eqn:E;
      [|discriminate].
    destruct (overBudget blob targetKb); cbn [andb].
    + unfold bind, toBlob. eapply IH. exact E.
    + eexists _, _, _. reflexivity.
  - rewrite andb_false_r. eexists _, _, _. reflexivity.
Qed.

End LoopFacts.

(** ** One conversion *)

Section EncodeFacts.

Variable codec : Codec.

Lemma encode_no_budget fuel targetValue entry w :
  hasBudget (parseInt targetValue) = false ->
  encode codec fuel targetValue entry w
  = Some (codec w (img entry) (firstQuality entry), firstQuality entry,
          w ++ [mkCall (img entry) (firstQuality entry)]).
Proof.
  intros H. unfold encode, bind, toBlob. rewrite H. reflexivity.
Qed.

Lemma encode_budget fuel targetValue entry w :
  hasBudget (parseInt targetValue) = true ->
  encode codec fuel targetValue entry w
  = search codec fuel (img entry) (parseInt targetValue)
      (codec w (img entry) (firstQuality entry)) (firstQuality entry)
      (w ++ [mkCall (img entry) (firstQuality entry)]).
Proof.
  intros H. unfold encode, bind, toBlob. rewrite H. reflexivity.
Qed.

(** Every conversion that ends asked for the first quality, then for
    the qualities of some passes of the descent, each pass starting
    above 0.2; it returns the answer to its last request. *)
Lemma encode_shape fuel targetValue entry w blob q w' :
  encode codec fuel targetValue entry w = Some (blob, q, w') ->
  exists k,
    (k <= fuel)%nat
    /\ q = descent (firstQuality entry) k
    /\ w' = w ++ mkCall (img entry) (firstQuality entry)
              :: descentCalls (img entry) (firstQuality entry) k
    /\ (forall j, (j < k)%nat ->
          gt (descent (firstQuality entry) j) lit_0_2 = true)
    /\ exists wm, w' = wm ++ [mkCall (img entry) q]
                  /\ blob = codec wm (img entry) q.
Proof.
  destruct (hasBudget (parseInt targetValue)) eqn:B.
  - rewrite (encode_budget _ _ _ _ B). intros H.
    apply search_passes in H. destruct H as (k & Hk & Hp & _).
    exists k.
    destruct (passes_descent _ _ _ _ _ _ _ _ _ _ Hp) as (Hq & Hw & Hb).
    repeat split; [lia|exact Hq| |exact Hb|].
    + rewrite Hw, <- app_assoc. reflexivity.
    + destruct (passes_blob _ _ _ _ _ _ _ _ _ _ Hp)
        as [(-> & -> & ->)|Hlast]; [|exact Hlast].
      exists w. cbn [descent] in Hq. subst q. split; reflexivity.
  - rewrite (encode_no_budget _ _ _ _ B). intros H.
    injection H as <- <- <-. exists O.
    repeat split; [lia| |exists w; split; reflexivity].
    intros j Hj. lia.
Qed.

Lemma convertEntry_Some fuel targetValue entry w entry' w' :
  convertEntry codec fuel targetValue entry w = Some (entry', w') ->
  exists blob q,
    encode codec fuel targetValue entry w = Some (blob, q, w')
    /\ entry' = converted entry blob q.
Proof.
  unfold convertEntry. intros H. apply bind_Some in H.
  destruct H as ([blob q] & w1 & He & Hr). injection Hr as <- <-.
  exists blob, q. split; [exact He|reflexivity].
Qed.

Lemma convertEntry_of_encode fuel targetValue entry w blob q w' :
  encode codec fuel targetValue entry w = Some (blob, q, w') ->
  convertEntry codec fuel targetValue entry w
  = Some (converted entry blob q, w').
Proof.
  intros H. unfold convertEntry, bind. rewrite H. reflexivity.
Qed.

(** A conversion ends whenever the descent from its first quality
    reaches the floor within the fuel. *)
Lemma encode_total fuel targetValue entry w K :
  floorSteps fuel (firstQuality entry) = Some K ->
  exists blob q w',
    encode codec fuel targetValue entry w = Some (blob, q, w').
Proof.
  intros HK. destruct (hasBudget (parseInt targetValue)) eqn:B.
  - rewrite (encode_budget _ _ _ _ B). eapply search_total. exact HK.
  - rewrite (encode_no_budget _ _ _ _ B). eexists _, _, _. reflexivity.
Qed.

End EncodeFacts.

(** ** Comparisons with zero and the checked range *)

Lemma le_zero_not_gt x : le x (of_Z 0) = true -> gt x (of_Z 0) = false.
Proof. destruct x as [s|s| |s m e]; try destruct s; cbn; congruence. Qed.

Lemma hasBudget_NaN : hasBudget NaN = false.
Proof. reflexivity. Qed.

Lemma parseInt_empty : parseInt "" = NaN.
Proof. reflexivity. Qed.

Lemma zrange_In lo len n :
  lo <= n < lo + Z.of_nat len -> In n (zrange lo len).
Proof.
  intros H. unfold zrange. apply in_map_iff.
  exists (Z.to_nat (n - lo)). split; [lia|]. apply in_seq. lia.
Qed.

Lemma descentChecked_all n : 0 <= n <= 100 -> descentChecked n = true.
Proof.
  intros H.
  assert (A : forallb descentChecked (zrange 0 101) = true)
    by (vm_compute; reflexivity).
  rewrite forallb_forall in A. apply A. apply zrange_In. lia.
Qed.

(** ** Budget absent or already met *)

(** C6: when the target size field is empty, does not parse to a number,
    or parses to a value at most 0, [convertEntry] makes exactly one
    request, at the quality [entry.quality / 100], and keeps the blob of
    that request together with that quality; the loop is not entered. *)
Theorem invalid_budget_single_request
    (codec : Codec) (fuel : nat) (targetValue : string) (entry : Entry)
    (w : World) :
  targetValue = ""%string
  \/ isNaN (parseInt targetValue) = true
  \/ le (parseInt targetValue) (of_Z 0) = true ->
  convertEntry codec fuel targetValue entry w
  = Some (converted entry (codec w (img entry) (firstQuality entry))
            (firstQuality entry),
          w ++ [mkCall (img entry) (firstQuality entry)]).
Proof.
  intros H. apply convertEntry_of_encode, encode_no_budget.
  unfold hasBudget. destruct H as [->|[H|H]].
  - reflexivity.
  - rewrite H. reflexivity.
  - rewrite (le_zero_not_gt _ H). apply andb_false_r.
Qed.

Lemma invalid_budget_single_request_witness :
  convertEntry Sample.heavy 0 "-3 kB" (Sample.entryAt 80) []
  = Some (converted (Sample.entryAt 80)
            (Sample.heavy [] Sample.picture (fraction 80)) (fraction 80),
          [mkCall Sample.picture (fraction 80)]).
Proof.
  apply (invalid_budget_single_request Sample.heavy 0 "-3 kB"
           (Sample.entryAt 80) []).
  right. right. vm_compute. reflexivity.
Defined.

(** C7: with a positive budget that the blob of the first request
    already meets, [convertEntry] makes exactly one request and keeps its
    blob and the quality [entry.quality / 100]. *)
Theorem met_budget_single_request
    (codec : Codec) (fuel : nat) (targetValue : string) (entry : Entry)
    (w : World) :
  hasBudget (parseInt targetValue) = true ->
  overBudget (codec w (img entry) (firstQuality entry))
    (parseInt targetValue) = false ->
  (0 < fuel)%nat ->
  convertEntry codec fuel targetValue entry w
  = Some (converted entry (codec w (img entry) (firstQuality entry))
            (firstQuality entry),
          w ++ [mkCall (img entry) (firstQuality entry)]).
Proof.
  intros HB Hfit Hfuel. apply convertEntry_of_encode.
  rewrite (encode_budget _ _ _ _ _ HB).
  destruct fuel as [|fuel]; [lia|]. cbn [search]. rewrite Hfit. reflexivity.
Qed.

Lemma met_budget_single_request_witness :
  convertEntry Sample.light 1 "1" (Sample.entryAt 80) []
  = Some (converted (Sample.entryAt 80)
            (Sample.light [] Sample.picture (fraction 80)) (fraction 80),
          [mkCall Sample.picture (fraction 80)]).
Proof.
  apply (met_budget_single_request Sample.light 1 "1" (Sample.entryAt 80) []).
  - vm_compute. reflexivity.
  - vm_compute. reflexivity.
  - lia.
Defined.

(** ** Determinism *)

Lemma agree_after {A} (r1 r2 : option (A * World)) w1 w2 c :
  agree r1 r2 (w1 ++ [c]) (w2 ++ [c]) -> agree r1 r2 w1 w2.
Proof.
  destruct r1 as [[a1 w1']|], r2 as [[a2 w2']|]; cbn; try tauto.
  intros (Ha & calls & H1 & H2). split; [exact Ha|].
  exists (c :: calls). rewrite H1, H2, <- !app_assoc. split; reflexivity.
Qed.

Lemma agree_ret {A} (a : A) w1 w2 : agree (ret a w1) (ret a w2) w1 w2.
Proof.
  cbn. split; [reflexivity|]. exists []. rewrite !app_nil_r.
  split; reflexivity.
Qed.

Lemma search_agree codec (D : deterministic codec) fuel :
  forall image targetKb blob q w1 w2,
    agree (search codec fuel image targetKb blob q w1)
          (search codec fuel image targetKb blob q w2) w1 w2.
Proof.
  induction fuel as [|fuel IH]; intros image targetKb blob q w1 w2.
  - exact I.
  - cbn [search]. destruct (overBudget blob targetKb && gt q lit_0_2).
    + unfold bind, toBlob.
      rewrite (D w1 w2 image (sub q lit_0_05)).
      apply agree_after with (c := mkCall image (sub q lit_0_05)).
      apply IH.
    + apply agree_ret.
Qed.

Lemma encode_agree codec (D : deterministic codec) fuel targetValue entry
    w1 w2 :
  agree (encode codec fuel targetValue entry w1)
        (encode codec fuel targetValue entry w2) w1 w2.
Proof.
  unfold encode, bind, toBlob.
  rewrite (D w1 w2 (img entry) (div (quality entry) (of_Z 100))).
  apply agree_after
    with (c := mkCall (img entry) (div (quality entry) (of_Z 100))).
  destruct (hasBudget (parseInt targetValue)).
  - apply search_agree. exact D.
  - apply agree_ret.
Qed.

(** A conversion reads the image and the quality of its entry, nothing
    else. *)
Lemma encode_same codec fuel targetValue e1 e2 w :
  img e1 = img e2 -> quality e1 = quality e2 ->
  encode codec fuel targetValue e1 w = encode codec fuel targetValue e2 w.
Proof. intros Hi Hq. unfold encode. rewrite Hi, Hq. reflexivity. Qed.

(** C9: with a deterministic codec, two runs of [convertEntry] for the
    same image, the same quality and the same target size make the same
    requests in the same order (the same qualities for the same image),
    at least one, and end with the same blob and the same reported
    quality, or both run out of fuel; this whatever else the two entries
    hold, a blob of an earlier conversion for instance, and whatever was
    requested before.  Run on one and the same entry they leave the same
    entry.  Both end when the descent from the first quality reaches the
    floor within the fuel. *)
Theorem convertEntry_deterministic
    (codec : Codec) (fuel : nat) (targetValue : string) (e1 e2 : Entry)
    (w1 w2 : World) :
  deterministic codec ->
  img e1 = img e2 -> quality e1 = quality e2 ->
  agree (encode codec fuel targetValue e1 w1)
        (encode codec fuel targetValue e2 w2) w1 w2
  /\ match convertEntry codec fuel targetValue e1 w1,
           convertEntry codec fuel targetValue e2 w2 with
     | Some (e1', w1'), Some (e2', w2') =>
         convertedBlob e1' = convertedBlob e2'
         /\ convertedBlob e1' <> None
         /\ label e1' = label e2'
         /\ exists calls,
              calls <> [] /\ w1' = w1 ++ calls /\ w2' = w2 ++ calls
     | None, None => True
     | _, _ => False
     end
  /\ (e1 = e2 ->
      agree (convertEntry codec fuel targetValue e1 w1)
            (convertEntry codec fuel targetValue e2 w2) w1 w2)
  /\ (floorSteps fuel (firstQuality e1) <> None ->
      exists r1 r2,
        convertEntry codec fuel targetValue e1 w1 = Some r1
        /\ convertEntry codec fuel targetValue e2 w2 = Some r2).
Proof.
  intros D Hi Hq.
  pose proof (encode_agree codec D fuel targetValue e2 w1 w2) as H.
  rewrite <- (encode_same codec fuel targetValue e1 e2 w1 Hi Hq) in H.
  split; [exact H|].
  assert (F : firstQuality e1 = firstQuality e2)
    by (unfold firstQuality; rewrite Hq; reflexivity).
  split; [|split].
  - unfold convertEntry, bind.
    destruct (encode codec fuel targetValue e1 w1) as [[[b1 q1] w1']|] eqn:E1,
             (encode codec fuel targetValue e2 w2) as [[[b2 q2] w2']|];
      cbn in H |- *; try tauto.
    destruct H as (Heq & calls & H1 & H2). injection Heq as <- <-.
    split; [reflexivity|]. split; [discriminate|]. split; [reflexivity|].
    exists calls. split; [|split; assumption].
    destruct (encode_shape codec fuel targetValue e1 w1 _ _ _ E1)
      as (k & _ & _ & Hw & _).
    rewrite H1 in Hw. apply app_inv_head in Hw. rewrite Hw. discriminate.
  - intros <-. unfold convertEntry, bind.
    destruct (encode codec fuel targetValue e1 w1) as [[[b1 q1] w1']|],
             (encode codec fuel targetValue e1 w2) as [[[b2 q2] w2']|];
      cbn in H |- *; try tauto.
    destruct H as (Heq & calls & H1 & H2). injection Heq as <- <-.
    split; [reflexivity|]. exists calls. split; assumption.
  - intros T.
    destruct (floorSteps fuel (firstQuality e1)) as [K|] eqn:HK;
      [|contradiction].
    destruct (encode_total codec fuel targetValue e1 w1 K HK)
      as (b1 & q1 & w1' & E1).
    rewrite F in HK.
    destruct (encode_total codec fuel targetValue e2 w2 K HK)
      as (b2 & q2 & w2' & E2).
    eexists _, _. split; apply convertEntry_of_encode; eassumption.
Qed.

Lemma convertEntry_deterministic_witness :
  agree (encode Sample.heavy 18 "1" (Sample.entryAt 90) [])
        (encode Sample.heavy 18 "1"
           {| file := mkFile "b.png" "image/png"; img := Sample.picture;
              quality := of_Z 90;
              convertedBlob := Some (repeat Byte.x01 3);
              label := Used (of_Z 90); downloadDisabled := false |}
           [mkCall Sample.picture (fraction 50)])
        [] [mkCall Sample.picture (fraction 50)]
  /\ match convertEntry Sample.heavy 18 "1" (Sample.entryAt 90) [],
           convertEntry Sample.heavy 18 "1"
             {| file := mkFile "b.png" "image/png"; img := Sample.picture;
                quality := of_Z 90;
                convertedBlob := Some (repeat Byte.x01 3);
                label := Used (of_Z 90); downloadDisabled := false |}
             [mkCall Sample.picture (fraction 50)] with
     | Some (e1', w1'), Some (e2', w2') =>
         convertedBlob e1' = convertedBlob e2'
         /\ convertedBlob e1' <> None
         /\ label e1' = label e2'
         /\ exists calls,
              calls <> [] /\ w1' = [] ++ calls
              /\ w2' = [mkCall Sample.picture (fraction 50)] ++ calls
     | None, None => True
     | _, _ => False
     end
  /\ (Sample.entryAt 90
      = {| file := mkFile "b.png" "image/png"; img := Sample.picture;
           quality := of_Z 90;
           convertedBlob := Some (repeat Byte.x01 3);
           label := Used (of_Z 90); downloadDisabled := false |} ->
      agree (convertEntry Sample.heavy 18 "1" (Sample.entryAt 90) [])
            (convertEntry Sample.heavy 18 "1"
               {| file := mkFile "b.png" "image/png"; img := Sample.picture;
                  quality := of_Z 90;
                  convertedBlob := Some (repeat Byte.x01 3);
                  label := Used (of_Z 90); downloadDisabled := false |}
               [mkCall Sample.picture (fraction 50)])
            [] [mkCall Sample.picture (fraction 50)])
  /\ (floorSteps 18 (firstQuality (Sample.entryAt 90)) <> None ->
      exists r1 r2,
        convertEntry Sample.heavy 18 "1" (Sample.entryAt 90) [] = Some r1
        /\ convertEntry Sample.heavy 18 "1"
             {| file := mkFile "b.png" "image/png"; img := Sample.picture;
                quality := of_Z 90;
                convertedBlob := Some (repeat Byte.x01 3);
                label := Used (of_Z 90); downloadDisabled := false |}
             [mkCall Sample.picture (fraction 50)] = Some r2).
Proof.
  apply (convertEntry_deterministic Sample.heavy 18 "1" (Sample.entryAt 90)
           {| file := mkFile "b.png" "image/png"; img := Sample.picture;
              quality := of_Z 90;
              convertedBlob := Some (repeat Byte.x01 3);
              label := Used (of_Z 90); downloadDisabled := false |}
           [] [mkCall Sample.picture (fraction 50)]).
  - intros w1 w2 image q. reflexivity.
  - reflexivity.
  - reflexivity.
Defined.

(** ** Convert all *)

Section ConvertAllFacts.

Variable codec : Codec.
Variable fuel : nat.
Variable targetValue : string.

Lemma convertAll_cons entry rest w :
  convertAll codec fuel targetValue (entry :: rest) w
  = match (if pending entry
           then convertEntry codec fuel targetValue entry w
           else Some (entry, w)) with
    | Some (entry', w1) =>
        match convertAll codec fuel targetValue rest w1 with
        | Some (rest', w2) => Some (entry' :: rest', w2)
        | None => None
        end
    | None => None
    end.
Proof.
  cbn [convertAll]. unfold bind, ret, pending.
  destruct (convertedBlob entry); reflexivity.
Qed.

(** [convertAll] ends when each conversion it has to make does. *)
Lemma convertAll_total entries : forall w,
  (forall e, In e entries -> pending e = true ->
     floorSteps fuel (firstQuality e) <> None) ->
  exists res w', convertAll codec fuel targetValue entries w
                 = Some (res, w').
Proof.
  induction entries as [|entry rest IH]; intros w Hq.
  - exists [], w. reflexivity.
  - rewrite convertAll_cons.
    assert (Hrest : forall e, In e rest -> pending e = true ->
              floorSteps fuel (firstQuality e) <> None)
      by (intros e He; apply Hq; right; exact He).
    destruct (pending entry) eqn:P.
    + destruct (floorSteps fuel (firstQuality entry)) as [K|] eqn:HK;
        [|exfalso; apply (Hq entry (or_introl eq_refl) P HK)].
      destruct (encode_total codec fuel targetValue entry w K HK)
        as (blob & q & w1 & He).
      rewrite (convertEntry_of_encode _ _ _ _ _ _ _ _ He).
      destruct (IH w1 Hrest) as (res & w' & Hr). rewrite Hr.
      eexists _, _. reflexivity.
    + destruct (IH w Hrest) as (res & w' & Hr). rewrite Hr.
      eexists _, _. reflexivity.
Qed.

Lemma convertAll_frame entries : forall w res w',
  convertAll codec fuel targetValue entries w = Some (res, w') ->
  List.length res = List.length entries
  /\ (forall i e, nth_error entries i = Some e -> pending e = false ->
        nth_error res i = Some e)
  /\ (forall i e, nth_error entries i = Some e -> pending e = true ->
        exists blob q, nth_error res i = Some (converted e blob q))
  /\ (exists calls, w' = w ++ calls
        /\ forall c, In c calls ->
             exists e, In e entries /\ pending e = true
                       /\ call_img c = img e)
  /\ convertAll codec fuel targetValue (filter pending entries) w
     = Some (atPending entries res, w').
Proof.
  induction entries as [|entry rest IH]; intros w res w' H.
  - injection H as <- <-. repeat split.
    + intros [|i] e Hi; discriminate.
    + intros [|i] e Hi; discriminate.
    + exists []. split; [symmetry; apply app_nil_r|]. intros c [].
  - rewrite convertAll_cons in H. cbn [filter].
    destruct (pending entry) eqn:P.
    + destruct (convertEntry codec fuel targetValue entry w)
        as [[entry' w1]|] eqn:Hc; [|discriminate].
      destruct (convertAll codec fuel targetValue rest w1)
        as [[rest' w2]|] eqn:Hr; [|discriminate].
      injection H as <- <-.
      destruct (IH _ _ _ Hr) as (Hlen & Hdone & Hnew & Hcalls & Hfilter).
      destruct (convertEntry_Some _ _ _ _ _ _ _ Hc)
        as (blob & q & He & ->).
      destruct (encode_shape _ _ _ _ _ _ _ _ He)
        as (k & _ & _ & Hw1 & _ & _).
      repeat split.
      * cbn [List.length]. rewrite Hlen. reflexivity.
      * intros [|i] e Hi Hp; cbn [nth_error] in *.
        -- injection Hi as <-. congruence.
        -- apply Hdone; assumption.
      * intros [|i] e Hi Hp; cbn [nth_error] in *.
        -- injection Hi as <-. exists blob, q. reflexivity.
        -- apply Hnew; assumption.
      * destruct Hcalls as (calls & Hw2 & Hin).
        eexists. split; [rewrite Hw2, Hw1, <- app_assoc; reflexivity|].
        intros c Hc'. apply in_app_or in Hc'.
        destruct Hc' as [Hc'|Hc'].
        -- exists entry. repeat split; [left; reflexivity|exact P|].
           destruct Hc' as [<-|Hc']; [reflexivity|].
           unfold descentCalls in Hc'. apply in_map_iff in Hc'.
           destruct Hc' as (j & <- & _). reflexivity.
        -- destruct (Hin c Hc') as (e & He' & Hp & Hi).
           exists e. repeat split; [right; exact He'|exact Hp|exact Hi].
      * rewrite convertAll_cons, P, Hc, Hfilter.
        unfold atPending. cbn [combine filter fst map snd]. rewrite P.
        reflexivity.
    + destruct (convertAll codec fuel targetValue rest w)
        as [[rest' w2]|] eqn:Hr; [|discriminate].
      injection H as <- <-.
      destruct (IH _ _ _ Hr) as (Hlen & Hdone & Hnew & Hcalls & Hfilter).
      repeat split.
      * cbn [List.length]. rewrite Hlen. reflexivity.
      * intros [|i] e Hi Hp; cbn [nth_error] in *.
        -- exact Hi.
        -- apply Hdone; assumption.
      * intros [|i] e Hi Hp; cbn [nth_error] in *.
        -- injection Hi as <-. congruence.
        -- apply Hnew; assumption.
      * destruct Hcalls as (calls & Hw2 & Hin).
        exists calls. split; [exact Hw2|].
        intros c Hc'. destruct (Hin c Hc') as (e & He' & Hp & Hi).
        exists e. repeat split; [right; exact He'|exact Hp|exact Hi].
      * rewrite Hfilter.
        unfold atPending. cbn [combine filter fst map snd]. rewrite P.
        reflexivity.
Qed.

End ConvertAllFacts.

Section ConvertAllOrder.

Variable codec : Codec.
Variable fuel : nat.
Variable targetValue : string.

Lemma requestGroups_cons entry rest k ks :
  requestGroups (entry :: rest) (k :: ks)
  = (if pending entry then requestsOf entry k else [])
      :: requestGroups rest ks.
Proof. reflexivity. Qed.

(** The requests of [convertAll] are those of the conversions of the
    pending entries, one conversion after the other in the order of the
    list, and each pending entry is left as [convertEntry] leaves it when
    run after the requests of the entries before it. *)
Lemma convertAll_order entries : forall w res w',
  convertAll codec fuel targetValue entries w = Some (res, w') ->
  exists ks,
    List.length ks = List.length entries
    /\ w' = w ++ List.concat (requestGroups entries ks)
    /\ forall i e, nth_error entries i = Some e -> pending e = true ->
         exists e',
           nth_error res i = Some e'
           /\ convertEntry codec fuel targetValue e
                (w ++ List.concat (firstn i (requestGroups entries ks)))
              = Some (e', w ++ List.concat
                               (firstn (S i) (requestGroups entries ks)))
           /\ nth_error (requestGroups entries ks) i
              = Some (requestsOf e (nth i ks O)).
Proof.
  induction entries as [|entry rest IH]; intros w res w' H.
  - injection H as <- <-. exists []. split; [reflexivity|].
    split; [cbn; rewrite app_nil_r; reflexivity|].
    intros [|i] e Hi; discriminate.
  - rewrite convertAll_cons in H.
    destruct (pending entry) eqn:P.
    + destruct (convertEntry codec fuel targetValue entry w)
        as [[entry' w1]|] eqn:Hc; [|discriminate].
      destruct (convertAll codec fuel targetValue rest w1)
        as [[rest' w2]|] eqn:Hr; [|discriminate].
      injection H as <- <-.
      destruct (IH _ _ _ Hr) as (ks & Hlen & Hw & Hat).
      destruct (convertEntry_Some _ _ _ _ _ _ _ Hc) as (blob & q & He & _).
      destruct (encode_shape _ _ _ _ _ _ _ _ He)
        as (k & _ & _ & Hw1 & _ & _).
      fold (requestsOf entry k) in Hw1.
      exists (k :: ks). rewrite requestGroups_cons, P.
      split; [cbn [List.length]; rewrite Hlen; reflexivity|].
      split; [cbn [List.concat]; rewrite Hw, Hw1, <- app_assoc; reflexivity|].
      intros [|i] e Hi Hp; cbn [nth_error nth firstn List.concat] in *.
      * injection Hi as <-. exists entry'.
        split; [reflexivity|]. rewrite !app_nil_r.
        split; [rewrite Hc, Hw1; reflexivity|reflexivity].
      * destruct (Hat i e Hi Hp) as (e' & Hres & Hconv & Hgrp).
        exists e'. split; [exact Hres|].
        rewrite !app_assoc, <- Hw1. split; [exact Hconv|exact Hgrp].
    + destruct (convertAll codec fuel targetValue rest w)
        as [[rest' w2]|] eqn:Hr; [|discriminate].
      injection H as <- <-.
      destruct (IH _ _ _ Hr) as (ks & Hlen & Hw & Hat).
      exists (O :: ks). rewrite requestGroups_cons, P.
      split; [cbn [List.length]; rewrite Hlen; reflexivity|].
      split; [cbn [List.concat app]; exact Hw|].
      intros [|i] e Hi Hp; cbn [nth_error nth firstn List.concat app] in *.
      * injection Hi as <-. congruence.
      * exact (Hat i e Hi Hp).
Qed.

End ConvertAllOrder.

(** C10: [convertAll] converts the entries whose [convertedBlob] is null
    and no others, in the order of the list: its requests are those of
    the conversions of the pending entries, one conversion after the
    other in the order of the entries, and each pending entry is left as
    [convertEntry] leaves it when run after the requests of the entries
    before it, hence with a blob.  An entry that already holds a blob is
    left as it is (blob, quality, image and all) and no request is made
    for it; every request made is for the image of an entry that was
    pending; and the requests and the converted entries are those of
    running [convertAll] on the pending entries alone, in their order.
    The run ends whenever the descent of each pending entry reaches the
    floor within the fuel. *)
Theorem convertAll_only_pending
    (codec : Codec) (fuel : nat) (targetValue : string)
    (entries : list Entry) (w : World) :
  (forall e, In e entries -> pending e = true ->
     floorSteps fuel (firstQuality e) <> None) ->
  exists res w',
    convertAll codec fuel targetValue entries w = Some (res, w')
    /\ List.length res = List.length entries
    /\ (forall i e, nth_error entries i = Some e -> pending e = false ->
          nth_error res i = Some e)
    /\ (forall i e, nth_error entries i = Some e -> pending e = true ->
          exists blob q, nth_error res i = Some (converted e blob q))
    /\ (exists calls, w' = w ++ calls
          /\ forall c, In c calls ->
               exists e, In e entries /\ pending e = true
                         /\ call_img c = img e)
    /\ convertAll codec fuel targetValue (filter pending entries) w
       = Some (atPending entries res, w')
    /\ exists ks,
         List.length ks = List.length entries
         /\ w' = w ++ List.concat (requestGroups entries ks)
         /\ (forall i e, nth_error entries i = Some e ->
               pending e = false ->
               nth_error (requestGroups entries ks) i = Some [])
         /\ forall i e, nth_error entries i = Some e -> pending e = true ->
              exists e',
                nth_error res i = Some e'
                /\ convertEntry codec fuel targetValue e
                     (w ++ List.concat
                             (firstn i (requestGroups entries ks)))
                   = Some (e', w ++ List.concat
                                    (firstn (S i)
                                       (requestGroups entries ks)))
                /\ nth_error (requestGroups entries ks) i
                   = Some (requestsOf e (nth i ks O)).
Proof.
  intros Hq.
  destruct (convertAll_total codec fuel targetValue entries w Hq)
    as (res & w' & H).
  exists res, w'. split; [exact H|].
  destruct (convertAll_frame codec fuel targetValue entries w res w' H)
    as (F1 & F2 & F3 & F4 & F5).
  destruct (convertAll_order codec fuel targetValue entries w res w' H)
    as (ks & Hlen & Hw & Hat).
  repeat (split; [assumption|]).
  exists ks. split; [exact Hlen|]. split; [exact Hw|]. split; [|exact Hat].
  intros i e Hi Hp. unfold requestGroups.
  assert (Hk : exists k, nth_error ks i = Some k).
  { destruct (nth_error ks i) as [k|] eqn:E; [exists k; reflexivity|].
    apply nth_error_None in E.
    assert (i < List.length entries)%nat
      by (apply nth_error_Some; congruence).
    lia. }
  destruct Hk as (k & Hk).
  rewrite nth_error_map.
  assert (C : nth_error (combine entries ks) i = Some (e, k)).
  { clear - Hi Hk. revert entries ks Hi Hk.
    induction i as [|i IH]; intros [|x xs] [|y ys] Hi Hk;
      cbn in *; try discriminate.
    - congruence.
    - apply IH; assumption. }
  rewrite C. cbn [option_map fst snd]. rewrite Hp. reflexivity.
Qed.

Lemma convertAll_only_pending_witness :
  exists res w',
    convertAll Sample.heavy 18 "1"
      [Sample.entryAt 80; Sample.done; Sample.entryAt 30] []
    = Some (res, w')
    /\ List.length res
       = List.length [Sample.entryAt 80; Sample.done; Sample.entryAt 30]
    /\ (forall i e,
          nth_error [Sample.entryAt 80; Sample.done; Sample.entryAt 30] i
          = Some e ->
          pending e = false -> nth_error res i = Some e)
    /\ (forall i e,
          nth_error [Sample.entryAt 80; Sample.done; Sample.entryAt 30] i
          = Some e ->
          pending e = true ->
          exists blob q, nth_error res i = Some (converted e blob q))
    /\ (exists calls, w' = [] ++ calls
          /\ forall c, In c calls ->
               exists e,
                 In e [Sample.entryAt 80; Sample.done; Sample.entryAt 30]
                 /\ pending e = true /\ call_img c = img e)
    /\ convertAll Sample.heavy 18 "1"
         (filter pending
            [Sample.entryAt 80; Sample.done; Sample.entryAt 30]) []
       = Some (atPending
                 [Sample.entryAt 80; Sample.done; Sample.entryAt 30] res,
               w')
    /\ exists ks,
         List.length ks
         = List.length [Sample.entryAt 80; Sample.done; Sample.entryAt 30]
         /\ w' = [] ++ List.concat
                         (requestGroups
                            [Sample.entryAt 80; Sample.done;
                             Sample.entryAt 30] ks)
         /\ (forall i e,
               nth_error
                 [Sample.entryAt 80; Sample.done; Sample.entryAt 30] i
               = Some e ->
               pending e = false ->
               nth_error
                 (requestGroups
                    [Sample.entryAt 80; Sample.done; Sample.entryAt 30] ks)
                 i = Some [])
         /\ forall i e,
              nth_error
                [Sample.entryAt 80; Sample.done; Sample.entryAt 30] i
              = Some e ->
              pending e = true ->
              exists e',
                nth_error res i = Some e'
                /\ convertEntry Sample.heavy 18 "1" e
                     ([] ++ List.concat
                              (firstn i
                                 (requestGroups
                                    [Sample.entryAt 80; Sample.done;
                                     Sample.entryAt 30] ks)))
                   = Some (e', [] ++ List.concat
                                     (firstn (S i)
                                        (requestGroups
                                           [Sample.entryAt 80; Sample.done;
                                            Sample.entryAt 30] ks)))
                /\ nth_error
                     (requestGroups
                        [Sample.entryAt 80; Sample.done; Sample.entryAt 30]
                        ks) i
                   = Some (requestsOf e (nth i ks O)).
Proof.
  apply (convertAll_only_pending Sample.heavy 18 "1"
           [Sample.entryAt 80; Sample.done; Sample.entryAt 30] []).
  intros e [<-|[<-|[<-|[]]]] Hp.
  - vm_compute. discriminate.
  - discriminate Hp.
  - vm_compute. discriminate.
Defined.

(** ** The floor of the search *)

Lemma startChecked_all n : 21 <= n <= 100 -> startChecked n = true.
Proof.
  intros H.
  assert (A : forallb startChecked (zrange 21 80) = true)
    by (vm_compute; reflexivity).
  rewrite forallb_forall in A. apply A. apply zrange_In. lia.
Qed.

(** What [descentChecked] gives, as propositions. *)
Lemma descentChecked_facts n :
  0 <= n <= 100 ->
  exists K,
    floorSteps 18 (fraction n) = Some K
    /\ specFloorSteps n <= Z.of_nat K <= specFloorSteps n + 1
    /\ Z.of_nat K <= specCeilSteps n + 1
    /\ forall j, (1 <= j <= K)%nat ->
         gt (descent (fraction n) j) lit_0_15 = true.
Proof.
  intros H. pose proof (descentChecked_all n H) as C.
  unfold descentChecked in C.
  destruct (floorSteps 18 (fraction n)) as [K|]; [|discriminate].
  exists K. apply andb_prop in C. destruct C as [C C4].
  apply andb_prop in C. destruct C as [C C3].
  apply andb_prop in C. destruct C as [C1 C2].
  repeat split; try lia.
  intros j Hj. rewrite forallb_forall in C4. apply C4, in_seq. lia.
Qed.

(** Passes that all start above 0.2 are at most those to the floor. *)
Lemma above_floor_within fuel q K k :
  floorSteps fuel q = Some K ->
  (forall j, (j < k)%nat -> gt (descent q j) lit_0_2 = true) ->
  (k <= K)%nat.
Proof.
  intros HK Hb.
  destruct (floorSteps_spec _ _ _ HK) as (_ & Hstop & _).
  destruct (Nat.le_gt_cases k K) as [Hle|Hgt]; [exact Hle|].
  rewrite (Hb K Hgt) in Hstop. discriminate.
Qed.




(** ** A budget out of reach *)

(** C3, as the script has it: for every integer quality [n] from 21 to
    100 and a positive budget that every blob of the codec exceeds, a
    conversion makes the first request and then exactly [K] more, one per
    decrement, where [K] is the number of binary64 decrements of 0.05
    that bring [n / 100] to 0.2 or below; [K] is
    [floor((n/100 - 0.20) / 0.05)] or one more.  It keeps the blob of its
    last request, whose quality is at most 0.2 and above 0.15.  From
    quality 90 there are 14 decrements, 15 requests, and the label shows
    20. *)
Theorem unreachable_budget_runs_to_floor
    (codec : Codec) (fuel : nat) (targetValue : string) (entry : Entry)
    (n : Z) (w : World) :
  21 <= n <= 100 ->
  quality entry = of_Z n ->
  hasBudget (parseInt targetValue) = true ->
  (forall w0 image q,
     overBudget (codec w0 image q) (parseInt targetValue) = true) ->
  (18 <= fuel)%nat ->
  exists K blob q,
    convertEntry codec fuel targetValue entry w
    = Some (converted entry blob q,
            w ++ mkCall (img entry) (fraction n)
              :: descentCalls (img entry) (fraction n) K)
    /\ floorSteps 18 (fraction n) = Some K
    /\ specFloorSteps n <= Z.of_nat K <= specFloorSteps n + 1
    /\ q = descent (fraction n) K
    /\ gt q lit_0_2 = false
    /\ gt q lit_0_15 = true
    /\ (exists wm,
          w ++ mkCall (img entry) (fraction n)
            :: descentCalls (img entry) (fraction n) K
          = wm ++ [mkCall (img entry) q]
          /\ blob = codec wm (img entry) q)
    /\ (n = 90 ->
        K = 14%nat
        /\ List.length (mkCall (img entry) (fraction n)
                          :: descentCalls (img entry) (fraction n) K)
           = 15%nat
        /\ label (converted entry blob q) = Used (of_Z 20)).
Proof.
  intros Hn Hq HB Hover Hfuel.
  assert (Hfq : firstQuality entry = fraction n)
    by (unfold firstQuality, fraction; rewrite Hq; reflexivity).
  destruct (descentChecked_facts n ltac:(lia))
    as (K & HK & Hfloor & _ & Habove).
  pose proof (floorSteps_more _ _ _ _ HK Hfuel) as HKf.
  rewrite <- Hfq in HKf.
  destruct (encode_total codec fuel targetValue entry w K HKf)
    as (blob & q & w' & He).
  pose proof He as Hs. rewrite (encode_budget _ _ _ _ _ HB) in Hs.
  apply search_passes in Hs. destruct Hs as (k & _ & Hp & Hstop).
  destruct (encode_shape _ _ _ _ _ _ _ _ He)
    as (k' & _ & _ & _ & _ & wm & Hlast & Hblob).
  destruct (passes_descent _ _ _ _ _ _ _ _ _ _ Hp) as (Hqk & Hw & Hb).
  rewrite Hfq in Hqk, Hw, Hb.
  assert (Hstopq : gt q lit_0_2 = false).
  { unfold guard in Hstop. rewrite Hblob, Hover in Hstop. exact Hstop. }
  assert (Hk : k = K).
  { pose proof (above_floor_within _ _ _ _ HK Hb) as Hle.
    destruct (floorSteps_spec _ _ _ HK) as (_ & _ & Hbefore).
    destruct (Nat.eq_dec k K) as [E|E]; [exact E|].
    rewrite Hqk, (Hbefore k ltac:(lia)) in Hstopq. discriminate. }
  subst k.
  assert (HK1 : (1 <= K)%nat).
  { destruct K as [|K]; [|lia]. cbn [descent] in Hqk. subst q.
    pose proof (startChecked_all n Hn) as S. unfold startChecked in S.
    apply andb_prop in S. destruct S as [S _]. congruence. }
  assert (Hw' : w' = w ++ mkCall (img entry) (fraction n)
                       :: descentCalls (img entry) (fraction n) K)
    by (rewrite Hw, <- app_assoc; reflexivity).
  exists K, blob, q. repeat split; try lia; try assumption.
  - rewrite (convertEntry_of_encode _ _ _ _ _ _ _ _ He), Hw'. reflexivity.
  - rewrite Hqk. apply Habove. lia.
  - exists wm. rewrite <- Hw'. split; assumption.
  - subst n. vm_compute in HK. congruence.
  - subst n. cbn [List.length]. unfold descentCalls.
    rewrite length_map, length_seq. vm_compute in HK. congruence.
  - subst n. assert (K = 14%nat) by (vm_compute in HK; congruence).
    subst K q. vm_compute. reflexivity.
Qed.

Lemma unreachable_budget_runs_to_floor_witness :
  exists K blob q,
    convertEntry Sample.heavy 18 "1" (Sample.entryAt 90) []
    = Some (converted (Sample.entryAt 90) blob q,
            [] ++ mkCall (img (Sample.entryAt 90)) (fraction 90)
              :: descentCalls (img (Sample.entryAt 90)) (fraction 90) K)
    /\ floorSteps 18 (fraction 90) = Some K
    /\ specFloorSteps 90 <= Z.of_nat K <= specFloorSteps 90 + 1
    /\ q = descent (fraction 90) K
    /\ gt q lit_0_2 = false
    /\ gt q lit_0_15 = true
    /\ (exists wm,
          [] ++ mkCall (img (Sample.entryAt 90)) (fraction 90)
            :: descentCalls (img (Sample.entryAt 90)) (fraction 90) K
          = wm ++ [mkCall (img (Sample.entryAt 90)) q]
          /\ blob = Sample.heavy wm (img (Sample.entryAt 90)) q)
    /\ (90 = 90 ->
        K = 14%nat
        /\ List.length (mkCall (img (Sample.entryAt 90)) (fraction 90)
                          :: descentCalls (img (Sample.entryAt 90))
                               (fraction 90) K)
           = 15%nat
        /\ label (converted (Sample.entryAt 90) blob q) = Used (of_Z 20)).
Proof.
  apply (unreachable_budget_runs_to_floor Sample.heavy 18 "1"
           (Sample.entryAt 90) 90 []).
  - lia.
  - reflexivity.
  - vm_compute. reflexivity.
  - intros w0 image q. vm_compute. reflexivity.
  - lia.
Defined.

(** C3 fails as worded: from quality 32 and a budget of 1 KB that no
    blob meets, the loop decrements three times (four requests), while
    [floor((0.32 - 0.20) / 0.05)] is 2, in exact arithmetic and in
    binary64 alike; the blob kept was made at 0.17000000000000004 and
    the label shows 17. *)
Lemma unreachable_budget_not_floor_count :
  (forall w0 image q, overBudget (Sample.heavy w0 image q) (parseInt "1") = true)
  /\ convertEntry Sample.heavy 18 "1" (Sample.entryAt 32) []
     = Some (converted (Sample.entryAt 32) (repeat Byte.x00 2048)
               (descent (fraction 32) 3),
             mkCall Sample.picture (fraction 32)
               :: descentCalls Sample.picture (fraction 32) 3)
  /\ specFloorSteps 32 = 2
  /\ floatFloorSteps 32 = of_Z 2
  /\ label (converted (Sample.entryAt 32) (repeat Byte.x00 2048)
              (descent (fraction 32) 3)) = Used (of_Z 17).
Proof.
  split; [intros w0 image q; vm_compute; reflexivity|].
  repeat split; vm_compute; reflexivity.
Qed.

(** ** Termination of the loop *)

(** C8, as the script has it: for every image, every budget, every first
    blob and every integer quality [n] from 0 to 100, the loop started at
    [n / 100] ends.  It makes [k] passes, the condition
    [blob.size > targetKb * 1024 && q > 0.2] holding before each and
    failing after the last, so it stops at the first state where the blob
    fits or the quality is no longer above 0.2; and [k] is at most
    [ceil((n/100 - 0.20) / 0.05) + 1]. *)
Theorem search_terminates_within_bound
    (codec : Codec) (fuel : nat) (image : Image) (targetKb : number)
    (blob : Blob) (n : Z) (w : World) :
  0 <= n <= 100 ->
  (18 <= fuel)%nat ->
  exists k blob' q',
    search codec fuel image targetKb blob (fraction n) w
    = Some (blob', q', w ++ descentCalls image (fraction n) k)
    /\ passes codec image targetKb k (blob, fraction n, w)
         (blob', q', w ++ descentCalls image (fraction n) k)
    /\ guard targetKb blob' q' = false
    /\ Z.of_nat k <= specCeilSteps n + 1.
Proof.
  intros Hn Hfuel.
  destruct (descentChecked_facts n Hn) as (K & HK & _ & Hceil & _).
  pose proof (floorSteps_more _ _ _ _ HK Hfuel) as HKf.
  destruct (search_total codec image targetKb fuel blob _ w K HKf)
    as (blob' & q' & w' & Hs).
  pose proof Hs as Hs'. apply search_passes in Hs'.
  destruct Hs' as (k & _ & Hp & Hstop).
  destruct (passes_descent _ _ _ _ _ _ _ _ _ _ Hp) as (_ & Hw & Hb).
  pose proof (above_floor_within _ _ _ _ HK Hb) as Hk.
  subst w'. exists k, blob', q'. repeat split; try assumption. lia.
Qed.

Lemma search_terminates_within_bound_witness :
  exists k blob' q',
    search Sample.growing 18 Sample.picture (of_Z 1) (repeat Byte.x00 2000)
      (fraction 80) []
    = Some (blob', q', [] ++ descentCalls Sample.picture (fraction 80) k)
    /\ passes Sample.growing Sample.picture (of_Z 1) k
         (repeat Byte.x00 2000, fraction 80, [])
         (blob', q', [] ++ descentCalls Sample.picture (fraction 80) k)
    /\ guard (of_Z 1) blob' q' = false
    /\ Z.of_nat k <= specCeilSteps 80 + 1.
Proof.
  apply (search_terminates_within_bound Sample.growing 18 Sample.picture
           (of_Z 1) (repeat Byte.x00 2000) 80 []); lia.
Defined.

(** C8 fails as worded: from quality 40 and a budget of 1 KB that no
    blob meets, the loop re-encodes five times, while
    [ceil((0.40 - 0.20) / 0.05)] is 4, in exact arithmetic and in
    binary64 alike: four decrements leave 0.20000000000000007, which is
    still above 0.2. *)
Lemma search_exceeds_ceiling_bound :
  search Sample.heavy 18 Sample.picture (parseInt "1")
    (repeat Byte.x00 2048) (fraction 40) []
  = Some (repeat Byte.x00 2048, descent (fraction 40) 5,
          descentCalls Sample.picture (fraction 40) 5)
  /\ List.length (descentCalls Sample.picture (fraction 40) 5) = 5%nat
  /\ specCeilSteps 40 = 4
  /\ floatCeilSteps 40 = of_Z 4
  /\ descent (fraction 40) 4 = S754_finite false 7205759403792796 (-55)
  /\ gt (descent (fraction 40) 4) lit_0_2 = true.
Proof.
  repeat split; vm_compute; reflexivity.
Qed.

(** ** Binary64 rounding *)

(** A positive number of [d] binary digits lies in [2^(d-1), 2^d). *)
Lemma digits_bounds m :
  2 ^ (Z.pos (digits2_pos m) - 1) <= Z.pos m < 2 ^ Z.pos (digits2_pos m).
Proof.
  induction m as [m IH|m IH|]; cbn [digits2_pos].
  - rewrite Pos2Z.inj_succ.
    replace (Z.succ (Z.pos (digits2_pos m)) - 1)
      with (Z.succ (Z.pos (digits2_pos m) - 1)) by lia.
    rewrite !Z.pow_succ_r by lia. lia.
  - rewrite Pos2Z.inj_succ.
    replace (Z.succ (Z.pos (digits2_pos m)) - 1)
      with (Z.succ (Z.pos (digits2_pos m) - 1)) by lia.
    rewrite !Z.pow_succ_r by lia. lia.
  - cbn. lia.
Qed.

(** The number of digits is determined by the bounds. *)
Lemma digits_unique d M :
  0 <= d -> 2 ^ (d - 1) <= M < 2 ^ d -> 0 < M ->
  forall d', 0 <= d' -> 2 ^ (d' - 1) <= M < 2 ^ d' -> d = d'.
Proof.
  intros Hd H HM d' Hd' H'.
  destruct (Z.lt_trichotomy d d') as [L|[E|L]]; [|exact E|].
  - assert (2 ^ d <= 2 ^ (d' - 1)) by (apply Z.pow_le_mono_r; lia). lia.
  - assert (2 ^ d' <= 2 ^ (d - 1)) by (apply Z.pow_le_mono_r; lia). lia.
Qed.

Lemma digits_shift m k :
  0 <= k -> forall p, Z.pos p = Z.pos m * 2 ^ k ->
  Z.pos (digits2_pos p) = Z.pos (digits2_pos m) + k.
Proof.
  intros Hk p Hp.
  apply (digits_unique _ (Z.pos p)); try lia.
  - apply digits_bounds.
  - pose proof (digits_bounds m) as [L U]. rewrite Hp.
    replace (Z.pos (digits2_pos m) + k - 1) with ((Z.pos (digits2_pos m) - 1) + k) by lia.
    rewrite !Z.pow_add_r by lia.
    assert (0 < 2 ^ k) by (apply Z.pow_pos_nonneg; lia).
    split; nia.
Qed.

(** One shift: halve, keep the bit lost, remember the bits lost before. *)
Lemma shr_1_nonneg M r s :
  0 <= M ->
  shr_1 (Build_shr_record M r s)
  = Build_shr_record (M / 2) (Z.odd M) (r || s).
Proof.
  intros HM. rewrite <- Z.div2_div.
  destruct M as [|[p|p|]|]; try reflexivity. lia.
Qed.

Lemma iter_pos_nat {A} (f : A -> A) p : forall x,
  iter_pos f p x = Nat.iter (Pos.to_nat p) f x.
Proof.
  induction p as [p IH|p IH|]; intros x; cbn [iter_pos].
  - rewrite !IH, Pos2Nat.inj_xI.
    replace (S (2 * Pos.to_nat p)) with (Pos.to_nat p + (Pos.to_nat p + 1))%nat by lia.
    rewrite !Nat.iter_add. reflexivity.
  - rewrite !IH, Pos2Nat.inj_xO.
    replace (2 * Pos.to_nat p)%nat with (Pos.to_nat p + Pos.to_nat p)%nat by lia.
    rewrite Nat.iter_add. reflexivity.
  - reflexivity.
Qed.

(** The record after [k + 1] shifts by one bit. *)
Lemma shr_iter M k :
  0 <= M ->
  Nat.iter (S k) shr_1 (Build_shr_record M false false)
  = Build_shr_record (M / 2 ^ Z.of_nat (S k))
      (Z.odd (M / 2 ^ Z.of_nat k))
      (negb (M mod 2 ^ Z.of_nat k =? 0)).
Proof.
  intros HM. induction k as [|k IH].
  - cbn [Nat.iter]. rewrite shr_1_nonneg by exact HM.
    change (2 ^ Z.of_nat 1) with 2. change (2 ^ Z.of_nat 0) with 1.
    rewrite Z.div_1_r, Z.mod_1_r. reflexivity.
  - rewrite (Nat.iter_succ (S k)), IH.
    assert (P : 0 < 2 ^ Z.of_nat k) by (apply Z.pow_pos_nonneg; lia).
    assert (P1 : 2 ^ Z.of_nat (S k) = 2 ^ Z.of_nat k * 2)
      by (rewrite Nat2Z.inj_succ, Z.pow_succ_r; lia).
    assert (P2 : 2 ^ Z.of_nat (S (S k)) = 2 ^ Z.of_nat (S k) * 2)
      by (rewrite (Nat2Z.inj_succ (S k)), Z.pow_succ_r; lia).
    rewrite shr_1_nonneg by (apply Z.div_pos; lia).
    f_equal.
    + rewrite P2, Z.div_div by lia. reflexivity.
    + rewrite P1, Z.rem_mul_r by lia.
      rewrite Zodd_mod.
      pose proof (Z.mod_pos_bound M (2 ^ Z.of_nat k) P) as B1.
      pose proof (Z.mod_pos_bound (M / 2 ^ Z.of_nat k) 2 ltac:(lia)) as B2.
      destruct (M / 2 ^ Z.of_nat k mod 2 =? 1) eqn:E1;
      destruct (M mod 2 ^ Z.of_nat k =? 0) eqn:E2; cbn;
      symmetry; try (apply Z.eqb_neq); try (apply Z.eqb_eq);
      rewrite ?Z.eqb_eq, ?Z.eqb_neq in *; nia.
Qed.

Lemma rne_0 a : rne a 0 = a.
Proof.
  unfold rne. change (2 ^ 0) with 1. rewrite Z.div_1_r, Z.mod_1_r. reflexivity.
Qed.

(** Shifting by [p] bits and rounding to nearest even is [rne]. *)
Lemma shr_round M p :
  0 <= M ->
  round_nearest_even
    (shr_m (iter_pos shr_1 p (Build_shr_record M false false)))
    (loc_of_shr_record (iter_pos shr_1 p (Build_shr_record M false false)))
  = rne M (Z.pos p).
Proof.
  intros HM. rewrite iter_pos_nat.
  destruct (Pos.to_nat p) as [|k] eqn:Ek; [lia|].
  rewrite shr_iter by exact HM.
  assert (En : Z.pos p = Z.of_nat (S k)) by lia.
  rewrite En. unfold rne.
  assert (P : 0 < 2 ^ Z.of_nat k) by (apply Z.pow_pos_nonneg; lia).
  assert (P1 : 2 ^ Z.of_nat (S k) = 2 ^ Z.of_nat k * 2)
    by (rewrite Nat2Z.inj_succ, Z.pow_succ_r; lia).
  rewrite P1 at 2 3. rewrite Z.rem_mul_r by lia.
  rewrite Zodd_mod.
  pose proof (Z.mod_pos_bound M (2 ^ Z.of_nat k) P) as B1.
  pose proof (Z.mod_pos_bound (M / 2 ^ Z.of_nat k) 2 ltac:(lia)) as B2.
  cbn [shr_m loc_of_shr_record].
  destruct (M / 2 ^ Z.of_nat k mod 2 =? 1) eqn:E1;
  destruct (M mod 2 ^ Z.of_nat k =? 0) eqn:E2; cbn [negb];
  rewrite ?Z.eqb_eq, ?Z.eqb_neq in *; cbn [round_nearest_even].
  - replace (_ ?= _) with Eq; [reflexivity|]. symmetry. apply Z.compare_eq_iff. nia.
  - replace (_ ?= _) with Gt; [reflexivity|]. symmetry. apply Z.compare_gt_iff. nia.
  - replace (_ ?= _) with Lt; [reflexivity|]. symmetry. apply Z.compare_lt_iff. nia.
  - replace (_ ?= _) with Lt; [reflexivity|]. symmetry. apply Z.compare_lt_iff. nia.
Qed.

Lemma fexp_eq x : fexp prec emax x = fexp64 x.
Proof. reflexivity. Qed.

Lemma rne_bounds a n :
  0 <= n -> a / 2 ^ n <= rne a n <= a / 2 ^ n + 1.
Proof.
  intros Hn. unfold rne.
  destruct (2 * (a mod 2 ^ n) ?= 2 ^ n); [destruct (Z.even _)| |]; lia.
Qed.

Lemma rne_upper a n b :
  0 <= n -> 0 <= a -> a < b * 2 ^ n -> rne a n <= b.
Proof.
  intros Hn Ha H. pose proof (rne_bounds a n Hn) as [_ U].
  assert (P : 0 < 2 ^ n) by (apply Z.pow_pos_nonneg; lia).
  assert (a / 2 ^ n < b) by (apply Z.div_lt_upper_bound; lia). lia.
Qed.

Lemma rne_lower a n b :
  0 <= n -> b * 2 ^ n <= a -> b <= rne a n.
Proof.
  intros Hn H. pose proof (rne_bounds a n Hn) as [L _].
  assert (P : 0 < 2 ^ n) by (apply Z.pow_pos_nonneg; lia).
  assert (b <= a / 2 ^ n) by (apply Z.div_le_lower_bound; lia). lia.
Qed.

(** [binary_round_aux] on an exact mantissa that needs no left shift:
    the mantissa is rounded on the grid of its magnitude, and a carry to
    [2^53] moves to the next exponent. *)
Lemma round_aux_exact mp E :
  let d := Z.pos (digits2_pos mp) in
  let e' := fexp64 (d + E) in
  E <= e' ->
  d + E <= 1023 ->
  binary_round_aux prec emax false (Z.pos mp) E loc_Exact
  = mkfloat (rne (Z.pos mp) (e' - E)) e'.
Proof.
  intros d e' Hn Hov.
  pose proof (digits_bounds mp) as [DL DU]. fold d in DL, DU.
  assert (He' : -1074 <= e' /\ d + E - 53 <= e') by (unfold e', fexp64; lia).
  assert (Hm1 : 0 <= rne (Z.pos mp) (e' - E) <= 2 ^ 53).
  { split.
    - apply rne_lower; lia.
    - apply rne_upper; try lia.
      rewrite <- Z.pow_add_r by lia.
      assert (2 ^ d <= 2 ^ (53 + (e' - E))) by (apply Z.pow_le_mono_r; lia).
      lia. }
  unfold binary_round_aux, shr_fexp. cbn [Zdigits2]. rewrite fexp_eq.
  fold d. fold e'. cbn [shr_record_of_loc].
  assert (Hfirst :
    (let '(mrs', e1) := shr (Build_shr_record (Z.pos mp) false false) E (e' - E) in
     (round_nearest_even (shr_m mrs') (loc_of_shr_record mrs'), e1))
    = (rne (Z.pos mp) (e' - E), e')).
  { unfold shr. destruct (e' - E) as [|p|p] eqn:En; [| |lia].
    - rewrite rne_0. cbn. f_equal. lia.
    - rewrite shr_round by lia. f_equal. lia. }
  destruct (shr (Build_shr_record (Z.pos mp) false false) E (e' - E)) as [mrs' e1].
  injection Hfirst as -> ->.
  set (m1 := rne (Z.pos mp) (e' - E)) in *.
  unfold mkfloat.
  destruct (m1 =? 0) eqn:E0.
  - apply Z.eqb_eq in E0. rewrite E0. cbn [Zdigits2]. rewrite fexp_eq.
    unfold shr. destruct (fexp64 (0 + e') - e') eqn:En;
      try reflexivity.
    unfold fexp64 in En. lia.
  - apply Z.eqb_neq in E0. destruct (m1 =? 2 ^ 53) eqn:E53.
    + apply Z.eqb_eq in E53. rewrite E53.
      change (Zdigits2 (2 ^ 53)) with 54. rewrite fexp_eq.
      replace (fexp64 (54 + e') - e') with 1 by (unfold fexp64; lia).
      cbn [shr iter_pos]. cbn [shr_1 shr_m Z.pow Z.pow_pos Pos.iter Z.mul Pos.mul].
      replace (e' + 1 <=? emax - prec) with true
        by (symmetry; apply Z.leb_le; unfold emax, prec, e', fexp64; lia).
      reflexivity.
    + apply Z.eqb_neq in E53.
      destruct m1 as [|p1|p1] eqn:Em1; [lia| |lia].
      cbn [Zdigits2]. rewrite fexp_eq.
      pose proof (digits_bounds p1) as [L1 U1].
      assert (Z.pos (digits2_pos p1) <= 53).
      { destruct (Z.le_gt_cases (Z.pos (digits2_pos p1)) 53) as [H|H]; [exact H|].
        assert (2 ^ 53 <= 2 ^ (Z.pos (digits2_pos p1) - 1))
          by (apply Z.pow_le_mono_r; lia). lia. }
      unfold shr. destruct (fexp64 (Z.pos (digits2_pos p1) + e') - e') eqn:En.
      * cbn [shr_m]. 
        replace (e' <=? emax - prec) with true
          by (symmetry; apply Z.leb_le; unfold emax, prec, e', fexp64; lia).
        reflexivity.
      * unfold fexp64 in En. lia.
      * cbn [shr_m]. 
        replace (e' <=? emax - prec) with true
          by (symmetry; apply Z.leb_le; unfold emax, prec, e', fexp64; lia).
        reflexivity.
Qed.

Lemma rne_scale a n k :
  0 <= n -> 0 <= k -> rne (a * 2 ^ k) (n + k) = rne a n.
Proof.
  intros Hn Hk. unfold rne.
  assert (Pn : 0 < 2 ^ n) by (apply Z.pow_pos_nonneg; lia).
  assert (Pk : 0 < 2 ^ k) by (apply Z.pow_pos_nonneg; lia).
  rewrite Z.pow_add_r by lia.
  rewrite Z.div_mul_cancel_r by lia.
  rewrite Z.mul_mod_distr_r by lia.
  replace (2 * (a mod 2 ^ n * 2 ^ k)) with ((2 * (a mod 2 ^ n)) * 2 ^ k) by lia.
  rewrite <- Zmult_compare_compat_r by lia. reflexivity.
Qed.

Lemma rne_exact a n : 0 <= n -> rne (a * 2 ^ n) n = a.
Proof.
  intros Hn. pose proof (rne_scale a 0 n ltac:(lia) Hn) as H.
  rewrite Z.add_0_l in H. rewrite H. apply rne_0.
Qed.

Lemma rne_mono a b n : 0 <= n -> a <= b -> rne a n <= rne b n.
Proof.
  intros Hn Hab. 
  assert (Pn : 0 < 2 ^ n) by (apply Z.pow_pos_nonneg; lia).
  pose proof (Z.div_le_mono a b (2 ^ n) Pn Hab) as Hq.
  destruct (Z.eq_dec (a / 2 ^ n) (b / 2 ^ n)) as [E|NE].
  - unfold rne. rewrite <- E.
    pose proof (Z.div_mod a (2 ^ n) ltac:(lia)) as Da.
    pose proof (Z.div_mod b (2 ^ n) ltac:(lia)) as Db.
    rewrite <- E in Db.
    assert (Hr : a mod 2 ^ n <= b mod 2 ^ n) by lia.
    destruct (2 * (a mod 2 ^ n) ?= 2 ^ n) eqn:Ca;
    destruct (2 * (b mod 2 ^ n) ?= 2 ^ n) eqn:Cb;
    rewrite ?Z.compare_eq_iff, ?Z.compare_lt_iff, ?Z.compare_gt_iff in *;
    destruct (Z.even (a / 2 ^ n)); lia.
  - pose proof (rne_bounds a n Hn). pose proof (rne_bounds b n Hn). lia.
Qed.

Lemma pos_iter_xO m d : Z.pos (Pos.iter xO m d) = Z.pos m * 2 ^ Z.pos d.
Proof.
  induction d as [|d IH] using Pos.peano_ind.
  - cbn. lia.
  - rewrite Pos.iter_succ, Pos2Z.inj_succ, Z.pow_succ_r by lia.
    rewrite Pos2Z.inj_xO, IH. lia.
Qed.

Lemma shl_align_spec mx ex ex' :
  let '(m', e') := shl_align mx ex ex' in
  e' = Z.min ex ex' /\ Z.pos m' = Z.pos mx * 2 ^ (ex - e').
Proof.
  unfold shl_align. destruct (ex' - ex) as [|d|d] eqn:E.
  - split; [lia|]. rewrite Z.sub_diag. lia.
  - split; [lia|]. rewrite Z.sub_diag. lia.
  - split; [lia|]. rewrite pos_iter_xO. f_equal. f_equal. lia.
Qed.

Lemma Zdigits2_scale mp k :
  0 <= k -> Zdigits2 (Z.pos mp * 2 ^ k) = Z.pos (digits2_pos mp) + k.
Proof.
  intros Hk.
  assert (P : 0 < 2 ^ k) by (apply Z.pow_pos_nonneg; lia).
  destruct (Z.pos mp * 2 ^ k) as [|p|p] eqn:E; try lia.
  cbn [Zdigits2]. apply digits_shift; [exact Hk|]. symmetry. exact E.
Qed.

Lemma gridOf_scale mp E :
  0 <= E + scaleB ->
  gridOf (Z.pos mp * 2 ^ (E + scaleB))
  = fexp64 (Z.pos (digits2_pos mp) + E) + scaleB.
Proof.
  intros H. unfold gridOf. rewrite Zdigits2_scale by exact H.
  f_equal. f_equal. lia.
Qed.

(** The same, from the scaled value alone. *)
Lemma round_aux_scaled mp E :
  0 <= E + scaleB ->
  E <= fexp64 (Z.pos (digits2_pos mp) + E) ->
  Z.pos (digits2_pos mp) + E <= 1023 ->
  binary_round_aux prec emax false (Z.pos mp) E loc_Exact
  = floatOfScaled (Z.pos mp * 2 ^ (E + scaleB)).
Proof.
  intros HB Hn Hov. rewrite round_aux_exact by assumption.
  unfold floatOfScaled. rewrite gridOf_scale by exact HB.
  f_equal; [|lia].
  replace (fexp64 (Z.pos (digits2_pos mp) + E) + scaleB)
    with ((fexp64 (Z.pos (digits2_pos mp) + E) - E) + (E + scaleB)) by lia.
  rewrite rne_scale by lia. reflexivity.
Qed.

(** [binary_round], which shifts left first when it has to. *)
Lemma round_scaled mp E :
  0 <= E + scaleB ->
  Z.pos (digits2_pos mp) + E <= 1023 ->
  binary_round prec emax false mp E
  = floatOfScaled (Z.pos mp * 2 ^ (E + scaleB)).
Proof.
  intros HB Hov. unfold binary_round. rewrite fexp_eq.
  pose proof (shl_align_spec mp E (fexp64 (Z.pos (digits2_pos mp) + E))) as A.
  destruct (shl_align mp E (fexp64 (Z.pos (digits2_pos mp) + E))) as [mz ez].
  destruct A as [Ez Em].
  assert (Hg : -1074 <= fexp64 (Z.pos (digits2_pos mp) + E)) by (unfold fexp64; lia).
  assert (Hd : Z.pos (digits2_pos mz) = Z.pos (digits2_pos mp) + (E - ez))
    by (apply digits_shift; [lia|exact Em]).
  rewrite round_aux_scaled.
  - f_equal. rewrite Em, <- Z.mul_assoc, <- Z.pow_add_r by (unfold scaleB in *; lia).
    f_equal. f_equal. lia.
  - unfold scaleB in *. lia.
  - rewrite Hd. replace (Z.pos (digits2_pos mp) + (E - ez) + ez)
      with (Z.pos (digits2_pos mp) + E) by lia. lia.
  - rewrite Hd. lia.
Qed.

Lemma Zdigits2_bounds W :
  0 < W -> 0 < Zdigits2 W /\ 2 ^ (Zdigits2 W - 1) <= W < 2 ^ Zdigits2 W.
Proof.
  intros HW. destruct W as [|p|p]; try lia. cbn [Zdigits2].
  split; [lia|apply digits_bounds].
Qed.

Lemma Zdigits2_mono W1 W2 :
  0 < W1 -> W1 <= W2 -> Zdigits2 W1 <= Zdigits2 W2.
Proof.
  intros H1 H12.
  destruct (Zdigits2_bounds W1 H1) as (P1 & L1 & U1).
  destruct (Zdigits2_bounds W2 ltac:(lia)) as (P2 & L2 & U2).
  destruct (Z.le_gt_cases (Zdigits2 W1) (Zdigits2 W2)) as [H|H]; [exact H|].
  assert (2 ^ Zdigits2 W2 <= 2 ^ (Zdigits2 W1 - 1))
    by (apply Z.pow_le_mono_r; lia).
  lia.
Qed.

Lemma gridOf_facts W :
  0 < W ->
  scaleB - 1074 <= gridOf W
  /\ W < 2 ^ (53 + gridOf W)
  /\ (scaleB - 1074 < gridOf W -> 2 ^ (52 + gridOf W) <= W).
Proof.
  intros HW. destruct (Zdigits2_bounds W HW) as (P & L & U).
  unfold gridOf, fexp64, scaleB in *. repeat split.
  - lia.
  - assert (2 ^ Zdigits2 W
            <= 2 ^ (53 + (Z.max (Zdigits2 W - 1200 - 53) (-1074) + 1200)))
      by (apply Z.pow_le_mono_r; lia).
    lia.
  - intros Hg.
    replace (52 + (Z.max (Zdigits2 W - 1200 - 53) (-1074) + 1200))
      with (Zdigits2 W - 1) by lia.
    exact L.
Qed.

Lemma rne_grid_bounds W :
  0 < W ->
  0 <= rne W (gridOf W) <= 2 ^ 53
  /\ (scaleB - 1074 < gridOf W -> 2 ^ 52 <= rne W (gridOf W)).
Proof.
  intros HW. destruct (gridOf_facts W HW) as (G & U & L).
  assert (G0 : 0 <= gridOf W) by (unfold scaleB in G; lia).
  repeat split.
  - apply rne_lower; lia.
  - apply rne_upper; try lia. rewrite <- Z.pow_add_r by lia. exact U.
  - intros Hg. apply rne_lower; [lia|].
    rewrite <- Z.pow_add_r by lia. apply L. exact Hg.
Qed.

Lemma roundedScaled_0 : roundedScaled 0 = 0.
Proof. reflexivity. Qed.

(** Rounding to binary64 is monotone. *)
Lemma roundedScaled_mono W1 W2 :
  0 <= W1 -> W1 <= W2 -> roundedScaled W1 <= roundedScaled W2.
Proof.
  intros H1 H12. destruct (Z.eq_dec W1 0) as [->|N1].
  - rewrite roundedScaled_0. destruct (Z.eq_dec W2 0) as [->|N2]; [reflexivity|].
    unfold roundedScaled.
    destruct (rne_grid_bounds W2 ltac:(lia)) as ([L _] & _).
    destruct (gridOf_facts W2 ltac:(lia)) as (G & _).
    assert (0 < 2 ^ gridOf W2)
      by (apply Z.pow_pos_nonneg; unfold scaleB in G; lia).
    nia.
  - assert (P1 : 0 < W1) by lia. assert (P2 : 0 < W2) by lia.
    destruct (gridOf_facts W1 P1) as (G1 & _).
    destruct (gridOf_facts W2 P2) as (G2 & _).
    destruct (rne_grid_bounds W1 P1) as ([_ U1] & _).
    destruct (rne_grid_bounds W2 P2) as ([L2 _] & N2).
    assert (Hg : gridOf W1 <= gridOf W2).
    { unfold gridOf, fexp64.
      pose proof (Zdigits2_mono W1 W2 P1 H12). lia. }
    unfold roundedScaled.
    destruct (Z.eq_dec (gridOf W1) (gridOf W2)) as [E|NE].
    + rewrite <- E.
      assert (0 < 2 ^ gridOf W1)
        by (apply Z.pow_pos_nonneg; unfold scaleB in G1; lia).
      pose proof (rne_mono W1 W2 (gridOf W1)
                    ltac:(unfold scaleB in G1; lia) H12).
      rewrite <- E in *. nia.
    + assert (Hlt : gridOf W1 < gridOf W2) by lia.
      specialize (N2 ltac:(lia)).
      assert (A : rne W1 (gridOf W1) * 2 ^ gridOf W1
                  <= 2 ^ 53 * 2 ^ gridOf W1).
      { apply Z.mul_le_mono_nonneg_r; [|exact U1].
        apply Z.pow_nonneg. lia. }
      assert (B : 2 ^ 52 * 2 ^ gridOf W2
                  <= rne W2 (gridOf W2) * 2 ^ gridOf W2).
      { apply Z.mul_le_mono_nonneg_r; [|exact N2].
        apply Z.pow_nonneg. lia. }
      assert (C : 2 ^ 53 * 2 ^ gridOf W1 <= 2 ^ 52 * 2 ^ gridOf W2).
      { rewrite <- !Z.pow_add_r by (unfold scaleB in *; lia).
        apply Z.pow_le_mono_r; lia. }
      lia.
Qed.

(** The shape of a rounded float: zero, or a canonical positive one. *)
Lemma floatOfScaled_shape W :
  0 < W ->
  (floatOfScaled W = S754_zero false /\ roundedScaled W = 0)
  \/ exists p e,
       floatOfScaled W = S754_finite false p e
       /\ Z.pos p * 2 ^ (e + scaleB) = roundedScaled W
       /\ -1074 <= e
       /\ (e = -1074 \/ 2 ^ 52 <= Z.pos p)
       /\ Z.pos p < 2 ^ 53.
Proof.
  intros HW. destruct (gridOf_facts W HW) as (G & _).
  destruct (rne_grid_bounds W HW) as ([L U] & N).
  unfold floatOfScaled, roundedScaled, mkfloat.
  set (g := gridOf W) in *. set (m1 := rne W g) in *.
  destruct (m1 =? 0) eqn:E0.
  - left. apply Z.eqb_eq in E0. rewrite E0. split; reflexivity.
  - right. apply Z.eqb_neq in E0.
    destruct (m1 =? 2 ^ 53) eqn:E53.
    + apply Z.eqb_eq in E53. exists (Z.to_pos (2 ^ 52)), (g - scaleB + 1).
      change (Z.pos (Z.to_pos (2 ^ 52))) with (2 ^ 52).
      split; [reflexivity|]. split; [|split; [|split]].
      * rewrite E53.
        replace (g - scaleB + 1 + scaleB) with (1 + g) by lia.
        rewrite Z.pow_add_r by (unfold scaleB in *; lia).
        change (2 ^ 53) with (2 ^ 52 * 2 ^ 1). lia.
      * unfold scaleB in *. lia.
      * right. lia.
      * change (2 ^ 53) with (2 ^ 52 * 2). lia.
    + apply Z.eqb_neq in E53. exists (Z.to_pos m1), (g - scaleB).
      rewrite Z2Pos.id by lia.
      split; [reflexivity|]. split; [|split; [|split]].
      * f_equal. f_equal. lia.
      * unfold scaleB in *. lia.
      * destruct (Z.eq_dec g (scaleB - 1074)) as [Eg|Ng];
          [left; lia|right; apply N; lia].
      * lia.
Qed.

(** A valid finite number is subnormal or has a full mantissa. *)
Lemma valid_finite s m e :
  valid_binary prec emax (S754_finite s m e) = true ->
  -1074 <= e <= 971
  /\ (e = -1074 \/ 2 ^ 52 <= Z.pos m)
  /\ Z.pos m < 2 ^ 53.
Proof.
  cbn [valid_binary]. unfold bounded, canonical_mantissa.
  rewrite fexp_eq. intros H. apply andb_prop in H. destruct H as [C B].
  apply Z.eqb_eq in C. apply Z.leb_le in B.
  pose proof (digits_bounds m) as [L U].
  unfold fexp64 in C. unfold emax, prec in B.
  assert (Hd : Z.pos (digits2_pos m) <= 53) by lia.
  split; [lia|]. split.
  - destruct (Z.eq_dec e (-1074)) as [E|N]; [left; exact E|right].
    replace (Z.pos (digits2_pos m)) with 53 in L by lia. exact L.
  - assert (2 ^ Z.pos (digits2_pos m) <= 2 ^ 53)
      by (apply Z.pow_le_mono_r; lia).
    lia.
Qed.

(** On valid non-negative numbers, [<=] is the order of the values. *)
Lemma le_scaled x y :
  valid_binary prec emax x = true -> valid_binary prec emax y = true ->
  nonneg x = true -> nonneg y = true ->
  le x y = true -> scaled x <= scaled y.
Proof.
  intros Vx Vy Nx Ny H.
  assert (Py : 0 <= scaled y).
  { destruct y as [sy|sy| |[|] my ey]; cbn [scaled]; lia. }
  destruct x as [sx|sx| |[|] mx ex]; try discriminate; [exact Py|].
  destruct y as [sy|sy| |[|] my ey]; try discriminate.
  cbn [scaled].
  - destruct (valid_finite _ _ _ Vx) as (Ex & Cx & Ux).
    destruct (valid_finite _ _ _ Vy) as (Ey & Cy & Uy).
    unfold le, SFleb, SFcompare in H.
    assert (Px : 0 < 2 ^ (ex + scaleB))
      by (apply Z.pow_pos_nonneg; unfold scaleB; lia).
    destruct (ex ?= ey) eqn:C.
    + apply Z.compare_eq in C. subst ey.
      change (Pos.compare_cont Eq mx my) with (Z.pos mx ?= Z.pos my) in H.
      destruct (Z.pos mx ?= Z.pos my) eqn:Cm; try discriminate.
      * apply Z.compare_eq in Cm. nia.
      * rewrite Z.compare_lt_iff in Cm. nia.
    + rewrite Z.compare_lt_iff in C.
      assert (Ny' : 2 ^ 52 <= Z.pos my) by lia.
      replace (ey + scaleB) with ((ey - ex) + (ex + scaleB)) by lia.
      rewrite (Z.pow_add_r 2 (ey - ex) (ex + scaleB))
        by (unfold scaleB; lia).
      assert (T : 2 ^ 1 <= 2 ^ (ey - ex)) by (apply Z.pow_le_mono_r; lia).
      change (2 ^ 53) with (2 ^ 52 * 2 ^ 1) in Ux.
      set (t := 2 ^ (ey - ex)) in *. set (u := 2 ^ (ex + scaleB)) in *.
      assert (A1 : Z.pos mx * u <= 2 ^ 52 * 2 ^ 1 * u) by nia.
      assert (A2 : 2 ^ 52 * 2 ^ 1 * u <= 2 ^ 52 * t * u)
        by (apply Z.mul_le_mono_nonneg_r; [lia|];
            apply Z.mul_le_mono_nonneg_l; [lia|exact T]).
      assert (A3 : 2 ^ 52 * t * u <= Z.pos my * t * u)
        by (apply Z.mul_le_mono_nonneg_r; [lia|];
            apply Z.mul_le_mono_nonneg_r; [lia|exact Ny']).
      lia.
    + discriminate.
Qed.

Lemma digits_upper mp k j :
  0 <= k -> Z.pos mp * 2 ^ k < 2 ^ j -> Z.pos (digits2_pos mp) + k <= j.
Proof.
  intros Hk H. pose proof (digits_bounds mp) as [L _].
  assert (P : 0 < 2 ^ k) by (apply Z.pow_pos_nonneg; lia).
  destruct (Z.le_gt_cases (Z.pos (digits2_pos mp) + k) j) as [G|G]; [exact G|].
  assert (2 ^ j <= 2 ^ ((Z.pos (digits2_pos mp) - 1) + k))
    by (apply Z.pow_le_mono_r; lia).
  rewrite Z.pow_add_r in * by lia. nia.
Qed.

Lemma digits_lower mp j :
  2 ^ j <= Z.pos mp -> j < Z.pos (digits2_pos mp).
Proof.
  intros H. pose proof (digits_bounds mp) as [_ U].
  destruct (Z.lt_ge_cases j (Z.pos (digits2_pos mp))) as [G|G]; [exact G|].
  assert (2 ^ Z.pos (digits2_pos mp) <= 2 ^ j)
    by (apply Z.pow_le_mono_r; lia).
  lia.
Qed.

(** The product of 30 and a valid positive number at most 1. *)
Lemma mul_30_scaled m e :
  valid_binary prec emax (S754_finite false m e) = true ->
  e <= -52 ->
  mul (of_Z 30) (S754_finite false m e)
  = floatOfScaled (30 * scaled (S754_finite false m e)).
Proof.
  intros V He. destruct (valid_finite _ _ _ V) as (E & C & U).
  change (of_Z 30) with (S754_finite false 8444249301319680 (-48)).
  unfold mul. cbn [SFmul xorb scaled].
  assert (P : 2 ^ 52 <= Z.pos (8444249301319680 * m)) by lia.
  assert (Q : Z.pos (8444249301319680 * m) * 2 ^ 0 < 2 ^ 106).
  { change (2 ^ 106) with (2 ^ 53 * 2 ^ 53). change (2 ^ 0) with 1.
    assert (8444249301319680 < 2 ^ 53) by reflexivity. nia. }
  apply digits_lower in P. apply digits_upper in Q; [|lia].
  rewrite round_aux_scaled.
  - f_equal. rewrite Pos2Z.inj_mul.
    replace (e + scaleB) with (48 + (-48 + e + scaleB)) by lia.
    rewrite (Z.pow_add_r 2 48) by (unfold scaleB; lia).
    change (Z.pos 8444249301319680) with (30 * 2 ^ 48). lia.
  - unfold scaleB. lia.
  - unfold fexp64. lia.
  - lia.
Qed.

(** The sum of two positive numbers, when it stays far from overflow. *)
Lemma add_scaled mx ex my ey :
  0 <= ex + scaleB -> 0 <= ey + scaleB ->
  scaled (S754_finite false mx ex) + scaled (S754_finite false my ey)
    < 2 ^ (1023 + scaleB) ->
  add (S754_finite false mx ex) (S754_finite false my ey)
  = floatOfScaled (scaled (S754_finite false mx ex)
                   + scaled (S754_finite false my ey)).
Proof.
  intros Hx Hy Hov. unfold add. cbn [SFadd cond_Zopp scaled] in *.
  pose proof (shl_align_spec mx ex (Z.min ex ey)) as Ax.
  pose proof (shl_align_spec my ey (Z.min ex ey)) as Ay.
  destruct (shl_align mx ex (Z.min ex ey)) as [mx' ex'].
  destruct (shl_align my ey (Z.min ex ey)) as [my' ey'].
  destruct Ax as [Ex Mx]. destruct Ay as [Ey My]. cbn [fst].
  set (ez := Z.min ex ey) in *.
  assert (Ex' : ex' = ez) by lia. assert (Ey' : ey' = ez) by lia.
  subst ex' ey'.
  change (Z.pos mx' + Z.pos my') with (Z.pos (mx' + my')).
  cbn [binary_normalize].
  assert (W : Z.pos (mx' + my') * 2 ^ (ez + scaleB)
              = Z.pos mx * 2 ^ (ex + scaleB) + Z.pos my * 2 ^ (ey + scaleB)).
  { rewrite Pos2Z.inj_add, Mx, My, Z.mul_add_distr_r.
    rewrite <- !Z.mul_assoc, <- !Z.pow_add_r by lia.
    f_equal; f_equal; f_equal; lia. }
  rewrite round_scaled.
  - rewrite W. reflexivity.
  - lia.
  - assert (D : Z.pos (digits2_pos (mx' + my')) + (ez + scaleB)
                <= 1023 + scaleB).
    { apply digits_upper; [lia|]. rewrite W. exact Hov. }
    lia.
Qed.

Lemma nearestInt_mono V1 V2 : V1 <= V2 -> nearestInt V1 <= nearestInt V2.
Proof.
  intros H. unfold nearestInt. apply Z.div_le_mono; [|lia].
  assert (0 < 2 ^ scaleB) by (apply Z.pow_pos_nonneg; unfold scaleB; lia).
  lia.
Qed.

(** [Math.round] of a positive number below 2^52, on its scaled value. *)
Lemma Math_round_scaled p e :
  -1074 <= e ->
  (e = -1074 \/ 2 ^ 52 <= Z.pos p) ->
  scaled (S754_finite false p e) < 2 ^ (52 + scaleB) ->
  nearestInt (scaled (S754_finite false p e)) <> 0 ->
  Math_round (S754_finite false p e)
  = of_Z (nearestInt (scaled (S754_finite false p e))).
Proof.
  intros He C U N. cbn [scaled] in *.
  assert (Pe : 0 < 2 ^ (e + scaleB))
    by (apply Z.pow_pos_nonneg; unfold scaleB; lia).
  assert (Hneg : e < 0).
  { destruct (Z.lt_ge_cases e 0) as [G|G]; [exact G|].
    assert (2 ^ 52 <= Z.pos p) by lia.
    assert (2 ^ (52 + scaleB) <= 2 ^ 52 * 2 ^ (e + scaleB)).
    { rewrite <- Z.pow_add_r by (unfold scaleB; lia).
      apply Z.pow_le_mono_r; lia. }
    nia. }
  assert (Q : (2 * Z.pos p + 2 ^ (- e)) / (2 * 2 ^ (- e))
              = nearestInt (Z.pos p * 2 ^ (e + scaleB))).
  { unfold nearestInt.
    rewrite <- (Z.div_mul_cancel_r (2 * Z.pos p + 2 ^ (- e)) (2 * 2 ^ (- e))
                  (2 ^ (e + scaleB))) by (try apply Z.neq_mul_0;
                    assert (0 < 2 ^ (- e)) by (apply Z.pow_pos_nonneg; lia);
                    lia).
    assert (S : 2 ^ (- e) * 2 ^ (e + scaleB) = 2 ^ scaleB).
    { rewrite <- Z.pow_add_r by (unfold scaleB; lia). f_equal. lia. }
    f_equal; [rewrite Z.mul_add_distr_r, S|rewrite <- Z.mul_assoc, S]; lia. }
  unfold Math_round.
  replace (0 <=? e) with false by (symmetry; apply Z.leb_gt; exact Hneg).
  rewrite Q. apply Z.eqb_neq in N. rewrite N. reflexivity.
Qed.

Lemma scaled_60 : scaled (of_Z 60) = 60 * 2 ^ scaleB.
Proof. vm_compute. reflexivity. Qed.

Lemma rounded_30 : roundedScaled (30 * 2 ^ scaleB) = 30 * 2 ^ scaleB.
Proof. vm_compute. reflexivity. Qed.

Lemma rounded_60 : roundedScaled (60 * 2 ^ scaleB) = 60 * 2 ^ scaleB.
Proof. vm_compute. reflexivity. Qed.

Lemma rounded_90 :
  roundedScaled (60 * 2 ^ scaleB + 30 * 2 ^ scaleB) = 90 * 2 ^ scaleB.
Proof. vm_compute. reflexivity. Qed.

Lemma nearest_60 : nearestInt (60 * 2 ^ scaleB) = 60.
Proof. vm_compute. reflexivity. Qed.

Lemma nearest_90 : nearestInt (90 * 2 ^ scaleB) = 90.
Proof. vm_compute. reflexivity. Qed.

Lemma float_60 : floatOfScaled (60 * 2 ^ scaleB) = of_Z 60.
Proof. vm_compute. reflexivity. Qed.

Lemma pow_52_gt_90 : 90 * 2 ^ scaleB < 2 ^ (52 + scaleB).
Proof. vm_compute. reflexivity. Qed.

Lemma pow_1023_gt_90 : 90 * 2 ^ scaleB < 2 ^ (1023 + scaleB).
Proof. vm_compute. reflexivity. Qed.

Lemma suggestedScaled_range V :
  0 <= V <= 2 ^ scaleB ->
  60 * 2 ^ scaleB
    <= roundedScaled (60 * 2 ^ scaleB + roundedScaled (30 * V))
    <= 90 * 2 ^ scaleB
  /\ 0 <= roundedScaled (30 * V) <= 30 * 2 ^ scaleB
  /\ 60 <= suggestedScaled V <= 90.
Proof.
  intros [L U].
  assert (Y : 0 <= roundedScaled (30 * V) <= 30 * 2 ^ scaleB).
  { split.
    - rewrite <- roundedScaled_0. apply roundedScaled_mono; lia.
    - rewrite <- rounded_30. apply roundedScaled_mono; lia. }
  assert (T : 60 * 2 ^ scaleB
              <= roundedScaled (60 * 2 ^ scaleB + roundedScaled (30 * V))
              <= 90 * 2 ^ scaleB).
  { assert (0 < 2 ^ scaleB) by (apply Z.pow_pos_nonneg; unfold scaleB; lia).
    split.
    - rewrite <- rounded_60 at 1. apply roundedScaled_mono; lia.
    - rewrite <- rounded_90. apply roundedScaled_mono; lia. }
  split; [exact T|]. split; [exact Y|].
  unfold suggestedScaled. split.
  - rewrite <- nearest_60. apply nearestInt_mono, T.
  - rewrite <- nearest_90. apply nearestInt_mono, T.
Qed.

Lemma suggestedScaled_mono V1 V2 :
  0 <= V1 -> V1 <= V2 -> suggestedScaled V1 <= suggestedScaled V2.
Proof.
  intros H1 H12. unfold suggestedScaled.
  assert (0 < 2 ^ scaleB) by (apply Z.pow_pos_nonneg; unfold scaleB; lia).
  assert (0 <= roundedScaled (30 * V1)).
  { rewrite <- roundedScaled_0. apply roundedScaled_mono; lia. }
  apply nearestInt_mono, roundedScaled_mono; [lia|].
  apply Z.add_le_mono_l, roundedScaled_mono; lia.
Qed.

(** [<=] between positive finite numbers, on exponents and mantissas. *)
Lemma finite_le_cases m1 e1 m2 e2 :
  le (S754_finite false m1 e1) (S754_finite false m2 e2) = true ->
  e1 < e2 \/ (e1 = e2 /\ Z.pos m1 <= Z.pos m2).
Proof.
  unfold le, SFleb. cbn [SFcompare]. intros H.
  destruct (e1 ?= e2) eqn:C; try discriminate.
  - apply Z.compare_eq in C. right. split; [exact C|].
    change (Pos.compare_cont Eq m1 m2) with (Z.pos m1 ?= Z.pos m2) in H.
    destruct (Z.pos m1 ?= Z.pos m2) eqn:Cm; try discriminate.
    + apply Z.compare_eq in Cm. lia.
    + rewrite Z.compare_lt_iff in Cm. lia.
  - rewrite Z.compare_lt_iff in C. left. exact C.
Qed.

Lemma finite_le_intro m1 e1 m2 e2 :
  e1 < e2 \/ (e1 = e2 /\ Z.pos m1 <= Z.pos m2) ->
  le (S754_finite false m1 e1) (S754_finite false m2 e2) = true.
Proof.
  unfold le, SFleb. cbn [SFcompare]. intros [H|[-> H]].
  - rewrite (proj2 (Z.compare_lt_iff e1 e2) H). reflexivity.
  - rewrite Z.compare_refl.
    change (Pos.compare_cont Eq m1 m2) with (Z.pos m1 ?= Z.pos m2).
    destruct (Z.pos m1 ?= Z.pos m2) eqn:Cm; try reflexivity.
    rewrite Z.compare_gt_iff in Cm. lia.
Qed.

(** Numbers below a number at most 1 are at most 1. *)
Lemma le_one_below s1 s2 :
  nonneg s1 = true ->
  le s1 s2 = true -> le s2 (of_Z 1) = true -> le s1 (of_Z 1) = true.
Proof.
  intros N1 H12 H1.
  destruct s1 as [b|b| |[|] m e]; try discriminate; [reflexivity|].
  destruct s2 as [b2|[|]| |[|] m2 e2]; try discriminate.
  change (of_Z 1) with (S754_finite false 4503599627370496 (-52)) in *.
  apply finite_le_cases in H12. apply finite_le_cases in H1.
  apply finite_le_intro. lia.
Qed.

Lemma scaled_1 : scaled (of_Z 1) = 2 ^ scaleB.
Proof. vm_compute. reflexivity. Qed.

Lemma suggestedScaled_0 : suggestedScaled 0 = 60.
Proof. vm_compute. reflexivity. Qed.

(** [suggestedQuality] of a valid number between 0 and 1. *)
Lemma suggestedQuality_scaled s :
  valid_binary prec emax s = true ->
  le (of_Z 0) s = true ->
  le s (of_Z 1) = true ->
  nonneg s = true
  /\ 0 <= scaled s <= 2 ^ scaleB
  /\ suggestedQuality s = of_Z (suggestedScaled (scaled s)).
Proof.
  intros V H0 H1.
  assert (N : nonneg s = true)
    by (destruct s as [b|[|]| |[|] m e]; try discriminate; reflexivity).
  assert (U : scaled s <= 2 ^ scaleB).
  { rewrite <- scaled_1. apply le_scaled; try assumption; reflexivity. }
  assert (L : 0 <= scaled s)
    by (destruct s as [b|b| |[|] m e]; cbn [scaled]; lia).
  split; [exact N|]. split; [lia|].
  destruct s as [b|b| |[|] m e]; try discriminate.
  - cbn [scaled]. rewrite suggestedScaled_0. destruct b; reflexivity.
  - assert (He : e <= -52).
    { change (of_Z 1) with (S754_finite false 4503599627370496 (-52)) in H1.
      apply finite_le_cases in H1. lia. }
    destruct (suggestedScaled_range _ (conj L U)) as (T & Y & R).
    unfold suggestedQuality.
    change (sub (of_Z 90) (of_Z 60)) with (of_Z 30).
    rewrite (mul_30_scaled m e V He).
    set (W := scaled (S754_finite false m e)) in *.
    assert (PW : 0 < 30 * W).
    { unfold W. cbn [scaled].
      destruct (valid_finite _ _ _ V) as (E & _).
      assert (0 < 2 ^ (e + scaleB))
        by (apply Z.pow_pos_nonneg; unfold scaleB; lia).
      lia. }
    assert (P60 : 0 < 2 ^ scaleB)
      by (apply Z.pow_pos_nonneg; unfold scaleB; lia).
    assert (St : add (of_Z 60) (floatOfScaled (30 * W))
                 = floatOfScaled (60 * 2 ^ scaleB + roundedScaled (30 * W))).
    { destruct (floatOfScaled_shape (30 * W) PW)
        as [[Fz Rz]|(p & e' & F & Val & E' & _)].
      - rewrite Fz, Rz, Z.add_0_r, float_60. reflexivity.
      - rewrite F, <- Val, <- scaled_60.
        change (of_Z 60) with (S754_finite false 8444249301319680 (-47)).
        apply add_scaled.
        + unfold scaleB. lia.
        + unfold scaleB. lia.
        + change (S754_finite false 8444249301319680 (-47)) with (of_Z 60).
          rewrite scaled_60. cbn [scaled]. rewrite Val.
          pose proof pow_1023_gt_90. lia. }
    rewrite St.
    destruct (floatOfScaled_shape
                (60 * 2 ^ scaleB + roundedScaled (30 * W)) ltac:(lia))
      as [[Fz Rz]|(p & e' & F & Val & E' & C & _)]; [lia|].
    rewrite F.
    assert (Sv : scaled (S754_finite false p e')
                 = roundedScaled (60 * 2 ^ scaleB + roundedScaled (30 * W)))
      by exact Val.
    rewrite Math_round_scaled.
    + rewrite Sv. reflexivity.
    + exact E'.
    + exact C.
    + rewrite Sv. pose proof pow_52_gt_90. lia.
    + rewrite Sv. fold (suggestedScaled W). lia.
Qed.

Lemma of_Z_le_range a b :
  60 <= a -> a <= b -> b <= 90 -> le (of_Z a) (of_Z b) = true.
Proof.
  intros Ha Hab Hb.
  assert (A : forallb (fun x => forallb (fun y =>
                 negb (x <=? y) || le (of_Z x) (of_Z y)) (zrange 60 31))
                (zrange 60 31) = true) by (vm_compute; reflexivity).
  rewrite forallb_forall in A.
  specialize (A a (zrange_In 60 31 a ltac:(lia))).
  rewrite forallb_forall in A.
  specialize (A b (zrange_In 60 31 b ltac:(lia))).
  apply orb_prop in A. destruct A as [A|A]; [|exact A].
  apply negb_true_iff, Z.leb_gt in A. lia.
Qed.

(** ** The complexity estimate *)

(** An integer below 2^53 is a binary64 number. *)
Lemma roundedScaled_exact a :
  0 < a < 2 ^ 53 -> roundedScaled (a * 2 ^ scaleB) = a * 2 ^ scaleB.
Proof.
  intros [L U]. unfold roundedScaled.
  destruct a as [|p|p]; try lia.
  assert (D : Z.pos (digits2_pos p) <= 53).
  { pose proof (digits_upper p 0 53 ltac:(lia)) as H.
    rewrite Z.mul_1_r in H. specialize (H U). lia. }
  assert (G : 0 <= gridOf (Z.pos p * 2 ^ scaleB) <= scaleB).
  { rewrite <- (Z.add_0_l scaleB) at 1 2.
    rewrite gridOf_scale by (unfold scaleB; lia).
    unfold fexp64, scaleB. lia. }
  set (g := gridOf (Z.pos p * 2 ^ scaleB)) in *.
  replace (Z.pos p * 2 ^ scaleB) with (Z.pos p * 2 ^ (scaleB - g) * 2 ^ g).
  - rewrite rne_exact by lia. reflexivity.
  - rewrite <- Z.mul_assoc, <- Z.pow_add_r by lia. f_equal. f_equal. lia.
Qed.

Lemma of_Z_shape a :
  0 < a < 2 ^ 53 ->
  of_Z a = floatOfScaled (a * 2 ^ scaleB)
  /\ exists p e, of_Z a = S754_finite false p e
       /\ -1074 <= e
       /\ scaled (S754_finite false p e) = a * 2 ^ scaleB.
Proof.
  intros [L U]. destruct a as [|q|q] eqn:Ea; try lia.
  assert (F : of_Z (Z.pos q) = floatOfScaled (Z.pos q * 2 ^ scaleB)).
  { unfold of_Z. cbn [binary_normalize].
    rewrite round_scaled.
    - rewrite Z.add_0_l. reflexivity.
    - unfold scaleB. lia.
    - pose proof (digits_upper q 0 53 ltac:(lia)) as H.
      rewrite Z.mul_1_r in H. specialize (H U). lia. }
  split; [exact F|].
  assert (P : 0 < Z.pos q * 2 ^ scaleB).
  { assert (0 < 2 ^ scaleB) by (apply Z.pow_pos_nonneg; unfold scaleB; lia).
    lia. }
  destruct (floatOfScaled_shape _ P) as [[_ Rz]|(p & e & Fp & Val & E & _)].
  - rewrite roundedScaled_exact in Rz by lia. lia.
  - exists p, e. rewrite F. split; [exact Fp|]. split; [exact E|].
    cbn [scaled]. rewrite Val. apply roundedScaled_exact. lia.
Qed.

(** Addition of non-negative integers is exact below 2^53. *)
Lemma add_of_Z a b :
  0 <= a -> 0 <= b -> a + b < 2 ^ 53 ->
  add (of_Z a) (of_Z b) = of_Z (a + b).
Proof.
  intros Ha Hb U.
  destruct (Z.eq_dec a 0) as [->|Na].
  - rewrite Z.add_0_l. change (of_Z 0) with (S754_zero false).
    destruct (Z.eq_dec b 0) as [->|Nb]; [reflexivity|].
    destruct (of_Z_shape b ltac:(lia)) as (_ & p & e & -> & _). reflexivity.
  - destruct (of_Z_shape a ltac:(lia)) as (_ & p & e & Fa & Ea & Va).
    destruct (Z.eq_dec b 0) as [->|Nb].
    + rewrite Z.add_0_r, Fa. reflexivity.
    + destruct (of_Z_shape b ltac:(lia)) as (_ & p' & e' & Fb & Eb & Vb).
      destruct (of_Z_shape (a + b) ltac:(lia)) as (Fab & _).
      rewrite Fa, Fb, Fab, add_scaled.
      * rewrite Va, Vb. f_equal. lia.
      * unfold scaleB. lia.
      * unfold scaleB. lia.
      * rewrite Va, Vb, <- Z.mul_add_distr_r.
        replace (1023 + scaleB) with (1023 + scaleB - scaleB + scaleB) by lia.
        rewrite (Z.pow_add_r 2 (1023 + scaleB - scaleB)) by (unfold scaleB; lia).
        assert (0 < 2 ^ scaleB) by (apply Z.pow_pos_nonneg; unfold scaleB; lia).
        assert (2 ^ 53 <= 2 ^ (1023 + scaleB - scaleB))
          by (apply Z.pow_le_mono_r; lia).
        nia.
Qed.

(** The difference of two bytes and its absolute value are exact. *)
Lemma byte_diff a b :
  isByte a = true -> isByte b = true ->
  Math_abs (sub (of_Z a) (of_Z b)) = of_Z (Z.abs (a - b)).
Proof.
  intros Ha Hb.
  assert (A : forallb (fun x => forallb (fun y =>
                 match Math_abs (sub (of_Z x) (of_Z y)), of_Z (Z.abs (x - y)) with
                 | S754_zero false, S754_zero false => true
                 | S754_finite false m e, S754_finite false m' e' =>
                     Pos.eqb m m' && Z.eqb e e'
                 | _, _ => false
                 end) (zrange 0 256)) (zrange 0 256) = true)
    by (vm_compute; reflexivity).
  unfold isByte in Ha, Hb.
  apply andb_prop in Ha. apply andb_prop in Hb.
  rewrite !Z.leb_le in Ha, Hb.
  rewrite forallb_forall in A.
  specialize (A a (zrange_In 0 256 a ltac:(lia))).
  rewrite forallb_forall in A.
  specialize (A b (zrange_In 0 256 b ltac:(lia))).
  destruct (Math_abs (sub (of_Z a) (of_Z b))) as [[|]|[|]| |[|] m e];
    destruct (of_Z (Z.abs (a - b))) as [[|]|[|]| |[|] m' e'];
    try discriminate; try reflexivity.
  apply andb_prop in A. destruct A as [Am Ae].
  apply Pos.eqb_eq in Am. apply Z.eqb_eq in Ae. subst. reflexivity.
Qed.

Section FloatLoop.

Variable data : list Z.
Variable N : Z.
Hypothesis data_pixels : Z.of_nat (List.length data) = 4 * N.
Hypothesis data_bytes : forallb isByte data = true.

(** Inside the array a byte is read. *)
Lemma byteAt_in i :
  0 <= i < 4 * N ->
  byteAt data i = of_Z (at_index data i) /\ isByte (at_index data i) = true.
Proof.
  intros Hi. unfold byteAt, at_index.
  assert (L : (Z.to_nat i < List.length data)%nat) by lia.
  destruct (nth_error data (Z.to_nat i)) as [b|] eqn:E.
  - rewrite (nth_error_nth _ _ 0 E). split; [reflexivity|].
    rewrite forallb_forall in data_bytes. apply data_bytes.
    eapply nth_error_In. exact E.
  - apply nth_error_None in E. lia.
Qed.

(** The [diff] of one pass is the integer [adjacentDiff]. *)
Lemma adjacent_number p :
  0 <= p -> p < N - 1 ->
  add (add (Math_abs (sub (byteAt data (4 * p)) (byteAt data (4 * p + 4))))
           (Math_abs (sub (byteAt data (4 * p + 1)) (byteAt data (4 * p + 5)))))
      (Math_abs (sub (byteAt data (4 * p + 2)) (byteAt data (4 * p + 6))))
  = of_Z (adjacentDiff data p)
  /\ 0 <= adjacentDiff data p <= 765.
Proof.
  intros Hp Hlt.
  destruct (byteAt_in (4 * p) ltac:(lia)) as [E0 B0].
  destruct (byteAt_in (4 * p + 1) ltac:(lia)) as [E1 B1].
  destruct (byteAt_in (4 * p + 2) ltac:(lia)) as [E2 B2].
  destruct (byteAt_in (4 * p + 4) ltac:(lia)) as [E4 B4].
  destruct (byteAt_in (4 * p + 5) ltac:(lia)) as [E5 B5].
  destruct (byteAt_in (4 * p + 6) ltac:(lia)) as [E6 B6].
  rewrite E0, E1, E2, E4, E5, E6.
  rewrite !byte_diff by assumption.
  unfold adjacentDiff. unfold isByte in *.
  rewrite !andb_true_iff, !Z.leb_le in *.
  rewrite !add_of_Z by (change (2 ^ 53) with 9007199254740992; lia).
  split; [reflexivity|lia].
Qed.

Lemma sumDiffs_bounds count : forall p,
  0 <= p -> p + Z.of_nat count <= N - 1 ->
  0 <= sumDiffs data p count <= 765 * Z.of_nat count.
Proof.
  induction count as [|count IH]; intros p Hp Hc; cbn [sumDiffs]; [lia|].
  destruct (adjacent_number p Hp ltac:(lia)) as [_ A].
  specialize (IH (p + 1) ltac:(lia) ltac:(lia)). lia.
Qed.

(** From pixel [p] on, the loop adds one difference and one 765 for each
    pixel that has a next one, without rounding. *)
Lemma diffLoop_from fuel : forall i p diffSum maxDiff,
  i = 4 * p ->
  0 <= p ->
  (Z.to_nat (N - 1 - p) <= fuel)%nat ->
  0 <= diffSum -> 0 <= maxDiff ->
  diffSum + 765 * Z.max 0 (N - 1 - p) < 2 ^ 53 ->
  maxDiff + 765 * Z.max 0 (N - 1 - p) < 2 ^ 53 ->
  diffLoop fuel data i (of_Z diffSum) (of_Z maxDiff)
  = (of_Z (diffSum + sumDiffs data p (Z.to_nat (N - 1 - p))),
     of_Z (maxDiff + 765 * Z.max 0 (N - 1 - p))).
Proof.
  induction fuel as [|fuel IH];
    intros i p diffSum maxDiff Hi Hp Hfuel Hd Hm Bd Bm.
  - cbn [diffLoop]. replace (Z.to_nat (N - 1 - p)) with O by lia.
    cbn [sumDiffs]. f_equal; f_equal; lia.
  - cbn [diffLoop]. rewrite data_pixels.
    destruct (i <? 4 * N - 4) eqn:C.
    + apply Z.ltb_lt in C. subst i.
      destruct (adjacent_number p Hp ltac:(lia)) as [E A].
      replace (4 * p + 4 + 1) with (4 * p + 5) in * by lia.
      rewrite E.
      rewrite !add_of_Z by lia.
      rewrite (IH (4 * p + 4) (p + 1)) by lia.
      replace (Z.to_nat (N - 1 - p))
        with (S (Z.to_nat (N - 1 - (p + 1)))) by lia.
      cbn [sumDiffs]. f_equal; f_equal; lia.
    + apply Z.ltb_ge in C.
      replace (Z.to_nat (N - 1 - p)) with O by lia.
      cbn [sumDiffs]. f_equal; f_equal; lia.
Qed.

End FloatLoop.

Lemma diffSums_pixels (data : list Z) (N : Z) :
  Z.of_nat (List.length data) = 4 * N ->
  forallb isByte data = true ->
  1 <= N ->
  765 * N < 2 ^ 53 ->
  diffSums data
  = (of_Z (sumDiffs data 0 (Z.to_nat (N - 1))), of_Z (765 * (N - 1))).
Proof.
  intros Hlen Hbytes HN Hsmall. unfold diffSums.
  rewrite (diffLoop_from data N Hlen Hbytes _ 0 0 0 0) by lia.
  rewrite Z.sub_0_r. f_equal; f_equal; lia.
Qed.

(** C5, as the script has it: for a canvas of [N >= 1] pixels, the loop
    runs once for each pixel that has a next one, so [maxDiff] ends as
    765 times [N - 1], [diffSum] as the sum of the [N - 1] differences
    between a pixel and the next, both without rounding while
    [765 * N < 2^53], and the result is the binary64 quotient
    [diffSum / maxDiff]. *)
Theorem maxDiff_counts_adjacent_pairs (data : list Z) (N : Z) :
  1 <= N ->
  Z.of_nat (List.length data) = 4 * N ->
  forallb isByte data = true ->
  765 * N < 2 ^ 53 ->
  snd (diffSums data) = of_Z (765 * (N - 1))
  /\ fst (diffSums data) = of_Z (sumDiffs data 0 (Z.to_nat (N - 1)))
  /\ complexityOfData data
     = div (of_Z (sumDiffs data 0 (Z.to_nat (N - 1))))
           (of_Z (765 * (N - 1))).
Proof.
  intros HN Hlen Hbytes Hsmall. unfold complexityOfData.
  rewrite (diffSums_pixels data N Hlen Hbytes HN Hsmall). repeat split.
Qed.

Lemma maxDiff_counts_adjacent_pairs_witness :
  snd (diffSums [0; 0; 0; 255; 255; 255; 255; 255; 0; 128; 255; 255])
  = of_Z (765 * (3 - 1))
  /\ fst (diffSums [0; 0; 0; 255; 255; 255; 255; 255; 0; 128; 255; 255])
     = of_Z (sumDiffs [0; 0; 0; 255; 255; 255; 255; 255; 0; 128; 255; 255] 0
               (Z.to_nat (3 - 1)))
  /\ complexityOfData [0; 0; 0; 255; 255; 255; 255; 255; 0; 128; 255; 255]
     = div (of_Z (sumDiffs
                    [0; 0; 0; 255; 255; 255; 255; 255; 0; 128; 255; 255] 0
                    (Z.to_nat (3 - 1))))
           (of_Z (765 * (3 - 1))).
Proof.
  apply (maxDiff_counts_adjacent_pairs
           [0; 0; 0; 255; 255; 255; 255; 255; 0; 128; 255; 255] 3).
  - lia.
  - reflexivity.
  - reflexivity.
  - vm_compute. reflexivity.
Defined.

(** C5 fails as worded: for a canvas of two pixels, black then white,
    [maxDiff] ends as 765, not 765 times 2, and the result is 1 where
    [765 / 1530] would be one half. *)
Lemma maxDiff_not_pixel_count :
  Z.of_nat (List.length [0; 0; 0; 255; 255; 255; 255; 255]) = 4 * 2
  /\ diffSums [0; 0; 0; 255; 255; 255; 255; 255] = (of_Z 765, of_Z 765)
  /\ of_Z 765 <> of_Z (765 * 2)
  /\ complexityOfData [0; 0; 0; 255; 255; 255; 255; 255] = of_Z 1
  /\ div (of_Z 765) (of_Z (765 * 2)) <> of_Z 1.
Proof.
  repeat split; try reflexivity; vm_compute; discriminate.
Qed.

(** C2 fails on the script: for a canvas of a single pixel the loop does
    not run, [diffSum / maxDiff] is [0 / 0], and [computeComplexity]
    returns NaN, not 0; the suggested quality is then NaN too.  The same
    holds for the canvas an image of 1 x 1 is drawn on. *)
Theorem one_pixel_complexity_NaN (r g b a : Z) :
  diffSums [r; g; b; a] = (of_Z 0, of_Z 0)
  /\ complexityOfData [r; g; b; a] = NaN
  /\ suggestedQuality (complexityOfData [r; g; b; a]) = NaN
  /\ scaledSize 1 1 = (of_Z 1, of_Z 1)
  /\ computeComplexity Sample.onePixel (mkImage 1 1 "") = NaN
  /\ quality (newEntry Sample.onePixel (mkFile "dot.png" "image/png")
                (mkImage 1 1 "")) = NaN.
Proof.
  repeat split.
Qed.

(** ** The suggested quality *)

(** Byte [c] of pixel [p] of a canvas of one colour. *)
Lemma at_uniform n r g b a : forall p c,
  (p < n)%nat -> 0 <= c < 4 ->
  at_index (Sample.uniformCanvas n r g b a) (4 * Z.of_nat p + c)
  = nth (Z.to_nat c) [r; g; b; a] 0.
Proof.
  unfold at_index.
  induction n as [|n IH]; intros p c Hp Hc; [lia|].
  change (Sample.uniformCanvas (S n) r g b a)
    with (r :: g :: b :: a :: Sample.uniformCanvas n r g b a).
  destruct p as [|p].
  - replace (Z.to_nat (4 * Z.of_nat 0 + c)) with (Z.to_nat c) by lia.
    assert (C : c = 0 \/ c = 1 \/ c = 2 \/ c = 3) by lia.
    destruct C as [ -> | [ -> | [ -> | -> ] ] ]; reflexivity.
  - replace (Z.to_nat (4 * Z.of_nat (S p) + c))
      with (S (S (S (S (Z.to_nat (4 * Z.of_nat p + c)))))) by lia.
    cbn [nth]. apply IH; lia.
Qed.

(** The differences between neighbours vanish on a canvas of one colour. *)
Lemma adjacentDiff_uniform n r g b a p :
  (S p < n)%nat ->
  adjacentDiff (Sample.uniformCanvas n r g b a) (Z.of_nat p) = 0.
Proof.
  intros Hp. unfold adjacentDiff.
  replace (4 * Z.of_nat p) with (4 * Z.of_nat p + 0) by lia.
  replace (4 * Z.of_nat p + 0 + 4) with (4 * Z.of_nat (S p) + 0) by lia.
  replace (4 * Z.of_nat p + 0 + 1) with (4 * Z.of_nat p + 1) by lia.
  replace (4 * Z.of_nat p + 0 + 5) with (4 * Z.of_nat (S p) + 1) by lia.
  replace (4 * Z.of_nat p + 0 + 2) with (4 * Z.of_nat p + 2) by lia.
  replace (4 * Z.of_nat p + 0 + 6) with (4 * Z.of_nat (S p) + 2) by lia.
  rewrite !at_uniform by lia. rewrite !Z.sub_diag. reflexivity.
Qed.

Lemma sumDiffs_uniform n r g b a count : forall p,
  (p + count < n)%nat ->
  sumDiffs (Sample.uniformCanvas n r g b a) (Z.of_nat p) count = 0.
Proof.
  induction count as [|count IH]; intros p Hp; [reflexivity|].
  cbn [sumDiffs]. rewrite adjacentDiff_uniform by lia.
  replace (Z.of_nat p + 1) with (Z.of_nat (S p)) by lia.
  rewrite IH by lia. reflexivity.
Qed.

Lemma uniform_bytes n r g b a :
  isByte r = true -> isByte g = true -> isByte b = true ->
  isByte a = true ->
  forallb isByte (Sample.uniformCanvas n r g b a) = true.
Proof.
  intros Hr Hg Hb Ha. induction n as [|n IH]; [reflexivity|].
  change (Sample.uniformCanvas (S n) r g b a)
    with (r :: g :: b :: a :: Sample.uniformCanvas n r g b a).
  cbn [forallb]. rewrite Hr, Hg, Hb, Ha, IH. reflexivity.
Qed.

Lemma uniform_complexity_zero r g b a :
  isByte r = true -> isByte g = true -> isByte b = true ->
  isByte a = true ->
  complexityOfData (Sample.uniformCanvas 100 r g b a) = of_Z 0.
Proof.
  intros Hr Hg Hb Ha. unfold complexityOfData.
  rewrite (diffSums_pixels (Sample.uniformCanvas 100 r g b a) 100 eq_refl
             (uniform_bytes 100 r g b a Hr Hg Hb Ha))
    by lia.
  change 0 with (Z.of_nat 0) at 1.
  rewrite sumDiffs_uniform by (change (Z.to_nat (100 - 1)) with 99%nat; lia).
  reflexivity.
Qed.

(** Rounding on a grid moves a value by at most half a step. *)
Lemma rne_error a n :
  0 <= n -> - 2 ^ n <= 2 * (rne a n * 2 ^ n - a) <= 2 ^ n.
Proof.
  intros Hn. unfold rne.
  assert (Pc : 0 < 2 ^ n) by (apply Z.pow_pos_nonneg; lia).
  remember (2 ^ n) as c eqn:Ec.
  pose proof (Z.div_mod a c ltac:(lia)) as D.
  pose proof (Z.mod_pos_bound a c Pc) as B.
  destruct (2 * (a mod c) ?= c) eqn:C;
    rewrite ?Z.compare_eq_iff, ?Z.compare_lt_iff, ?Z.compare_gt_iff in C;
    [destruct (Z.even (a / c))| |]; nia.
Qed.

(** The grid of a value below [2^j] is at most [2^(j - 53)]. *)
Lemma gridOf_upper W j :
  0 < W -> W < 2 ^ (j + scaleB) -> -1021 <= j ->
  gridOf W <= j - 53 + scaleB.
Proof.
  intros HW U Hj. destruct (Zdigits2_bounds W HW) as (D0 & L & _).
  assert (Zdigits2 W - 1 < j + scaleB).
  { apply (Z.pow_lt_mono_r_iff 2); [lia|unfold scaleB; lia|lia]. }
  unfold gridOf, fexp64. lia.
Qed.

(** Rounding to binary64 moves a value below [2^j] by at most
    [2^(j - 54)]. *)
Lemma roundedScaled_error W j :
  0 <= W -> W < 2 ^ (j + scaleB) -> -1021 <= j ->
  2 * Z.abs (roundedScaled W - W) <= 2 ^ (j - 53 + scaleB).
Proof.
  intros HW U Hj.
  assert (P : 0 < 2 ^ (j - 53 + scaleB))
    by (apply Z.pow_pos_nonneg; unfold scaleB; lia).
  destruct (Z.eq_dec W 0) as [->|N]; [rewrite roundedScaled_0; cbn; lia|].
  destruct (gridOf_facts W ltac:(lia)) as (G & _).
  pose proof (gridOf_upper W j ltac:(lia) U Hj) as GU.
  assert (G0 : 0 <= gridOf W) by (unfold scaleB in G; lia).
  pose proof (rne_error W (gridOf W) G0) as E.
  assert (M : 2 ^ gridOf W <= 2 ^ (j - 53 + scaleB))
    by (apply Z.pow_le_mono_r; lia).
  unfold roundedScaled. lia.
Qed.

(** The suggested quality is the integer nearest to [60 + 30 x], up to
    the two roundings of binary64. *)
Lemma suggestedScaled_near V :
  0 <= V <= 2 ^ scaleB ->
  2 * Z.abs (suggestedScaled V * 2 ^ scaleB - (60 * 2 ^ scaleB + 30 * V))
  <= 2 ^ scaleB + 2 ^ (scaleB - 45).
Proof.
  intros HV.
  destruct (suggestedScaled_range V HV) as ((L2 & U2) & (L1 & U1) & _).
  assert (PB : 0 < 2 ^ scaleB) by (apply Z.pow_pos_nonneg; unfold scaleB; lia).
  assert (Pu : 0 < 2 ^ (scaleB - 48))
    by (apply Z.pow_pos_nonneg; unfold scaleB; lia).
  assert (B48 : 2 ^ scaleB = 2 ^ 48 * 2 ^ (scaleB - 48)).
  { rewrite <- Z.pow_add_r by (unfold scaleB; lia). f_equal; lia. }
  assert (B46 : 2 ^ (7 - 53 + scaleB) = 4 * 2 ^ (scaleB - 48)).
  { change 4 with (2 ^ 2). rewrite <- Z.pow_add_r by (unfold scaleB; lia).
    f_equal; lia. }
  assert (B45 : 2 ^ (scaleB - 45) = 8 * 2 ^ (scaleB - 48)).
  { change 8 with (2 ^ 3). rewrite <- Z.pow_add_r by (unfold scaleB; lia).
    f_equal; lia. }
  assert (B5 : 2 ^ (5 + scaleB) = 32 * 2 ^ scaleB).
  { change 32 with (2 ^ 5). rewrite <- Z.pow_add_r by (unfold scaleB; lia).
    reflexivity. }
  assert (B7 : 2 ^ (7 + scaleB) = 128 * 2 ^ scaleB).
  { change 128 with (2 ^ 7). rewrite <- Z.pow_add_r by (unfold scaleB; lia).
    reflexivity. }
  assert (E1 : 2 * Z.abs (roundedScaled (30 * V) - 30 * V)
               <= 2 ^ (5 - 53 + scaleB))
    by (apply roundedScaled_error; lia).
  replace (5 - 53 + scaleB) with (scaleB - 48) in E1 by lia.
  assert (E2 : 2 * Z.abs (roundedScaled (60 * 2 ^ scaleB
                                         + roundedScaled (30 * V))
                          - (60 * 2 ^ scaleB + roundedScaled (30 * V)))
               <= 2 ^ (7 - 53 + scaleB))
    by (apply roundedScaled_error; lia).
  rewrite B46 in E2. rewrite B45.
  unfold suggestedScaled, nearestInt.
  set (R1 := roundedScaled (30 * V)) in *.
  set (R2 := roundedScaled (60 * 2 ^ scaleB + R1)) in *.
  pose proof (Z.div_mod (2 * R2 + 2 ^ scaleB) (2 * 2 ^ scaleB) ltac:(lia))
    as D.
  pose proof (Z.mod_pos_bound (2 * R2 + 2 ^ scaleB) (2 * 2 ^ scaleB)
                ltac:(lia)) as M.
  set (k := (2 * R2 + 2 ^ scaleB) / (2 * 2 ^ scaleB)) in *.
  remember (2 ^ (scaleB - 48)) as u eqn:Eu.
  remember (2 ^ scaleB) as B eqn:EB.
  lia.
Qed.

Lemma suggestedQuality_one : suggestedQuality (of_Z 1) = of_Z 90.
Proof. vm_compute. reflexivity. Qed.

(** The formula is evaluated in binary64, roundings included: for the
    score of a canvas whose differences sum to 51 out of 3060, a number
    just below 1/60, the product and the sum round up to 60.5 and the
    suggested quality is 61, although [60 + 30 * score] is below 60.5. *)
Example suggestedQuality_rounds_twice :
  suggestedQuality (div (of_Z 51) (of_Z 3060)) = of_Z 61
  /\ nearestInt (60 * 2 ^ scaleB + 30 * scaled (div (of_Z 51) (of_Z 3060)))
     = 60.
Proof. split; vm_compute; reflexivity. Qed.

(** C4: for valid binary64 scores [s1 <= s2] in [0,1], the suggested
    quality is [Math.round(60 + (90 - 60) * s)] as binary64 evaluates it;
    it is an integer between 60 and 90 for both, within 1/2 + 2^-46 of
    [60 + 30 * s] ([scaled s] is the value of [s] times 2^1200), and the
    one of [s1] is at most the one of [s2]; taking [s1 = s2] this is the
    range for every score in [0,1].  A score of 0 gives 60, a score of 1
    gives 90, and the canvas of a 10 x 10 image of a single colour has
    score 0, whatever the colour. *)
Theorem suggestedQuality_range_monotone (s1 s2 : number) :
  valid_binary prec emax s1 = true ->
  valid_binary prec emax s2 = true ->
  le (of_Z 0) s1 = true ->
  le s1 s2 = true ->
  le s2 (of_Z 1) = true ->
  (exists k1 k2,
     60 <= k1 /\ k1 <= k2 /\ k2 <= 90
     /\ suggestedQuality s1 = of_Z k1
     /\ suggestedQuality s2 = of_Z k2
     /\ 2 * Z.abs (k1 * 2 ^ scaleB - (60 * 2 ^ scaleB + 30 * scaled s1))
        <= 2 ^ scaleB + 2 ^ (scaleB - 45)
     /\ 2 * Z.abs (k2 * 2 ^ scaleB - (60 * 2 ^ scaleB + 30 * scaled s2))
        <= 2 ^ scaleB + 2 ^ (scaleB - 45))
  /\ le (suggestedQuality s1) (suggestedQuality s2) = true
  /\ suggestedQuality (of_Z 0) = of_Z 60
  /\ (forall r g b a,
        isByte r = true -> isByte g = true -> isByte b = true ->
        isByte a = true ->
        complexityOfData (Sample.uniformCanvas 100 r g b a) = of_Z 0)
  /\ suggestedQuality s1
     = Math_round (add (of_Z 60) (mul (sub (of_Z 90) (of_Z 60)) s1))
  /\ suggestedQuality s2
     = Math_round (add (of_Z 60) (mul (sub (of_Z 90) (of_Z 60)) s2))
  /\ suggestedQuality (of_Z 1) = of_Z 90.
Proof.
  intros V1 V2 H0 H12 H1.
  assert (N : nonneg s1 = true /\ nonneg s2 = true
              /\ le (of_Z 0) s2 = true).
  { destruct s1 as [b|[|]| |[|] m e]; try discriminate;
    destruct s2 as [b2|[|]| |[|] m2 e2]; try discriminate;
    repeat split. }
  destruct N as (N1 & N2 & H0').
  pose proof (le_one_below s1 s2 N1 H12 H1) as H1'.
  pose proof (le_scaled s1 s2 V1 V2 N1 N2 H12) as S12.
  destruct (suggestedQuality_scaled s1 V1 H0 H1') as (_ & [L1 U1] & Q1).
  destruct (suggestedQuality_scaled s2 V2 H0' H1) as (_ & [L2 U2] & Q2).
  destruct (suggestedScaled_range (scaled s1) (conj L1 U1)) as (_ & _ & R1).
  destruct (suggestedScaled_range (scaled s2) (conj L2 U2)) as (_ & _ & R2).
  pose proof (suggestedScaled_mono _ _ L1 S12) as Mono.
  split; [|split; [|split; [|split; [|split; [|split]]]]].
  - exists (suggestedScaled (scaled s1)), (suggestedScaled (scaled s2)).
    split; [apply R1|]. split; [exact Mono|]. split; [apply R2|].
    split; [exact Q1|]. split; [exact Q2|].
    split; apply suggestedScaled_near; split; assumption.
  - rewrite Q1, Q2. apply of_Z_le_range; [apply R1|exact Mono|apply R2].
  - reflexivity.
  - exact uniform_complexity_zero.
  - reflexivity.
  - reflexivity.
  - exact suggestedQuality_one.
Qed.

Lemma suggestedQuality_range_monotone_witness :
  (exists k1 k2,
     60 <= k1 /\ k1 <= k2 /\ k2 <= 90
     /\ suggestedQuality (fraction 25) = of_Z k1
     /\ suggestedQuality (fraction 75) = of_Z k2
     /\ 2 * Z.abs (k1 * 2 ^ scaleB
                   - (60 * 2 ^ scaleB + 30 * scaled (fraction 25)))
        <= 2 ^ scaleB + 2 ^ (scaleB - 45)
     /\ 2 * Z.abs (k2 * 2 ^ scaleB
                   - (60 * 2 ^ scaleB + 30 * scaled (fraction 75)))
        <= 2 ^ scaleB + 2 ^ (scaleB - 45))
  /\ le (suggestedQuality (fraction 25)) (suggestedQuality (fraction 75))
     = true
  /\ suggestedQuality (of_Z 0) = of_Z 60
  /\ (forall r g b a,
        isByte r = true -> isByte g = true -> isByte b = true ->
        isByte a = true ->
        complexityOfData (Sample.uniformCanvas 100 r g b a) = of_Z 0)
  /\ suggestedQuality (fraction 25)
     = Math_round (add (of_Z 60)
                     (mul (sub (of_Z 90) (of_Z 60)) (fraction 25)))
  /\ suggestedQuality (fraction 75)
     = Math_round (add (of_Z 60)
                     (mul (sub (of_Z 90) (of_Z 60)) (fraction 75)))
  /\ suggestedQuality (of_Z 1) = of_Z 90.
Proof.
  apply (suggestedQuality_range_monotone (fraction 25) (fraction 75));
    vm_compute; reflexivity.
Defined.

(** * Further properties *)

(** ** Order and validity of binary64 numbers *)

(** A mantissa that is canonical for its exponent makes a valid number. *)
Lemma canonical_valid s p e :
  -1074 <= e <= 971 ->
  (e = -1074 \/ 2 ^ 52 <= Z.pos p) ->
  Z.pos p < 2 ^ 53 ->
  valid_binary prec emax (S754_finite s p e) = true.
Proof.
  intros He C U. cbn [valid_binary]. unfold bounded, canonical_mantissa.
  rewrite fexp_eq. apply andb_true_intro. split.
  - apply Z.eqb_eq. unfold fexp64.
    pose proof (digits_upper p 0 53 ltac:(lia)) as D.
    rewrite Z.mul_1_r in D. specialize (D U).
    destruct C as [->|C]; [lia|].
    apply digits_lower in C. lia.
  - apply Z.leb_le. unfold emax, prec. lia.
Qed.

(** On valid non-negative numbers the comparison is that of the values. *)
Lemma compare_scaled x y :
  valid_binary prec emax x = true -> valid_binary prec emax y = true ->
  nonneg x = true -> nonneg y = true ->
  SFcompare x y = Some (scaled x ?= scaled y).
Proof.
  intros Vx Vy Nx Ny.
  assert (P : forall m e, valid_binary prec emax (S754_finite false m e) = true ->
              0 < Z.pos m * 2 ^ (e + scaleB)).
  { intros m e V. destruct (valid_finite _ _ _ V) as (E & _).
    assert (0 < 2 ^ (e + scaleB))
      by (apply Z.pow_pos_nonneg; unfold scaleB; lia).
    lia. }
  destruct x as [sx|sx| |[|] mx ex]; try discriminate;
  destruct y as [sy|sy| |[|] my ey]; try discriminate; cbn [scaled SFcompare].
  - reflexivity.
  - specialize (P _ _ Vy). f_equal. symmetry. apply Z.compare_lt_iff. exact P.
  - specialize (P _ _ Vx). f_equal. symmetry. apply Z.compare_gt_iff. exact P.
  - destruct (valid_finite _ _ _ Vx) as (Ex & Cx & Ux).
    destruct (valid_finite _ _ _ Vy) as (Ey & Cy & Uy).
    f_equal.
    assert (Far : forall m1 e1 m2 e2,
               -1074 <= e1 -> e1 < e2 -> Z.pos m1 < 2 ^ 53 ->
               2 ^ 52 <= Z.pos m2 ->
               Z.pos m1 * 2 ^ (e1 + scaleB) < Z.pos m2 * 2 ^ (e2 + scaleB)).
    { intros m1 e1 m2 e2 E1 L U1 L2.
      assert (Pu : 0 < 2 ^ (e1 + scaleB))
        by (apply Z.pow_pos_nonneg; unfold scaleB; lia).
      replace (e2 + scaleB) with ((e2 - e1) + (e1 + scaleB)) by lia.
      rewrite (Z.pow_add_r 2 (e2 - e1) (e1 + scaleB))
        by (unfold scaleB; lia).
      assert (T : 2 ^ 1 <= 2 ^ (e2 - e1)) by (apply Z.pow_le_mono_r; lia).
      change (2 ^ 53) with (2 ^ 52 * 2 ^ 1) in U1.
      set (t := 2 ^ (e2 - e1)) in *. set (u := 2 ^ (e1 + scaleB)) in *.
      assert (A1 : Z.pos m1 * u < 2 ^ 52 * 2 ^ 1 * u) by nia.
      assert (A2 : 2 ^ 52 * 2 ^ 1 * u <= 2 ^ 52 * t * u)
        by (apply Z.mul_le_mono_nonneg_r; [lia|];
            apply Z.mul_le_mono_nonneg_l; [lia|exact T]).
      assert (A3 : 2 ^ 52 * t * u <= Z.pos m2 * t * u)
        by (apply Z.mul_le_mono_nonneg_r; [lia|];
            apply Z.mul_le_mono_nonneg_r; [lia|exact L2]).
      lia. }
    destruct (ex ?= ey) eqn:C.
    + apply Z.compare_eq in C. subst ey.
      change (Pos.compare_cont Eq mx my) with (Z.pos mx ?= Z.pos my).
      assert (Pu : 0 < 2 ^ (ex + scaleB))
        by (apply Z.pow_pos_nonneg; unfold scaleB; lia).
      symmetry. rewrite <- (Zmult_compare_compat_r _ _ (2 ^ (ex + scaleB)))
        by lia. reflexivity.
    + rewrite Z.compare_lt_iff in C. symmetry. apply Z.compare_lt_iff.
      apply Far; lia.
    + rewrite Z.compare_gt_iff in C. symmetry. apply Z.compare_gt_iff.
      apply Far; lia.
Qed.

Lemma gt_scaled x y :
  valid_binary prec emax x = true -> valid_binary prec emax y = true ->
  nonneg x = true -> nonneg y = true ->
  gt x y = (scaled y <? scaled x).
Proof.
  intros Vx Vy Nx Ny. unfold gt, SFltb.
  rewrite (compare_scaled y x Vy Vx Ny Nx). unfold Z.ltb.
  destruct (scaled y ?= scaled x); reflexivity.
Qed.

Lemma le_of_scaled x y :
  valid_binary prec emax x = true -> valid_binary prec emax y = true ->
  nonneg x = true -> nonneg y = true ->
  scaled x <= scaled y -> le x y = true.
Proof.
  intros Vx Vy Nx Ny H. unfold le, SFleb.
  rewrite (compare_scaled x y Vx Vy Nx Ny).
  destruct (scaled x ?= scaled y) eqn:C; try reflexivity.
  rewrite Z.compare_gt_iff in C. lia.
Qed.

(** An integer from 0 to 2^53 - 1, as a number. *)
Lemma of_Z_facts a :
  0 <= a < 2 ^ 53 ->
  valid_binary prec emax (of_Z a) = true
  /\ nonneg (of_Z a) = true
  /\ scaled (of_Z a) = a * 2 ^ scaleB.
Proof.
  intros [L U]. destruct (Z.eq_dec a 0) as [->|N]; [repeat split|].
  destruct (of_Z_shape a ltac:(lia)) as (F & p & e & Fp & E & V).
  assert (P : 0 < a * 2 ^ scaleB).
  { assert (0 < 2 ^ scaleB) by (apply Z.pow_pos_nonneg; unfold scaleB; lia).
    lia. }
  destruct (floatOfScaled_shape _ P) as [[Fz _]|(p' & e' & Fp' & Val & E' & C & Up)].
  - rewrite F, Fz in Fp. discriminate.
  - rewrite F, Fp' in Fp. injection Fp as -> ->.
    rewrite F, Fp'. split; [|split; [reflexivity|exact V]].
    apply canonical_valid; try assumption. split; [lia|].
    destruct (Z.le_gt_cases e 971) as [G|G]; [exact G|exfalso].
    assert (C' : 2 ^ 52 <= Z.pos p) by lia.
    cbn [scaled] in V.
    assert (T : 2 ^ (53 + scaleB) <= 2 ^ 52 * 2 ^ (e + scaleB)).
    { rewrite <- Z.pow_add_r by (unfold scaleB; lia).
      apply Z.pow_le_mono_r; lia. }
    assert (T2 : 2 ^ 52 * 2 ^ (e + scaleB) <= Z.pos p * 2 ^ (e + scaleB))
      by (apply Z.mul_le_mono_nonneg_r; [apply Z.pow_nonneg; lia|exact C']).
    rewrite Z.pow_add_r in T by (unfold scaleB; lia).
    assert (0 < 2 ^ scaleB) by (apply Z.pow_pos_nonneg; unfold scaleB; lia).
    nia.
Qed.

(** Comparing two such integers as numbers compares them. *)
Lemma gt_of_Z a b :
  0 <= a < 2 ^ 53 -> 0 <= b < 2 ^ 53 ->
  gt (of_Z a) (of_Z b) = (b <? a).
Proof.
  intros Ha Hb.
  destruct (of_Z_facts a Ha) as (Va & Na & Sa).
  destruct (of_Z_facts b Hb) as (Vb & Nb & Sb).
  rewrite (gt_scaled _ _ Va Vb Na Nb), Sa, Sb.
  assert (0 < 2 ^ scaleB) by (apply Z.pow_pos_nonneg; unfold scaleB; lia).
  destruct (b <? a) eqn:C; [apply Z.ltb_lt in C|apply Z.ltb_ge in C].
  - apply Z.ltb_lt. nia.
  - apply Z.ltb_ge. nia.
Qed.

(** ** Products *)

(** The product of two positive numbers whose mantissas together fill a
    binary64 mantissa, far from overflow. *)
Lemma mul_scaled mx ex my ey :
  0 <= ex + ey + scaleB ->
  2 ^ 52 <= Z.pos mx * Z.pos my ->
  Z.pos mx * Z.pos my * 2 ^ (ex + ey + scaleB) < 2 ^ (1023 + scaleB) ->
  mul (S754_finite false mx ex) (S754_finite false my ey)
  = floatOfScaled (Z.pos mx * Z.pos my * 2 ^ (ex + ey + scaleB)).
Proof.
  intros HB Hbig Hov. unfold mul. cbn [SFmul xorb].
  assert (L : 52 < Z.pos (digits2_pos (mx * my)))
    by (apply digits_lower; rewrite Pos2Z.inj_mul; exact Hbig).
  assert (U : Z.pos (digits2_pos (mx * my)) + (ex + ey + scaleB)
              <= 1023 + scaleB)
    by (apply digits_upper; [exact HB|rewrite Pos2Z.inj_mul; exact Hov]).
  rewrite round_aux_scaled.
  - rewrite Pos2Z.inj_mul. reflexivity.
  - exact HB.
  - unfold fexp64. lia.
  - lia.
Qed.

(** A positive integer has an exponent above -53. *)
Lemma integer_exponent p e a :
  -1074 <= e -> Z.pos p < 2 ^ 53 -> 0 < a ->
  Z.pos p * 2 ^ (e + scaleB) = a * 2 ^ scaleB ->
  -53 < e.
Proof.
  intros E U Ha V.
  destruct (Z.lt_ge_cases (-53) e) as [G|G]; [exact G|exfalso].
  assert (P : 0 < 2 ^ (e + scaleB))
    by (apply Z.pow_pos_nonneg; unfold scaleB; lia).
  assert (A : Z.pos p * 2 ^ (e + scaleB) < 2 ^ 53 * 2 ^ (e + scaleB))
    by (apply Z.mul_lt_mono_pos_r; assumption).
  rewrite <- Z.pow_add_r in A by (unfold scaleB; lia).
  assert (B : 2 ^ (53 + (e + scaleB)) <= 2 ^ scaleB)
    by (apply Z.pow_le_mono_r; unfold scaleB; lia).
  assert (0 < 2 ^ scaleB) by (apply Z.pow_pos_nonneg; unfold scaleB; lia).
  nia.
Qed.

(** Multiplication of positive integers is exact below 2^53. *)
Lemma mul_of_Z a b :
  0 < a -> 0 < b -> a * b < 2 ^ 53 ->
  mul (of_Z a) (of_Z b) = of_Z (a * b).
Proof.
  intros Ha Hb U.
  assert (Ua : a < 2 ^ 53) by nia. assert (Ub : b < 2 ^ 53) by nia.
  assert (PB : 0 < 2 ^ scaleB) by (apply Z.pow_pos_nonneg; unfold scaleB; lia).
  destruct (of_Z_facts a ltac:(lia)) as (Va & _ & Sa).
  destruct (of_Z_facts b ltac:(lia)) as (Vb & _ & Sb).
  destruct (of_Z_shape a ltac:(lia)) as (_ & p & e & Fa & _ & _).
  destruct (of_Z_shape b ltac:(lia)) as (_ & p' & e' & Fb & _ & _).
  destruct (of_Z_shape (a * b) ltac:(lia)) as (Fab & _).
  rewrite Fa in Va, Sa. rewrite Fb in Vb, Sb. cbn [scaled] in Sa, Sb.
  destruct (valid_finite _ _ _ Va) as (Ea & Ca & Upa).
  destruct (valid_finite _ _ _ Vb) as (Eb & _ & Upb).
  pose proof (integer_exponent p e a ltac:(lia) Upa Ha Sa) as La.
  pose proof (integer_exponent p' e' b ltac:(lia) Upb Hb Sb) as Lb.
  assert (W : Z.pos p * Z.pos p' * 2 ^ (e + e' + scaleB) = a * b * 2 ^ scaleB).
  { apply (Z.mul_reg_r _ _ (2 ^ scaleB)); [lia|].
    replace (a * b * 2 ^ scaleB * 2 ^ scaleB)
      with ((a * 2 ^ scaleB) * (b * 2 ^ scaleB)) by lia.
    rewrite <- Sa, <- Sb.
    replace (Z.pos p * Z.pos p' * 2 ^ (e + e' + scaleB) * 2 ^ scaleB)
      with (Z.pos p * Z.pos p' * (2 ^ (e + e' + scaleB) * 2 ^ scaleB)) by lia.
    rewrite <- Z.pow_add_r by (unfold scaleB; lia).
    replace (e + e' + scaleB + scaleB) with ((e + scaleB) + (e' + scaleB))
      by lia.
    rewrite Z.pow_add_r by (unfold scaleB; lia). lia. }
  rewrite Fa, Fb, Fab, mul_scaled.
  - rewrite W. reflexivity.
  - unfold scaleB. lia.
  - assert (2 ^ 52 <= Z.pos p) by lia. nia.
  - rewrite W.
    replace (1023 + scaleB) with (1023 + scaleB - scaleB + scaleB) by lia.
    rewrite (Z.pow_add_r 2 (1023 + scaleB - scaleB)) by (unfold scaleB; lia).
    assert (2 ^ 53 <= 2 ^ (1023 + scaleB - scaleB))
      by (apply Z.pow_le_mono_r; lia).
    nia.
Qed.

(** ** Division *)

Lemma rnd_bounds a c : a / c <= rnd a c <= a / c + 1.
Proof.
  unfold rnd. destruct (2 * (a mod c) ?= c); [destruct (Z.even _)| |]; lia.
Qed.

(** A fraction at most an integer rounds to at most that integer. *)
Lemma rnd_le a c k : 0 < c -> a <= k * c -> rnd a c <= k.
Proof.
  intros Hc H. unfold rnd.
  pose proof (Z.div_mod a c ltac:(lia)) as D.
  pose proof (Z.mod_pos_bound a c Hc) as B.
  assert (Q : a / c <= k) by (apply Z.div_le_upper_bound; lia).
  destruct (Z.eq_dec (a / c) k) as [E|N].
  - assert (R : a mod c = 0) by nia. rewrite R.
    replace (2 * 0 ?= c) with Lt by (symmetry; apply Z.compare_lt_iff; lia).
    exact Q.
  - destruct (2 * (a mod c) ?= c); [destruct (Z.even _)| |]; lia.
Qed.

(** A fraction at least an integer rounds to at least that integer. *)
Lemma rnd_ge a c k : 0 < c -> k * c <= a -> k <= rnd a c.
Proof.
  intros Hc H. pose proof (rnd_bounds a c) as [L _].
  assert (k <= a / c) by (apply Z.div_le_lower_bound; lia). lia.
Qed.

Lemma shr_1_fraction a c :
  0 <= a -> 0 < c -> shr_1 (shrRecord a c) = shrRecord a (2 * c).
Proof.
  intros Ha Hc. unfold shrRecord.
  rewrite shr_1_nonneg by (apply Z.div_pos; lia).
  pose proof (Z.mod_pos_bound a c Hc) as B1.
  pose proof (Z.mod_pos_bound (a / c) 2 ltac:(lia)) as B2.
  assert (Q : a / (2 * c) = a / c / 2)
    by (rewrite (Z.mul_comm 2 c), Z.div_div by lia; reflexivity).
  assert (R : a mod (2 * c) = a mod c + c * ((a / c) mod 2))
    by (rewrite (Z.mul_comm 2 c); apply Z.rem_mul_r; lia).
  rewrite Q, R, Zodd_mod.
  assert (Hb : (a / c) mod 2 = 0 \/ (a / c) mod 2 = 1) by lia.
  destruct Hb as [Hb|Hb]; rewrite Hb.
  - rewrite Z.mul_0_r, Z.add_0_r. change (0 =? 1) with false.
    replace (2 * c <=? 2 * (a mod c)) with false
      by (symmetry; apply Z.leb_gt; lia).
    replace (2 * (a mod c) =? 2 * c) with false
      by (symmetry; apply Z.eqb_neq; lia).
    rewrite orb_false_r. f_equal.
    destruct (c <=? 2 * (a mod c)) eqn:E1;
    destruct (a mod c =? 0) eqn:E2;
    destruct (2 * (a mod c) =? c) eqn:E3; try reflexivity; exfalso;
    rewrite ?Z.eqb_eq, ?Z.eqb_neq, ?Z.leb_le, ?Z.leb_gt in *; lia.
  - rewrite Z.mul_1_r. change (1 =? 1) with true.
    replace (2 * c <=? 2 * (a mod c + c)) with true
      by (symmetry; apply Z.leb_le; lia).
    replace (a mod c + c =? 0) with false
      by (symmetry; apply Z.eqb_neq; lia).
    cbn [orb]. f_equal.
    destruct (c <=? 2 * (a mod c)) eqn:E1;
    destruct (a mod c =? 0) eqn:E2;
    destruct (2 * (a mod c) =? c) eqn:E3;
    destruct (2 * (a mod c + c) =? 2 * c) eqn:E5;
    try reflexivity; exfalso;
    rewrite ?Z.eqb_eq, ?Z.eqb_neq, ?Z.leb_le, ?Z.leb_gt in *; lia.
Qed.

Lemma shr_iter_fraction a c k :
  0 <= a -> 0 < c ->
  Nat.iter k shr_1 (shrRecord a c) = shrRecord a (c * 2 ^ Z.of_nat k).
Proof.
  intros Ha Hc. induction k as [|k IH].
  - cbn [Nat.iter]. change (2 ^ Z.of_nat 0) with 1. rewrite Z.mul_1_r.
    reflexivity.
  - rewrite Nat.iter_succ, IH.
    assert (P : 0 < 2 ^ Z.of_nat k) by (apply Z.pow_pos_nonneg; lia).
    rewrite shr_1_fraction by nia.
    rewrite Nat2Z.inj_succ, Z.pow_succ_r by lia. f_equal. lia.
Qed.

Lemma shrRecord_round a c :
  0 < c ->
  round_nearest_even (shr_m (shrRecord a c))
    (loc_of_shr_record (shrRecord a c)) = rnd a c.
Proof.
  intros Hc. unfold shrRecord, rnd. cbn [shr_m loc_of_shr_record].
  pose proof (Z.mod_pos_bound a c Hc) as B.
  destruct (c <=? 2 * (a mod c)) eqn:E1;
  destruct (a mod c =? 0) eqn:E2;
  destruct (2 * (a mod c) =? c) eqn:E3; cbn [negb orb round_nearest_even];
  rewrite ?Z.eqb_eq, ?Z.eqb_neq, ?Z.leb_le, ?Z.leb_gt in *;
  try (exfalso; lia).
  - rewrite (proj2 (Z.compare_eq_iff (2 * (a mod c)) c)) by lia.
    reflexivity.
  - rewrite (proj2 (Z.compare_gt_iff (2 * (a mod c)) c)) by lia.
    reflexivity.
  - rewrite (proj2 (Z.compare_lt_iff (2 * (a mod c)) c)) by lia.
    reflexivity.
  - rewrite (proj2 (Z.compare_lt_iff (2 * (a mod c)) c)) by lia.
    reflexivity.
Qed.

(** The location of a remainder is that of the fraction. *)
Lemma new_location_fraction a c :
  0 <= a -> 0 < c ->
  shr_record_of_loc (a / c) (new_location c (a mod c)) = shrRecord a c.
Proof.
  intros Ha Hc. unfold shrRecord, new_location, new_location_even,
    new_location_odd.
  pose proof (Z.mod_pos_bound a c Hc) as B.
  set (r := a mod c) in *.
  destruct (Z.even c) eqn:Ev.
  - destruct (r =? 0) eqn:E0.
    + apply Z.eqb_eq in E0. rewrite E0. cbn [shr_record_of_loc orb negb].
      replace (c <=? 2 * 0) with false by (symmetry; apply Z.leb_gt; lia).
      reflexivity.
    + apply Z.eqb_neq in E0. cbn [orb].
      destruct (2 * r ?= c) eqn:C; cbn [shr_record_of_loc].
      * apply Z.compare_eq in C.
        replace (c <=? 2 * r) with true by (symmetry; apply Z.leb_le; lia).
        replace (2 * r =? c) with true by (symmetry; apply Z.eqb_eq; lia).
        reflexivity.
      * rewrite Z.compare_lt_iff in C.
        replace (c <=? 2 * r) with false by (symmetry; apply Z.leb_gt; lia).
        replace (2 * r =? c) with false by (symmetry; apply Z.eqb_neq; lia).
        reflexivity.
      * rewrite Z.compare_gt_iff in C.
        replace (c <=? 2 * r) with true by (symmetry; apply Z.leb_le; lia).
        replace (2 * r =? c) with false by (symmetry; apply Z.eqb_neq; lia).
        reflexivity.
  - assert (Odd : c mod 2 = 1).
    { rewrite Zmod_odd, <- Z.negb_even, Ev. reflexivity. }
    assert (Ne : 2 * r <> c).
    { intros E. rewrite <- E in Odd.
      rewrite Z.mul_comm, Z.mod_mul in Odd by lia. lia. }
    destruct (r =? 0) eqn:E0.
    + apply Z.eqb_eq in E0. rewrite E0. cbn [shr_record_of_loc orb negb].
      replace (c <=? 2 * 0) with false by (symmetry; apply Z.leb_gt; lia).
      reflexivity.
    + apply Z.eqb_neq in E0. cbn [orb].
      replace (2 * r =? c) with false by (symmetry; apply Z.eqb_neq; lia).
      destruct (2 * r + 1 ?= c) eqn:C; cbn [shr_record_of_loc negb].
      * apply Z.compare_eq in C.
        replace (c <=? 2 * r) with false by (symmetry; apply Z.leb_gt; lia).
        reflexivity.
      * rewrite Z.compare_lt_iff in C.
        replace (c <=? 2 * r) with false by (symmetry; apply Z.leb_gt; lia).
        reflexivity.
      * rewrite Z.compare_gt_iff in C.
        replace (c <=? 2 * r) with true by (symmetry; apply Z.leb_le; lia).
        reflexivity.
Qed.

(** The second half of [binary_round_aux]: a rounded mantissa of at most
    [2^53] at a grid exponent becomes a number, the carry moving to the
    next exponent. *)
Lemma round_aux_finish m1 ef :
  0 <= m1 <= 2 ^ 53 -> -1074 <= ef -> ef + 1 <= 971 ->
  (let '(mrs'', e'') := shr_fexp prec emax m1 ef loc_Exact in
   match shr_m mrs'' with
   | Z0 => S754_zero false
   | Zpos m =>
       if e'' <=? emax - prec then S754_finite false m e''
       else S754_infinity false
   | Zneg _ => S754_nan
   end) = mkfloat m1 ef.
Proof.
  intros Hm He Hov. unfold shr_fexp, mkfloat. rewrite fexp_eq.
  cbn [shr_record_of_loc].
  destruct (m1 =? 0) eqn:E0.
  - apply Z.eqb_eq in E0. rewrite E0. cbn [Zdigits2].
    unfold shr. destruct (fexp64 (0 + ef) - ef) eqn:En; try reflexivity.
    unfold fexp64 in En. lia.
  - apply Z.eqb_neq in E0. destruct (m1 =? 2 ^ 53) eqn:E53.
    + apply Z.eqb_eq in E53. rewrite E53.
      change (Zdigits2 (2 ^ 53)) with 54.
      replace (fexp64 (54 + ef) - ef) with 1 by (unfold fexp64; lia).
      cbn [shr iter_pos].
      cbn [shr_1 shr_m Z.pow Z.pow_pos Pos.iter Z.mul Pos.mul].
      replace (ef + 1 <=? emax - prec) with true
        by (symmetry; apply Z.leb_le; unfold emax, prec; lia).
      reflexivity.
    + apply Z.eqb_neq in E53.
      destruct m1 as [|p1|p1] eqn:Em1; [lia| |lia].
      cbn [Zdigits2].
      pose proof (digits_bounds p1) as [L1 U1].
      assert (Z.pos (digits2_pos p1) <= 53).
      { destruct (Z.le_gt_cases (Z.pos (digits2_pos p1)) 53) as [H|H];
          [exact H|].
        assert (2 ^ 53 <= 2 ^ (Z.pos (digits2_pos p1) - 1))
          by (apply Z.pow_le_mono_r; lia). lia. }
      unfold shr.
      destruct (fexp64 (Z.pos (digits2_pos p1) + ef) - ef) eqn:En.
      * cbn [shr_m].
        replace (ef <=? emax - prec) with true
          by (symmetry; apply Z.leb_le; unfold emax, prec; lia).
        reflexivity.
      * unfold fexp64 in En. lia.
      * cbn [shr_m].
        replace (ef <=? emax - prec) with true
          by (symmetry; apply Z.leb_le; unfold emax, prec; lia).
        reflexivity.
Qed.

(** [binary_round_aux] on the quotient and remainder of a division: the
    fraction [a / c] is rounded on the grid of its magnitude. *)
Lemma round_aux_fraction a c e' :
  0 <= a -> 0 < c -> 0 < a / c ->
  e' <= fexp64 (Zdigits2 (a / c) + e') ->
  Zdigits2 (a / c) + e' <= 1023 ->
  binary_round_aux prec emax false (a / c) e' (new_location c (a mod c))
  = mkfloat (rnd a (c * 2 ^ (fexp64 (Zdigits2 (a / c) + e') - e')))
      (fexp64 (Zdigits2 (a / c) + e')).
Proof.
  intros Ha Hc Hq Hn Hov.
  set (q := a / c) in *. set (ef := fexp64 (Zdigits2 q + e')) in *.
  destruct (Zdigits2_bounds q Hq) as (Dp & DL & DU).
  assert (He : -1074 <= ef <= 970 /\ Zdigits2 q + e' - 53 <= ef)
    by (unfold ef, fexp64; lia).
  assert (Pn : 0 < 2 ^ (ef - e')) by (apply Z.pow_pos_nonneg; lia).
  assert (Hm1 : 0 <= rnd a (c * 2 ^ (ef - e')) <= 2 ^ 53).
  { pose proof (rnd_bounds a (c * 2 ^ (ef - e'))) as [L U].
    rewrite <- Z.div_div in L, U by lia. fold q in L, U.
    assert (0 <= q / 2 ^ (ef - e')) by (apply Z.div_pos; lia).
    assert (q / 2 ^ (ef - e') < 2 ^ 53).
    { apply Z.div_lt_upper_bound; [lia|].
      rewrite <- Z.pow_add_r by lia.
      assert (2 ^ Zdigits2 q <= 2 ^ (ef - e' + 53))
        by (apply Z.pow_le_mono_r; lia).
      lia. }
    lia. }
  unfold binary_round_aux.
  assert (Hfirst :
    (let '(mrs', e1) := shr_fexp prec emax q e' (new_location c (a mod c)) in
     (round_nearest_even (shr_m mrs') (loc_of_shr_record mrs'), e1))
    = (rnd a (c * 2 ^ (ef - e')), ef)).
  { unfold shr_fexp. rewrite fexp_eq. fold ef.
    unfold q. rewrite new_location_fraction by assumption.
    unfold shr. destruct (ef - e') as [|p|p] eqn:En; [| |lia].
    - rewrite shrRecord_round by exact Hc.
      change (2 ^ 0) with 1. rewrite Z.mul_1_r. f_equal. lia.
    - rewrite iter_pos_nat, shr_iter_fraction by assumption.
      rewrite positive_nat_Z.
      rewrite shrRecord_round
        by (apply Z.mul_pos_pos; [exact Hc|apply Z.pow_pos_nonneg; lia]).
      f_equal. lia. }
  destruct (shr_fexp prec emax q e' (new_location c (a mod c)))
    as [mrs' e1].
  injection Hfirst as -> ->.
  apply round_aux_finish; lia.
Qed.

(** Rounding to nearest moves a fraction by at most one half. *)
Lemma rnd_error a c :
  0 < c -> - c <= 2 * (rnd a c * c - a) <= c.
Proof.
  intros Hc. unfold rnd.
  pose proof (Z.div_mod a c ltac:(lia)) as D.
  pose proof (Z.mod_pos_bound a c Hc) as B.
  destruct (2 * (a mod c) ?= c) eqn:C;
    rewrite ?Z.compare_eq_iff, ?Z.compare_lt_iff, ?Z.compare_gt_iff in C;
    [destruct (Z.even (a / c))| |]; nia.
Qed.

(** A positive integer below 2^53 has a full mantissa and an exponent
    from -52 to 0. *)
Lemma of_Z_normal a :
  0 < a < 2 ^ 53 ->
  exists p e,
    of_Z a = S754_finite false p e
    /\ 2 ^ 52 <= Z.pos p < 2 ^ 53
    /\ -52 <= e <= 0
    /\ Z.pos p * 2 ^ (e + scaleB) = a * 2 ^ scaleB
    /\ Z.pos (digits2_pos p) = 53.
Proof.
  intros [L U].
  destruct (of_Z_facts a ltac:(lia)) as (V & _ & S).
  destruct (of_Z_shape a ltac:(lia)) as (_ & p & e & F & _ & _).
  rewrite F in V, S. cbn [scaled] in S.
  destruct (valid_finite _ _ _ V) as (E & C & Up).
  pose proof (integer_exponent p e a ltac:(lia) Up L S) as Le.
  assert (Lp : 2 ^ 52 <= Z.pos p) by lia.
  exists p, e. split; [exact F|]. split; [lia|].
  assert (PB : 0 < 2 ^ scaleB) by (apply Z.pow_pos_nonneg; unfold scaleB; lia).
  split; [|split; [exact S|]].
  - split; [lia|].
    destruct (Z.le_gt_cases e 0) as [G|G]; [exact G|exfalso].
    assert (T : 2 ^ (1 + scaleB) <= 2 ^ (e + scaleB))
      by (apply Z.pow_le_mono_r; lia).
    rewrite Z.pow_add_r in T by (unfold scaleB; lia).
    change (2 ^ 1) with 2 in T.
    assert (2 ^ 52 * 2 ^ (e + scaleB) <= Z.pos p * 2 ^ (e + scaleB))
      by (apply Z.mul_le_mono_nonneg_r; [apply Z.pow_nonneg; lia|exact Lp]).
    change (2 ^ 53) with (2 ^ 52 * 2) in U. nia.
  - pose proof (digits_lower p 52 Lp).
    pose proof (digits_upper p 0 53 ltac:(lia)) as D.
    rewrite Z.mul_1_r in D. specialize (D Up). lia.
Qed.

(** The quotient of two positive integers below 2^53: a number with a
    full mantissa, within half a unit of its last place of the exact
    quotient. *)
Lemma div_of_Z a b :
  0 < a < 2 ^ 53 -> 0 < b < 2 ^ 53 ->
  exists p e,
    div (of_Z a) (of_Z b) = S754_finite false p e
    /\ 2 ^ 52 <= Z.pos p < 2 ^ 53
    /\ -107 <= e <= 1
    /\ - (2 ^ (e + scaleB) * b)
       <= 2 * (Z.pos p * 2 ^ (e + scaleB) * b - a * 2 ^ scaleB)
       <= 2 ^ (e + scaleB) * b.
Proof.
  intros Ha Hb.
  destruct (of_Z_normal a Ha) as (p1 & e1 & F1 & M1 & E1 & S1 & D1).
  destruct (of_Z_normal b Hb) as (p2 & e2 & F2 & M2 & E2 & S2 & D2).
  rewrite F1, F2. unfold div. cbn [SFdiv xorb].
  unfold SFdiv_core_binary. cbn [Zdigits2]. rewrite D1, D2, fexp_eq.
  replace (Z.min (fexp64 (53 + e1 - (53 + e2))) (e1 - e2))
    with (e1 - e2 - 53) by (unfold fexp64; lia).
  replace (e1 - e2 - (e1 - e2 - 53)) with 53 by lia.
  cbv iota. rewrite Z.shiftl_mul_pow2 by lia.
  set (N := Z.pos p1 * 2 ^ 53).
  set (e' := e1 - e2 - 53).
  assert (Hdiv : Z.div_eucl N (Z.pos p2) = (N / Z.pos p2, N mod Z.pos p2)).
  { unfold Z.div, Z.modulo. destruct (Z.div_eucl N (Z.pos p2)). reflexivity. }
  rewrite Hdiv.
  assert (HN : 0 <= N) by (unfold N; lia).
  assert (Q : 2 ^ 52 <= N / Z.pos p2 < 2 ^ 54).
  { split.
    - apply Z.div_le_lower_bound; [lia|]. unfold N.
      change (2 ^ 53) with 9007199254740992 in *.
      change (2 ^ 52) with 4503599627370496 in *. nia.
    - apply Z.div_lt_upper_bound; [lia|]. unfold N.
      change (2 ^ 54) with 18014398509481984.
      change (2 ^ 53) with 9007199254740992 in *.
      change (2 ^ 52) with 4503599627370496 in *. nia. }
  destruct (Zdigits2_bounds (N / Z.pos p2) ltac:(lia)) as (Dp & DL & DU).
  assert (Dq : 53 <= Zdigits2 (N / Z.pos p2) <= 54).
  { split.
    - destruct (Z.le_gt_cases 53 (Zdigits2 (N / Z.pos p2))) as [G|G];
        [exact G|].
      assert (2 ^ Zdigits2 (N / Z.pos p2) <= 2 ^ 52)
        by (apply Z.pow_le_mono_r; lia). lia.
    - destruct (Z.le_gt_cases (Zdigits2 (N / Z.pos p2)) 54) as [G|G];
        [exact G|].
      assert (2 ^ 54 <= 2 ^ (Zdigits2 (N / Z.pos p2) - 1))
        by (apply Z.pow_le_mono_r; lia). lia. }
  rewrite round_aux_fraction;
    [|exact HN|lia|lia|unfold fexp64, e'; lia|unfold e'; lia].
  set (ef := fexp64 (Zdigits2 (N / Z.pos p2) + e')).
  assert (Ef : ef = Zdigits2 (N / Z.pos p2) + e' - 53)
    by (unfold ef, fexp64, e'; lia).
  set (n := ef - e'). assert (Hn : 0 <= n <= 1) by (unfold n; lia).
  set (D := Z.pos p2 * 2 ^ n).
  assert (PD : 0 < D)
    by (unfold D; apply Z.mul_pos_pos; [lia|apply Z.pow_pos_nonneg; lia]).
  (* the rounded mantissa *)
  assert (R : 2 ^ 52 <= rnd N D <= 2 ^ 53).
  { pose proof (rnd_bounds N D) as [L U].
    assert (Pn : 0 < 2 ^ n) by (apply Z.pow_pos_nonneg; lia).
    assert (Dv : N / D = N / Z.pos p2 / 2 ^ n)
      by (unfold D; rewrite Z.div_div by lia; reflexivity).
    rewrite Dv in L, U.
    split.
    - assert (2 ^ 52 <= N / Z.pos p2 / 2 ^ n).
      { apply Z.div_le_lower_bound; [lia|].
        rewrite <- Z.pow_add_r by lia.
        assert (2 ^ (n + 52) <= 2 ^ (Zdigits2 (N / Z.pos p2) - 1))
          by (apply Z.pow_le_mono_r; unfold n; lia).
        lia. }
      lia.
    - assert (N / Z.pos p2 / 2 ^ n < 2 ^ 53).
      { apply Z.div_lt_upper_bound; [lia|].
        rewrite <- Z.pow_add_r by lia.
        assert (2 ^ Zdigits2 (N / Z.pos p2) <= 2 ^ (n + 53))
          by (apply Z.pow_le_mono_r; unfold n; lia).
        lia. }
      lia. }
  (* the error, on the grid of [ef] *)
  pose proof (rnd_error N D PD) as Err.
  assert (PB : 0 < 2 ^ scaleB) by (apply Z.pow_pos_nonneg; unfold scaleB; lia).
  assert (PG : 0 < 2 ^ (ef + scaleB))
    by (apply Z.pow_pos_nonneg; unfold scaleB; lia).
  assert (K : 2 ^ (- ef) * 2 ^ (ef + scaleB) = 2 ^ scaleB).
  { rewrite <- Z.pow_add_r by (unfold scaleB; lia). f_equal. lia. }
  assert (PK : 0 < 2 ^ (- ef)) by (apply Z.pow_pos_nonneg; lia).
  (* N * b = a * D * 2^(-ef) *)
  assert (P1 : 0 < 2 ^ (e1 + scaleB))
    by (apply Z.pow_pos_nonneg; unfold scaleB; lia).
  assert (P2 : 0 < 2 ^ (e2 + scaleB))
    by (apply Z.pow_pos_nonneg; unfold scaleB; lia).
  assert (Pn : 0 < 2 ^ n) by (apply Z.pow_pos_nonneg; lia).
  assert (X : 2 ^ 53 * 2 ^ (e2 + scaleB)
              = 2 ^ n * 2 ^ (- ef) * 2 ^ (e1 + scaleB)).
  { rewrite <- !Z.pow_add_r by (unfold scaleB; lia).
    f_equal. unfold n in *. unfold e' in *. lia. }
  assert (NB : N * b = a * D * 2 ^ (- ef)).
  { apply (Z.mul_reg_r _ _ (2 ^ scaleB * 2 ^ (e1 + scaleB) * 2 ^ (e2 + scaleB)));
      [nia|].
    unfold N, D.
    remember (2 ^ 53) as c53. remember (2 ^ (- ef)) as k.
    remember (2 ^ n) as pn. remember (2 ^ (e1 + scaleB)) as x1.
    remember (2 ^ (e2 + scaleB)) as x2. remember (2 ^ scaleB) as b0.
    transitivity ((Z.pos p1 * x1) * (c53 * x2) * (b * b0)); [ring|].
    rewrite S1, X, <- S2. ring. }
  assert (Bound : - (2 ^ (ef + scaleB) * b)
                  <= 2 * (rnd N D * 2 ^ (ef + scaleB) * b - a * 2 ^ scaleB)
                  <= 2 ^ (ef + scaleB) * b).
  { assert (Eq : 2 * (rnd N D * 2 ^ (ef + scaleB) * b - a * 2 ^ scaleB) * D
                 = 2 ^ (ef + scaleB) * b * (2 * (rnd N D * D - N))).
    { rewrite <- K.
      replace (2 ^ (ef + scaleB) * b * (2 * (rnd N D * D - N)))
        with (2 ^ (ef + scaleB) * (2 * (rnd N D * D * b) - 2 * (N * b)))
        by lia.
      rewrite NB. lia. }
    assert (PGb : 0 < 2 ^ (ef + scaleB) * b) by nia.
    set (g := 2 ^ (ef + scaleB) * b) in *.
    set (t := 2 * (rnd N D * 2 ^ (ef + scaleB) * b - a * 2 ^ scaleB)) in *.
    set (u := 2 * (rnd N D * D - N)) in *.
    split.
    - apply (Z.mul_le_mono_pos_r _ _ D PD). rewrite Eq. nia.
    - apply (Z.mul_le_mono_pos_r _ _ D PD). rewrite Eq. nia. }
  unfold mkfloat.
  replace (rnd N D =? 0) with false by (symmetry; apply Z.eqb_neq; lia).
  destruct (rnd N D =? 2 ^ 53) eqn:E53.
  - apply Z.eqb_eq in E53.
    exists (Z.to_pos (2 ^ 52)), (ef + 1).
    change (Z.pos (Z.to_pos (2 ^ 52))) with (2 ^ 52).
    split; [reflexivity|]. split; [lia|]. split; [unfold e' in *; lia|].
    rewrite E53 in Bound.
    replace (ef + 1 + scaleB) with (1 + (ef + scaleB)) by lia.
    rewrite (Z.pow_add_r 2 1) by (unfold scaleB; lia).
    change (2 ^ 1) with 2. change (2 ^ 53) with (2 ^ 52 * 2) in Bound.
    nia.
  - apply Z.eqb_neq in E53.
    exists (Z.to_pos (rnd N D)), ef. rewrite Z2Pos.id by lia.
    split; [reflexivity|]. split; [lia|]. split; [unfold e' in *; lia|].
    exact Bound.
Qed.

(** ** The range of the estimate *)

(** The quotient of a positive integer by one at least as large is a
    valid number between 0 and 1. *)
Lemma div_of_Z_unit a b :
  0 < a -> a <= b -> b < 2 ^ 53 ->
  valid_binary prec emax (div (of_Z a) (of_Z b)) = true
  /\ le (of_Z 0) (div (of_Z a) (of_Z b)) = true
  /\ le (div (of_Z a) (of_Z b)) (of_Z 1) = true.
Proof.
  intros Ha Hab Hb.
  destruct (div_of_Z a b ltac:(lia) ltac:(lia)) as (p & e & F & M & E & _ & U).
  rewrite F.
  assert (V : valid_binary prec emax (S754_finite false p e) = true)
    by (apply canonical_valid; lia).
  split; [exact V|]. split; [reflexivity|].
  apply le_of_scaled; try reflexivity; [exact V|].
  rewrite scaled_1. cbn [scaled].
  assert (PG : 0 < 2 ^ (e + scaleB))
    by (apply Z.pow_pos_nonneg; unfold scaleB; lia).
  assert (PB : 0 < 2 ^ scaleB) by (apply Z.pow_pos_nonneg; unfold scaleB; lia).
  set (G := 2 ^ (e + scaleB)) in *. set (B0 := 2 ^ scaleB) in *.
  (* 2 p G <= 2 B0 + G *)
  assert (T : 2 * (Z.pos p * G) <= 2 * B0 + G).
  { assert (T1 : 2 * (Z.pos p * G * b) <= (2 * B0 + G) * b) by nia.
    apply (Z.mul_le_mono_pos_r _ _ b ltac:(lia)). lia. }
  destruct (Z.le_gt_cases e (-52)) as [Le|Ge].
  - assert (J : B0 = 2 ^ (- e) * G).
    { unfold B0, G. rewrite <- Z.pow_add_r by (unfold scaleB; lia).
      f_equal. lia. }
    assert (PJ : 0 < 2 ^ (- e)) by (apply Z.pow_pos_nonneg; lia).
    rewrite J in T |- *. set (j := 2 ^ (- e)) in *.
    assert (Z.pos p <= j) by nia. nia.
  - exfalso.
    assert (J : 2 * B0 <= 2 ^ 52 * G).
    { unfold B0, G. change 2 with (2 ^ 1) at 1.
      rewrite <- !Z.pow_add_r by (unfold scaleB; lia).
      apply Z.pow_le_mono_r; lia. }
    nia.
Qed.

Section EstimateRange.

Variable data : list Z.
Variable N : Z.
Hypothesis data_pixels : Z.of_nat (List.length data) = 4 * N.
Hypothesis data_bytes : forallb isByte data = true.
Hypothesis two_pixels : 2 <= N.
Hypothesis small : 765 * N < 2 ^ 53.

Lemma complexity_unit :
  valid_binary prec emax (complexityOfData data) = true
  /\ le (of_Z 0) (complexityOfData data) = true
  /\ le (complexityOfData data) (of_Z 1) = true.
Proof.
  unfold complexityOfData.
  rewrite (diffSums_pixels data N data_pixels data_bytes) by lia.
  pose proof (sumDiffs_bounds data N data_pixels data_bytes
                (Z.to_nat (N - 1)) 0 ltac:(lia) ltac:(lia)) as [L U].
  rewrite Z2Nat.id in U by lia.
  destruct (Z.eq_dec (sumDiffs data 0 (Z.to_nat (N - 1))) 0) as [E|NE].
  - rewrite E.
    destruct (of_Z_normal (765 * (N - 1)) ltac:(lia)) as (p & e & -> & _).
    repeat split.
  - apply div_of_Z_unit; lia.
Qed.

Lemma suggested_of_canvas :
  exists k, 60 <= k <= 90
            /\ suggestedQuality (complexityOfData data) = of_Z k.
Proof.
  destruct complexity_unit as (V & L0 & L1).
  destruct (suggestedQuality_scaled _ V L0 L1) as (_ & R & Q).
  destruct (suggestedScaled_range _ R) as (_ & _ & K).
  exists (suggestedScaled (scaled (complexityOfData data))).
  split; [exact K|exact Q].
Qed.

End EstimateRange.

(** ** The size of the canvas *)

Lemma isNaN_of_Z a : 0 <= a < 2 ^ 53 -> isNaN (of_Z a) = false.
Proof.
  intros H. destruct (Z.eq_dec a 0) as [->|N]; [reflexivity|].
  destruct (of_Z_normal a ltac:(lia)) as (p & e & -> & _). reflexivity.
Qed.

Lemma Math_max_of_Z w h :
  0 <= w < 2 ^ 53 -> 0 <= h < 2 ^ 53 ->
  Math_max (of_Z w) (of_Z h) = of_Z (Z.max w h).
Proof.
  intros Hw Hh. unfold Math_max.
  rewrite !isNaN_of_Z by assumption. cbn [orb].
  pose proof (gt_of_Z h w Hh Hw) as G. unfold gt in G. unfold lt.
  rewrite G. destruct (w <? h) eqn:C.
  - apply Z.ltb_lt in C. rewrite Z.max_r by lia. reflexivity.
  - apply Z.ltb_ge in C. rewrite Z.max_l by lia. reflexivity.
Qed.

(** [Math.floor] of a positive number below 2^52. *)
Lemma Math_floor_finite p e :
  -1074 <= e < 0 ->
  Math_floor (S754_finite false p e)
  = of_Z (Z.pos p * 2 ^ (e + scaleB) / 2 ^ scaleB).
Proof.
  intros He.
  assert (Pe : 0 < 2 ^ (e + scaleB))
    by (apply Z.pow_pos_nonneg; unfold scaleB; lia).
  assert (Pn : 0 < 2 ^ (- e)) by (apply Z.pow_pos_nonneg; lia).
  assert (S : 2 ^ (- e) * 2 ^ (e + scaleB) = 2 ^ scaleB).
  { rewrite <- Z.pow_add_r by (unfold scaleB; lia). f_equal. lia. }
  assert (Q : Z.pos p / 2 ^ (- e)
              = Z.pos p * 2 ^ (e + scaleB) / 2 ^ scaleB).
  { rewrite <- S. rewrite Z.div_mul_cancel_r by lia. reflexivity. }
  unfold Math_floor.
  replace (0 <=? e) with false by (symmetry; apply Z.leb_gt; lia).
  rewrite Q.
  destruct (Z.pos p * 2 ^ (e + scaleB) / 2 ^ scaleB =? 0) eqn:Z0;
    [|reflexivity].
  apply Z.eqb_eq in Z0. rewrite Z0. reflexivity.
Qed.

Lemma Math_floor_of_Z a : 0 <= a < 2 ^ 53 -> Math_floor (of_Z a) = of_Z a.
Proof.
  intros H. destruct (Z.eq_dec a 0) as [->|N]; [reflexivity|].
  destruct (of_Z_normal a ltac:(lia)) as (p & e & F & _ & E & S & _).
  rewrite F. destruct (Z.eq_dec e 0) as [->|Ne]; [reflexivity|].
  rewrite Math_floor_finite by lia.
  rewrite S, Z.div_mul, <- F; [reflexivity|].
  assert (0 < 2 ^ scaleB) by (apply Z.pow_pos_nonneg; unfold scaleB; lia).
  lia.
Qed.

(** [Math.floor] of the number a non-negative real below 2^52 rounds to. *)
Lemma Math_floor_scaled W :
  0 <= W -> roundedScaled W < 2 ^ (52 + scaleB) ->
  Math_floor (floatOfScaled W) = of_Z (roundedScaled W / 2 ^ scaleB).
Proof.
  intros HW U. destruct (Z.eq_dec W 0) as [->|N]; [reflexivity|].
  destruct (floatOfScaled_shape W ltac:(lia))
    as [[Fz Rz]|(p & e & F & Val & E & C & Up)].
  - rewrite Fz, Rz. reflexivity.
  - rewrite F, <- Val. apply Math_floor_finite. split; [exact E|].
    destruct (Z.lt_ge_cases e 0) as [G|G]; [exact G|exfalso].
    assert (2 ^ 52 <= Z.pos p) by lia.
    assert (2 ^ (52 + scaleB) <= 2 ^ 52 * 2 ^ (e + scaleB)).
    { rewrite <- Z.pow_add_r by (unfold scaleB; lia).
      apply Z.pow_le_mono_r; lia. }
    assert (0 < 2 ^ (e + scaleB))
      by (apply Z.pow_pos_nonneg; unfold scaleB; lia).
    nia.
Qed.

(** A mantissa on a grid of binary64 is a binary64 number. *)
Lemma roundedScaled_exact_at a E :
  0 < a < 2 ^ 53 -> -1074 <= E ->
  roundedScaled (a * 2 ^ (E + scaleB)) = a * 2 ^ (E + scaleB).
Proof.
  intros [L U] HE. unfold roundedScaled.
  destruct a as [|p|p]; try lia.
  assert (D : Z.pos (digits2_pos p) <= 53).
  { pose proof (digits_upper p 0 53 ltac:(lia)) as H.
    rewrite Z.mul_1_r in H. specialize (H U). lia. }
  assert (G : 0 <= gridOf (Z.pos p * 2 ^ (E + scaleB)) <= E + scaleB).
  { rewrite gridOf_scale by (unfold scaleB; lia).
    unfold fexp64, scaleB. lia. }
  set (g := gridOf (Z.pos p * 2 ^ (E + scaleB))) in *.
  replace (Z.pos p * 2 ^ (E + scaleB))
    with (Z.pos p * 2 ^ (E + scaleB - g) * 2 ^ g).
  - rewrite rne_exact by lia. reflexivity.
  - rewrite <- Z.mul_assoc, <- Z.pow_add_r by lia. f_equal. f_equal. lia.
Qed.

(** Rounding keeps a real between two binary64 numbers between them. *)
Lemma roundedScaled_between L W U :
  0 <= L -> L <= W -> W <= U ->
  roundedScaled L = L -> roundedScaled U = U ->
  L <= roundedScaled W <= U.
Proof.
  intros H0 H1 H2 EL EU. split.
  - rewrite <- EL. apply roundedScaled_mono; lia.
  - rewrite <- EU. apply roundedScaled_mono; lia.
Qed.

(** A point [(n * 2^33 + j) / 2^33] with few bits is a binary64 number. *)
Lemma grid33_exact a :
  0 <= a < 2 ^ 53 ->
  roundedScaled (a * 2 ^ (scaleB - 33)) = a * 2 ^ (scaleB - 33).
Proof.
  intros H. destruct (Z.eq_dec a 0) as [->|N]; [reflexivity|].
  replace (scaleB - 33) with (-33 + scaleB) by lia.
  apply roundedScaled_exact_at; lia.
Qed.

(** The arithmetic of [canvas_side]: [Wm] is the product, times [m], of
    a side [x] and the computed scale, known up to [x * u / 2]. *)
Lemma side_bounds u m k x rho Wm :
  0 < u -> 256 < m < 2 ^ 32 -> 1 <= x <= m ->
  256 * x = m * k + rho -> 0 <= rho < m ->
  512 * x * (2 ^ 43 * u) - x * u <= 2 * Wm <= 512 * x * (2 ^ 43 * u) + x * u ->
  (rho = 0 ->
   (k * 2 ^ 33 - 1) * (2 ^ 10 * u) * (2 * m) <= 2 * Wm
   /\ 2 * Wm <= (k * 2 ^ 33 + 1) * (2 ^ 10 * u) * (2 * m))
  /\ (0 < rho ->
      k * (2 ^ 43 * u) * (2 * m) <= 2 * Wm
      /\ 2 * Wm <= ((k + 1) * 2 ^ 33 - 1) * (2 ^ 10 * u) * (2 * m)).
Proof.
  intros Pu Hm Hx KR RB WM.
  assert (XU : x * u <= m * u) by (apply Z.mul_le_mono_nonneg_r; lia).
  assert (MU : m * u < 2 ^ 32 * u) by (apply Z.mul_lt_mono_pos_r; lia).
  assert (XB : x * u * 256 = m * k * u + rho * u).
  { replace (x * u * 256) with (256 * x * u) by ring. rewrite KR. ring. }
  assert (MU0 : 0 < m * u) by (apply Z.mul_pos_pos; lia).
  split.
  - intros ->. lia.
  - intros R. 
    assert (R1 : 1 * u <= rho * u) by (apply Z.mul_le_mono_nonneg_r; lia).
    assert (R2 : rho * u <= (m - 1) * u) by (apply Z.mul_le_mono_nonneg_r; lia).
    lia.
Qed.

(** One side of the canvas of a large image. *)
Lemma canvas_side x m :
  256 < m < 2 ^ 32 -> 1 <= x <= m ->
  exists side,
    Math_floor (mul (of_Z x) (div (of_Z 256) (of_Z m))) = of_Z side
    /\ nearFloor x m side /\ 0 <= side <= 256.
Proof.
  intros Hm Hx.
  assert (A256 : 0 < 256 < 2 ^ 53) by lia.
  assert (Am : 0 < m < 2 ^ 53) by lia.
  assert (Ax : 0 < x < 2 ^ 53) by lia.
  destruct (div_of_Z 256 m A256 Am) as (p & e & F & M & E & Err).
  destruct (of_Z_normal x Ax) as (px & ex & Fx & Mx & Ex & Sx & _).
  rewrite F, Fx.
  assert (PG : 0 < 2 ^ (e + scaleB))
    by (apply Z.pow_pos_nonneg; unfold scaleB; lia).
  assert (Pu : 0 < 2 ^ (scaleB - 43))
    by (apply Z.pow_pos_nonneg; unfold scaleB; lia).
  assert (Bu : 2 ^ scaleB = 2 ^ 43 * 2 ^ (scaleB - 43)).
  { rewrite <- Z.pow_add_r by (unfold scaleB; lia). f_equal; lia. }
  assert (Tu : 2 ^ (scaleB - 33) = 2 ^ 10 * 2 ^ (scaleB - 43)).
  { rewrite <- Z.pow_add_r by (unfold scaleB; lia). f_equal; lia. }
  assert (P1 : 2 ^ (ex + e + scaleB) * 2 ^ scaleB
               = 2 ^ (ex + scaleB) * 2 ^ (e + scaleB)).
  { rewrite <- !Z.pow_add_r by (unfold scaleB; lia). f_equal; lia. }
  assert (Big : 2 ^ (1023 + scaleB) = 2 ^ 1023 * 2 ^ scaleB)
    by (apply Z.pow_add_r; unfold scaleB; lia).
  assert (Big52 : 2 ^ (52 + scaleB) = 2 ^ 52 * 2 ^ scaleB)
    by (apply Z.pow_add_r; unfold scaleB; lia).
  remember (2 ^ (ex + e + scaleB)) as gw eqn:Egw.
  remember (2 ^ (ex + scaleB)) as gx eqn:Egx.
  remember (2 ^ (e + scaleB)) as G eqn:EG.
  remember (2 ^ (scaleB - 43)) as u eqn:Eu.
  remember (2 ^ (scaleB - 33)) as T eqn:ET.
  remember (2 ^ scaleB) as B eqn:EB.
  remember (2 ^ (1023 + scaleB)) as big eqn:Ebig.
  remember (2 ^ (52 + scaleB)) as big52 eqn:Ebig52.
  set (V := Z.pos p * G) in *.
  set (W := Z.pos px * Z.pos p * gw).
  assert (PB : 0 < B) by lia.
  assert (HW : W = x * V).
  { apply (Z.mul_reg_r _ _ B); [lia|].
    transitivity (Z.pos px * Z.pos p * (gw * B)); [unfold W; ring|].
    rewrite P1. transitivity ((Z.pos px * gx) * V); [unfold V; ring|].
    rewrite Sx. ring. }
  set (Gm := G * m) in *.
  assert (PGm : 0 <= Gm) by (unfold Gm; apply Z.mul_nonneg_nonneg; lia).
  assert (VG : 2 ^ 52 * Gm <= V * m).
  { replace (V * m) with (Z.pos p * Gm) by (unfold V, Gm; ring).
    apply Z.mul_le_mono_nonneg_r; lia. }
  assert (GM : Gm <= u) by lia.
  set (k := 256 * x / m). set (rho := (256 * x) mod m).
  assert (KR : 256 * x = m * k + rho) by (apply Z.div_mod; lia).
  assert (RB : 0 <= rho < m) by (apply Z.mod_pos_bound; lia).
  assert (K0 : 0 <= k) by (apply Z.div_pos; lia).
  assert (K256 : k <= 256).
  { unfold k. apply Z.div_le_upper_bound; lia. }
  assert (KB : (k + 1) * B <= 257 * B)
    by (apply Z.mul_le_mono_nonneg_r; lia).
  assert (WM : 512 * x * (2 ^ 43 * u) - x * u <= 2 * (W * m)
               <= 512 * x * (2 ^ 43 * u) + x * u).
  { rewrite <- Bu.
    replace (2 * (W * m)) with (x * (2 * (V * m))) by (rewrite HW; ring).
    assert (X1 : x * (512 * B - u) <= x * (2 * (V * m)))
      by (apply Z.mul_le_mono_nonneg_l; lia).
    assert (X2 : x * (2 * (V * m)) <= x * (512 * B + u))
      by (apply Z.mul_le_mono_nonneg_l; lia).
    lia. }
  destruct (side_bounds u m k x rho (W * m) Pu Hm Hx KR RB WM) as [SI SN].
  assert (MP : 2 ^ 52 <= Z.pos px * Z.pos p).
  { assert (2 ^ 52 * 1 <= Z.pos px * Z.pos p)
      by (apply Z.mul_le_mono_nonneg; lia).
    lia. }
  assert (M2 : 0 < 2 * m) by lia.
  assert (W2 : W * (2 * m) = 2 * (W * m)) by ring.
  assert (Fin : forall L U,
             0 <= L -> L * (2 * m) <= 2 * (W * m) ->
             2 * (W * m) <= U * (2 * m) ->
             roundedScaled L = L -> roundedScaled U = U ->
             U < (k + 1) * B ->
             Math_floor (mul (S754_finite false px ex) (S754_finite false p e))
             = of_Z (roundedScaled W / B)
             /\ L <= roundedScaled W < (k + 1) * B).
  { intros L U L0 LW WU EL EU UB.
    assert (LW' : L <= W).
    { apply (proj2 (Z.mul_le_mono_pos_r L W (2 * m) M2)).
      rewrite W2. exact LW. }
    assert (WU' : W <= U).
    { apply (proj2 (Z.mul_le_mono_pos_r W U (2 * m) M2)).
      rewrite W2. exact WU. }
    pose proof (roundedScaled_between L W U L0 LW' WU' EL EU) as [R1 R2].
    rewrite mul_scaled.
    - rewrite <- Egw. fold W. rewrite EB. split; [|lia].
      apply Math_floor_scaled; [lia|]. rewrite <- Ebig52, Big52. lia.
    - unfold scaleB. lia.
    - exact MP.
    - rewrite <- Egw, <- Ebig, Big. fold W. lia. }
  assert (PT : 0 < T) by lia.
  destruct (Z.eq_dec rho 0) as [R0|R0].
  - (* 256 x / m is an integer *)
    assert (K1 : 1 <= k).
    { destruct (Z.eq_dec k 0) as [K|K]; [|lia]. rewrite K, R0 in KR. lia. }
    destruct (SI R0) as [S1 S2].
    destruct (Fin ((k * 2 ^ 33 - 1) * T) ((k * 2 ^ 33 + 1) * T))
      as (FL & RL & RU).
    + apply Z.mul_nonneg_nonneg; lia.
    + rewrite Tu. exact S1.
    + rewrite Tu. exact S2.
    + rewrite ET. apply grid33_exact. lia.
    + rewrite ET. apply grid33_exact. lia.
    + rewrite Tu, Bu. lia.
    + assert (RL' : (k - 1) * B <= roundedScaled W)
        by (rewrite Tu in RL; rewrite Bu; lia).
      destruct (Z.le_gt_cases (k * B) (roundedScaled W)) as [C|C].
      * exists k. split; [|split; [left; reflexivity|lia]].
        rewrite FL. f_equal. symmetry.
        apply (Z.div_unique _ _ _ (roundedScaled W - k * B)); lia.
      * exists (k - 1).
        split; [|split; [right; split; [exact R0|reflexivity]|lia]].
        rewrite FL. f_equal. symmetry.
        apply (Z.div_unique _ _ _ (roundedScaled W - (k - 1) * B)); lia.
  - destruct (SN ltac:(lia)) as [S1 S2].
    destruct (Fin (k * B) (((k + 1) * 2 ^ 33 - 1) * T)) as (FL & RL & RU).
    + apply Z.mul_nonneg_nonneg; lia.
    + rewrite Bu. exact S1.
    + rewrite Tu. exact S2.
    + destruct (Z.eq_dec k 0) as [Ek|Nk].
      * rewrite Ek, Z.mul_0_l. apply roundedScaled_0.
      * rewrite EB. apply roundedScaled_exact. lia.
    + rewrite ET. apply grid33_exact. lia.
    + rewrite Tu, Bu. lia.
    + exists k. split; [|split; [left; reflexivity|lia]].
      rewrite FL. f_equal. symmetry.
      apply (Z.div_unique _ _ _ (roundedScaled W - k * B)); lia.
Qed.

Lemma scaledSize_small w h :
  1 <= w -> 1 <= h -> Z.max w h <= 256 ->
  scaledSize w h = (of_Z w, of_Z h).
Proof.
  intros Hw Hh Hm. unfold scaledSize. cbv zeta.
  rewrite Math_max_of_Z by lia.
  rewrite gt_of_Z by lia.
  replace (256 <? Z.max w h) with false by (symmetry; apply Z.ltb_ge; lia).
  rewrite (mul_of_Z w 1), (mul_of_Z h 1) by lia.
  rewrite !Z.mul_1_r, !Math_floor_of_Z by lia. reflexivity.
Qed.

Lemma scaledSize_large w h :
  1 <= w < 2 ^ 32 -> 1 <= h < 2 ^ 32 -> 256 < Z.max w h ->
  exists a b,
    scaledSize w h = (of_Z a, of_Z b)
    /\ nearFloor w (Z.max w h) a /\ nearFloor h (Z.max w h) b
    /\ 0 <= a <= 256 /\ 0 <= b <= 256.
Proof.
  intros Hw Hh Hm. unfold scaledSize. cbv zeta.
  rewrite Math_max_of_Z by lia.
  rewrite gt_of_Z by lia.
  replace (256 <? Z.max w h) with true by (symmetry; apply Z.ltb_lt; lia).
  destruct (canvas_side w (Z.max w h) ltac:(lia) ltac:(lia)) as (a & Fa & Na & Ba).
  destruct (canvas_side h (Z.max w h) ltac:(lia) ltac:(lia)) as (b & Fb & Nb & Bb).
  exists a, b. rewrite Fa, Fb. repeat split; try assumption; lia.
Qed.

(** The longer side of a large image becomes 255 or 256. *)
Lemma nearFloor_longer m side :
  0 < m -> nearFloor m m side -> side = 255 \/ side = 256.
Proof.
  intros Hm [E|[_ E]]; rewrite Z.div_mul in E by lia; lia.
Qed.

(** A side at least a 128th of the longer one keeps a pixel. *)
Lemma nearFloor_positive x m side :
  0 < m -> m <= 128 * x -> nearFloor x m side -> 1 <= side.
Proof.
  intros Hm Hx N.
  assert (2 <= 256 * x / m) by (apply Z.div_le_lower_bound; lia).
  destruct N as [E|[_ E]]; lia.
Qed.

(** A side less than a 256th of the longer one keeps none. *)
Lemma nearFloor_zero x m side :
  1 <= x -> 256 * x < m -> nearFloor x m side -> side = 0.
Proof.
  intros Hx Hm [E|[R _]].
  - rewrite E. apply Z.div_small. lia.
  - rewrite Z.mod_small in R by lia. lia.
Qed.

(** Whatever the image, the canvas is at most 256 by 256. *)
Lemma scaledSize_bounded w h :
  1 <= w < 2 ^ 32 -> 1 <= h < 2 ^ 32 ->
  exists a b,
    scaledSize w h = (of_Z a, of_Z b)
    /\ 0 <= a <= 256 /\ 0 <= b <= 256
    /\ (Z.max w h <= 128 * Z.min w h -> 1 <= a /\ 1 <= b)
    /\ (2 <= w * h -> Z.max w h <= 128 * Z.min w h -> 2 <= a * b).
Proof.
  intros Hw Hh. destruct (Z.le_gt_cases (Z.max w h) 256) as [S|L].
  - exists w, h. rewrite scaledSize_small by lia.
    split; [reflexivity|]. repeat split; lia.
  - destruct (scaledSize_large w h Hw Hh L) as (a & b & E & Na & Nb & Ba & Bb).
    exists a, b. split; [exact E|]. split; [exact Ba|]. split; [exact Bb|].
    assert (P : Z.max w h <= 128 * Z.min w h -> 1 <= a /\ 1 <= b).
    { intros R. split.
      - apply (nearFloor_positive w (Z.max w h)); [lia|lia|exact Na].
      - apply (nearFloor_positive h (Z.max w h)); [lia|lia|exact Nb]. }
    split; [exact P|]. intros _ R. destruct (P R) as [A1 B1].
    destruct (Z.le_ge_cases w h) as [C|C].
    + rewrite Z.max_r in Nb by lia.
      destruct (nearFloor_longer h b ltac:(lia) Nb); nia.
    + rewrite Z.max_l in Na by lia.
      destruct (nearFloor_longer w a ltac:(lia) Na); nia.
Qed.

Lemma to_Z_of_Z a : 0 <= a <= 256 -> to_Z (of_Z a) = Some a.
Proof.
  intros H.
  assert (A : forallb (fun a => match to_Z (of_Z a) with
                                | Some b => a =? b
                                | None => false
                                end) (zrange 0 257) = true)
    by (vm_compute; reflexivity).
  rewrite forallb_forall in A.
  specialize (A a (zrange_In 0 257 a ltac:(lia))).
  destruct (to_Z (of_Z a)) as [b|]; [|discriminate].
  apply Z.eqb_eq in A. congruence.
Qed.

Lemma uniform_length n r g b a :
  List.length (Sample.uniformCanvas n r g b a) = (4 * n)%nat.
Proof.
  induction n as [|n IH]; [reflexivity|].
  change (Sample.uniformCanvas (S n) r g b a)
    with (r :: g :: b :: a :: Sample.uniformCanvas n r g b a).
  cbn [List.length]. rewrite IH. lia.
Qed.

Lemma blackCanvas_contract : canvasContract Examples.blackCanvas.
Proof.
  intros image a b Ha Hb. unfold Examples.blackCanvas.
  rewrite !to_Z_of_Z by lia. split.
  - rewrite uniform_length. lia.
  - apply uniform_bytes; reflexivity.
Qed.

Section CanvasFacts.

Variable getImageData : Image -> number -> number -> list Z.
Hypothesis contract : canvasContract getImageData.

Variable image : Image.
Hypothesis width_range : 1 <= naturalWidth image < 2 ^ 32.
Hypothesis height_range : 1 <= naturalHeight image < 2 ^ 32.
Hypothesis pixels : 2 <= naturalWidth image * naturalHeight image.
Hypothesis aspect :
  Z.max (naturalWidth image) (naturalHeight image)
  <= 128 * Z.min (naturalWidth image) (naturalHeight image).

Lemma computeComplexity_data :
  exists data N,
    computeComplexity getImageData image = complexityOfData data
    /\ Z.of_nat (List.length data) = 4 * N
    /\ forallb isByte data = true
    /\ 2 <= N /\ 765 * N < 2 ^ 53.
Proof.
  destruct (scaledSize_bounded _ _ width_range height_range)
    as (a & b & E & Ba & Bb & P & Q).
  destruct (P aspect) as [A1 B1]. specialize (Q pixels aspect).
  destruct (contract image a b ltac:(lia) ltac:(lia)) as [L Y].
  exists (getImageData image (of_Z a) (of_Z b)), (a * b).
  unfold computeComplexity. rewrite E.
  split; [reflexivity|]. split; [exact L|]. split; [exact Y|].
  split; [exact Q|]. nia.
Qed.

End CanvasFacts.

(** ** The budget and the label *)

Lemma sameNumber_eq x y : sameNumber x y = true -> x = y.
Proof.
  destruct x as [a|a| |a m e], y as [b|b| |b m' e']; cbn [sameNumber];
    try discriminate; try reflexivity.
  - intros H. apply Bool.eqb_prop in H. congruence.
  - intros H. apply Bool.eqb_prop in H. congruence.
  - intros H. apply andb_prop in H. destruct H as [H He].
    apply andb_prop in H. destruct H as [Hs Hm].
    apply Bool.eqb_prop in Hs. apply Pos.eqb_eq in Hm. apply Z.eqb_eq in He.
    congruence.
Qed.

Lemma labelChecked_all n : 0 <= n <= 100 -> labelChecked n = true.
Proof.
  intros H.
  assert (A : forallb labelChecked (zrange 0 101) = true)
    by (vm_compute; reflexivity).
  rewrite forallb_forall in A. apply A, zrange_In. lia.
Qed.

Lemma labelChecked_facts n K k :
  0 <= n <= 100 ->
  floorSteps 18 (fraction n) = Some K -> (k <= K)%nat ->
  Math_round (mul (descent (fraction n) k) (of_Z 100))
  = of_Z (n - 5 * Z.of_nat k)
  /\ (gt (descent (fraction n) k) lit_0_2 = false ->
      n - 5 * Z.of_nat k <= 20).
Proof.
  intros Hn HK Hk. pose proof (labelChecked_all n Hn) as C.
  unfold labelChecked in C. rewrite HK in C.
  rewrite forallb_forall in C.
  specialize (C k ltac:(apply in_seq; lia)). cbv zeta in C.
  apply andb_prop in C. destruct C as [C1 C2]. split.
  - apply sameNumber_eq. exact C1.
  - intros G. rewrite G in C2. cbn [orb] in C2. apply Z.leb_le. exact C2.
Qed.

(** The two tests of a budget that is a whole number of kilobytes. *)
Lemma budget_tests blob t :
  1 <= t -> 1024 * t < 2 ^ 53 -> size blob < 2 ^ 53 ->
  hasBudget (of_Z t) = true
  /\ overBudget blob (of_Z t) = (1024 * t <? size blob).
Proof.
  intros Ht Hs Hb. split.
  - unfold hasBudget. rewrite isNaN_of_Z by lia.
    rewrite gt_of_Z by lia. cbn [negb andb]. apply Z.ltb_lt. lia.
  - unfold overBudget. rewrite mul_of_Z by lia.
    rewrite gt_of_Z.
    + f_equal. lia.
    + unfold size in *. lia.
    + lia.
Qed.

Section ConversionFacts.

Variable codec : Codec.
Variable fuel : nat.
Variable targetValue : string.
Variable entry : Entry.
Variable n : Z.
Hypothesis enough : (18 <= fuel)%nat.
Hypothesis quality_n : quality entry = of_Z n.
Hypothesis n_range : 0 <= n <= 100.

Lemma firstQuality_fraction : firstQuality entry = fraction n.
Proof. unfold firstQuality, fraction. rewrite quality_n. reflexivity. Qed.

(** A conversion of an entry with a quality from 0 to 100 ends; it made
    the first request and [k] more, and ends with the quality after [k]
    passes. *)
Lemma encode_run w :
  exists blob k K,
    encode codec fuel targetValue entry w
    = Some (blob, descent (fraction n) k,
            w ++ mkCall (img entry) (fraction n)
              :: descentCalls (img entry) (fraction n) k)
    /\ floorSteps 18 (fraction n) = Some K /\ (k <= K)%nat.
Proof.
  destruct (descentChecked_facts n n_range) as (K & HK & _).
  assert (HK' : floorSteps fuel (firstQuality entry) = Some K).
  { rewrite firstQuality_fraction.
    apply (floorSteps_more 18); [exact HK|exact enough]. }
  destruct (encode_total codec fuel targetValue entry w K HK')
    as (blob & q & w' & E).
  destruct (encode_shape codec fuel targetValue entry w blob q w' E)
    as (k & _ & Hq & Hw & Habove & _).
  rewrite firstQuality_fraction in Hq, Hw, Habove.
  exists blob, k, K. rewrite E, Hq, Hw.
  split; [reflexivity|]. split; [exact HK|].
  apply (above_floor_within 18 (fraction n)); assumption.
Qed.

End ConversionFacts.

(** ** The opacity *)

Lemma mapAlpha_pixel f r g b a rest :
  mapAlpha f (r :: g :: b :: a :: rest)
  = r :: g :: b :: f a :: mapAlpha f rest.
Proof. reflexivity. Qed.

Lemma mapAlpha_facts f : forall n data,
  (List.length data <= n)%nat ->
  List.length (mapAlpha f data) = List.length data
  /\ forall i, (i mod 4 <> 3)%nat ->
       nth_error (mapAlpha f data) i = nth_error data i.
Proof.
  induction n as [n IH] using lt_wf_ind. intros data Hn.
  destruct data as [|r [|g [|b [|a rest]]]];
    try (split; [reflexivity|intros; reflexivity]).
  rewrite mapAlpha_pixel. cbn [List.length] in Hn.
  destruct (IH (List.length rest) ltac:(lia) rest (le_n _)) as [L E].
  split; [cbn [List.length]; rewrite L; reflexivity|].
  intros i Hi.
  destruct i as [|[|[|[|i]]]]; try reflexivity.
  - exfalso. apply Hi. reflexivity.
  - cbn [nth_error]. apply E.
    intros C. apply Hi.
    replace (S (S (S (S i)))) with (i + 1 * 4)%nat by lia.
    rewrite Nat.Div0.mod_add. exact C.
Qed.

Lemma byteAt_mapAlpha f data j :
  0 <= j -> j mod 4 <> 3 ->
  byteAt (mapAlpha f data) j = byteAt data j.
Proof.
  intros Hj Hm. unfold byteAt.
  destruct (mapAlpha_facts f _ data (le_n _)) as [_ E].
  rewrite E; [reflexivity|].
  intros C. apply Hm.
  rewrite <- (Z2Nat.id j) by lia.
  change 4 with (Z.of_nat 4). rewrite <- Nat2Z.inj_mod, C. reflexivity.
Qed.

Lemma diffLoop_mapAlpha f data fuel : forall j diffSum maxDiff,
  0 <= j -> j mod 4 = 0 ->
  diffLoop fuel (mapAlpha f data) j diffSum maxDiff
  = diffLoop fuel data j diffSum maxDiff.
Proof.
  destruct (mapAlpha_facts f _ data (le_n _)) as [L _].
  induction fuel as [|fuel IH]; intros j diffSum maxDiff Hj Hm;
    [reflexivity|].
  cbn [diffLoop]. rewrite L.
  assert (M : forall c, 0 <= c -> (j + c) mod 4 = c mod 4).
  { intros c Hc. rewrite Z.add_mod, Hm, Z.add_0_l, Z.mod_mod by lia.
    reflexivity. }
  rewrite !byteAt_mapAlpha;
    try lia;
    try (rewrite M by lia; cbn; lia);
    try (rewrite Hm; lia).
  rewrite IH; [reflexivity|lia|rewrite M by lia; reflexivity].
Qed.

(** X16 (computeComplexity, lines 87 to 94): the estimate never reads
    the opacity of a pixel: replacing the fourth byte of every pixel by
    anything leaves it unchanged. *)
Theorem complexity_ignores_alpha (f : Z -> Z) (data : list Z) :
  complexityOfData (mapAlpha f data) = complexityOfData data.
Proof.
  unfold complexityOfData, diffSums.
  destruct (mapAlpha_facts f _ data (le_n _)) as [L _].
  rewrite L, diffLoop_mapAlpha by (try lia; reflexivity). reflexivity.
Qed.

(** ** The ends of the range *)

(** A quotient of two integers below 2^53 is 1 exactly when they are
    equal. *)
Lemma div_of_Z_one a b :
  0 < a -> a <= b -> b < 2 ^ 53 ->
  div (of_Z a) (of_Z b) = of_Z 1 <-> a = b.
Proof.
  intros Ha Hab Hb.
  assert (Aa : 0 < a < 2 ^ 53) by lia.
  assert (Ab : 0 < b < 2 ^ 53) by lia.
  destruct (div_of_Z a b Aa Ab) as (p & e & F & M & E & Err).
  rewrite F.
  assert (PG : 0 < 2 ^ (e + scaleB))
    by (apply Z.pow_pos_nonneg; unfold scaleB; lia).
  assert (PB : 0 < 2 ^ scaleB) by (apply Z.pow_pos_nonneg; unfold scaleB; lia).
  change (of_Z 1) with (S754_finite false 4503599627370496 (-52)).
  split.
  - intros H. injection H as Hp He. subst e.
    assert (V : Z.pos p = 2 ^ 52) by (rewrite Hp; reflexivity).
    rewrite V in Err.
    assert (S : 2 ^ scaleB = 2 ^ 52 * 2 ^ (-52 + scaleB)).
    { rewrite <- Z.pow_add_r by (unfold scaleB; lia). f_equal; lia. }
    remember (2 ^ (-52 + scaleB)) as G eqn:EG.
    rewrite S in Err.
    assert (T : 2 * (2 ^ 52 * G * b - a * (2 ^ 52 * G))
                = 2 ^ 53 * ((b - a) * G)) by ring.
    rewrite T in Err. destruct Err as [_ U].
    destruct (Z.eq_dec a b) as [Eab|Nab]; [exact Eab|exfalso].
    assert (1 * G <= (b - a) * G)
      by (apply Z.mul_le_mono_nonneg_r; lia).
    assert (G * b < G * 2 ^ 53) by (apply Z.mul_lt_mono_pos_l; lia).
    lia.
  - intros <-.
    assert (T : 2 * (Z.pos p * 2 ^ (e + scaleB) * a - a * 2 ^ scaleB)
                = a * (2 * (Z.pos p * 2 ^ (e + scaleB) - 2 ^ scaleB)))
      by ring.
    rewrite T in Err.
    assert (He : e <= 0).
    { destruct (Z.le_gt_cases e 0) as [L|G]; [exact L|exfalso].
      assert (S : 2 * 2 ^ scaleB <= 2 ^ (e + scaleB)).
      { change 2 with (2 ^ 1) at 1.
        rewrite <- Z.pow_add_r by (unfold scaleB; lia).
        apply Z.pow_le_mono_r; lia. }
      remember (2 ^ (e + scaleB)) as G0 eqn:EG.
      remember (2 ^ scaleB) as B0 eqn:EB.
      assert (2 ^ 52 * G0 <= Z.pos p * G0)
        by (apply Z.mul_le_mono_nonneg_r; lia).
      destruct Err as [_ U].
      assert (a * (2 * (Z.pos p * G0 - B0)) <= a * G0 ->
              2 * (Z.pos p * G0 - B0) <= G0)
        by (intros X; apply (Z.mul_le_mono_pos_l _ _ a); lia).
      lia. }
    assert (S : 2 ^ scaleB = 2 ^ (- e) * 2 ^ (e + scaleB)).
    { rewrite <- Z.pow_add_r by (unfold scaleB; lia). f_equal; lia. }
    assert (PJ : 0 < 2 ^ (- e)) by (apply Z.pow_pos_nonneg; lia).
    remember (2 ^ (e + scaleB)) as G0 eqn:EG.
    remember (2 ^ (- e)) as j eqn:Ej.
    rewrite S in Err.
    assert (T2 : a * (2 * (Z.pos p * G0 - j * G0))
                 = (a * G0) * (2 * (Z.pos p - j))) by ring.
    rewrite T2 in Err.
    assert (PA : 0 < a * G0) by (apply Z.mul_pos_pos; lia).
    assert (PJe : Z.pos p = j).
    { destruct (Z.lt_trichotomy (Z.pos p) j) as [L|[Q|G]]; [exfalso|exact Q|exfalso].
      - assert ((a * G0) * (2 * (Z.pos p - j)) <= (a * G0) * (-2))
          by (apply Z.mul_le_mono_nonneg_l; lia).
        lia.
      - assert ((a * G0) * 2 <= (a * G0) * (2 * (Z.pos p - j)))
          by (apply Z.mul_le_mono_nonneg_l; lia).
        lia. }
    assert (E52 : - e = 52).
    { rewrite PJe, Ej in M. destruct M as [M1 M2].
      apply Z.pow_le_mono_r_iff in M1; [|lia|lia].
      apply Z.pow_lt_mono_r_iff in M2; [|lia|lia]. lia. }
    assert (e = -52) by lia. subst e.
    rewrite Ej in PJe. change (2 ^ (- -52)) with (Z.pos 4503599627370496) in PJe.
    injection PJe as ->. reflexivity.
Qed.

(** A quotient of two such integers is 0 exactly when the first is. *)
Lemma div_of_Z_zero a b :
  0 <= a < 2 ^ 53 -> 0 < b < 2 ^ 53 ->
  div (of_Z a) (of_Z b) = of_Z 0 <-> a = 0.
Proof.
  intros Ha Hb. split.
  - intros H. destruct (Z.eq_dec a 0) as [Z0|N]; [exact Z0|exfalso].
    destruct (div_of_Z a b ltac:(lia) Hb) as (p & e & F & _).
    rewrite F in H. discriminate H.
  - intros ->. destruct (of_Z_normal b Hb) as (p & e & -> & _). reflexivity.
Qed.

Lemma suggestedQuality_1 : suggestedQuality (of_Z 1) = of_Z 90.
Proof. vm_compute. reflexivity. Qed.

Lemma suggestedQuality_0 : suggestedQuality (of_Z 0) = of_Z 60.
Proof. vm_compute. reflexivity. Qed.

(** X17 (computeComplexity, lines 85 to 96, with handleFiles, line 48):
    on a canvas of at least two pixels the estimate is 0 exactly when no
    pixel differs from the next one in red, green or blue, and 1 exactly
    when every pixel differs from the next one by 255 in all three; the
    suggested quality is then 60 and 90: the range from 60 to 90 is
    attained at both ends. *)
Theorem complexity_extremes (data : list Z) (N : Z) :
  Z.of_nat (List.length data) = 4 * N ->
  forallb isByte data = true ->
  2 <= N -> 765 * N < 2 ^ 53 ->
  (complexityOfData data = of_Z 0
   <-> sumDiffs data 0 (Z.to_nat (N - 1)) = 0)
  /\ (complexityOfData data = of_Z 1
      <-> sumDiffs data 0 (Z.to_nat (N - 1)) = 765 * (N - 1))
  /\ (sumDiffs data 0 (Z.to_nat (N - 1)) = 0 ->
      suggestedQuality (complexityOfData data) = of_Z 60)
  /\ (sumDiffs data 0 (Z.to_nat (N - 1)) = 765 * (N - 1) ->
      suggestedQuality (complexityOfData data) = of_Z 90).
Proof.
  intros L Y N2 S.
  pose proof (sumDiffs_bounds data N L Y (Z.to_nat (N - 1)) 0
                ltac:(lia) ltac:(lia)) as [B0 B1].
  rewrite Z2Nat.id in B1 by lia.
  unfold complexityOfData.
  rewrite (diffSums_pixels data N L Y) by lia.
  set (s := sumDiffs data 0 (Z.to_nat (N - 1))) in *.
  assert (Z0 : div (of_Z s) (of_Z (765 * (N - 1))) = of_Z 0 <-> s = 0)
    by (apply div_of_Z_zero; lia).
  assert (O1 : div (of_Z s) (of_Z (765 * (N - 1))) = of_Z 1
               <-> s = 765 * (N - 1)).
  { destruct (Z.eq_dec s 0) as [E|NE].
    - split.
      + intros H. rewrite (proj2 Z0 E) in H. discriminate H.
      + lia.
    - apply div_of_Z_one; lia. }
  split; [exact Z0|]. split; [exact O1|]. split.
  - intros E. rewrite (proj2 Z0 E). exact suggestedQuality_0.
  - intros E. rewrite (proj2 O1 E). exact suggestedQuality_1.
Qed.

Lemma complexity_extremes_witness :
  (complexityOfData [0; 0; 0; 255; 255; 255; 255; 255] = of_Z 0
   <-> sumDiffs [0; 0; 0; 255; 255; 255; 255; 255] 0 (Z.to_nat (2 - 1)) = 0)
  /\ (complexityOfData [0; 0; 0; 255; 255; 255; 255; 255] = of_Z 1
      <-> sumDiffs [0; 0; 0; 255; 255; 255; 255; 255] 0 (Z.to_nat (2 - 1))
          = 765 * (2 - 1))
  /\ (sumDiffs [0; 0; 0; 255; 255; 255; 255; 255] 0 (Z.to_nat (2 - 1)) = 0 ->
      suggestedQuality (complexityOfData [0; 0; 0; 255; 255; 255; 255; 255])
      = of_Z 60)
  /\ (sumDiffs [0; 0; 0; 255; 255; 255; 255; 255] 0 (Z.to_nat (2 - 1))
      = 765 * (2 - 1) ->
      suggestedQuality (complexityOfData [0; 0; 0; 255; 255; 255; 255; 255])
      = of_Z 90).
Proof.
  apply (complexity_extremes [0; 0; 0; 255; 255; 255; 255; 255] 2).
  - reflexivity.
  - reflexivity.
  - lia.
  - lia.
Defined.

Lemma encode_stop codec fuel targetValue entry w blob q w' :
  hasBudget (parseInt targetValue) = true ->
  encode codec fuel targetValue entry w = Some (blob, q, w') ->
  guard (parseInt targetValue) blob q = false.
Proof.
  intros B E. rewrite encode_budget in E by exact B.
  destruct (search_passes _ _ _ _ _ _ _ _ _ _ E) as (k & _ & _ & G).
  exact G.
Qed.

(** ** The canvas of the estimate *)

(** X2 (computeComplexity, lines 71 to 80): an image whose sides are both
    at most 256 is drawn on a canvas of its own size; multiplying by the
    scale 1 and taking the floor change nothing. *)
Theorem scaledSize_small_image (w h : Z) :
  1 <= w <= 256 -> 1 <= h <= 256 ->
  scaledSize w h = (of_Z w, of_Z h).
Proof.
  intros Hw Hh. unfold scaledSize. cbv zeta.
  rewrite Math_max_of_Z by lia.
  rewrite gt_of_Z by lia.
  replace (256 <? Z.max w h) with false by (symmetry; apply Z.ltb_ge; lia).
  rewrite (mul_of_Z w 1), (mul_of_Z h 1) by lia.
  rewrite !Z.mul_1_r, !Math_floor_of_Z by lia. reflexivity.
Qed.

Lemma scaledSize_small_image_witness :
  scaledSize 200 100 = (of_Z 200, of_Z 100).
Proof. apply scaledSize_small_image; lia. Defined.

(** X3 (computeComplexity, lines 71 to 80): for an image with a side
    above 256 (sides below 2^32), each side [x] of the canvas is
    [floor(256 * x / m)], [m] being the longer side, or one less when
    [256 * x] is a multiple of [m]; the longer side of the canvas is
    therefore 255 or 256, and no side exceeds 256. *)
Theorem scaledSize_large_image (w h : Z) :
  1 <= w < 2 ^ 32 -> 1 <= h < 2 ^ 32 -> 256 < Z.max w h ->
  exists a b,
    scaledSize w h = (of_Z a, of_Z b)
    /\ nearFloor w (Z.max w h) a /\ nearFloor h (Z.max w h) b
    /\ (Z.max a b = 255 \/ Z.max a b = 256).
Proof.
  intros Hw Hh L.
  destruct (scaledSize_large w h Hw Hh L) as (a & b & E & Na & Nb & Ba & Bb).
  exists a, b. split; [exact E|]. split; [exact Na|]. split; [exact Nb|].
  destruct (Z.le_ge_cases w h) as [C|C].
  - rewrite Z.max_r in Nb by lia.
    destruct (nearFloor_longer h b ltac:(lia) Nb); lia.
  - rewrite Z.max_l in Na by lia.
    destruct (nearFloor_longer w a ltac:(lia) Na); lia.
Qed.

(** The second alternative occurs: 256 / 322 rounds down, and 322 times
    it stays below 256. *)
Example scaledSize_322 : scaledSize 322 322 = (of_Z 255, of_Z 255).
Proof. vm_compute. reflexivity. Qed.

Lemma scaledSize_large_image_witness :
  exists a b,
    scaledSize 322 322 = (of_Z a, of_Z b)
    /\ nearFloor 322 (Z.max 322 322) a /\ nearFloor 322 (Z.max 322 322) b
    /\ (Z.max a b = 255 \/ Z.max a b = 256).
Proof. apply scaledSize_large_image; lia. Defined.

(** X4 (computeComplexity, lines 76 to 82): an image more than 256 times
    as wide as it is high gets a canvas of height 0, hence a canvas
    without pixels. *)
Theorem scaledSize_thin_image (w h : Z) :
  1 <= h -> 256 * h < w -> w < 2 ^ 32 ->
  exists a, scaledSize w h = (of_Z a, of_Z 0) /\ (a = 255 \/ a = 256).
Proof.
  intros Hh Hw Hu.
  destruct (scaledSize_large w h ltac:(lia) ltac:(lia) ltac:(lia))
    as (a & b & E & Na & Nb & _).
  rewrite Z.max_l in Na, Nb by lia.
  exists a. split.
  - rewrite E. f_equal. f_equal.
    apply (nearFloor_zero h w); [exact Hh|exact Hw|exact Nb].
  - apply (nearFloor_longer w); [lia|exact Na].
Qed.

Lemma scaledSize_thin_image_witness :
  exists a, scaledSize 1000 3 = (of_Z a, of_Z 0) /\ (a = 255 \/ a = 256).
Proof. apply scaledSize_thin_image; lia. Defined.

(** ** The estimate on a real canvas *)

(** X5 (computeComplexity, lines 64 to 97): when the canvas gives four
    bytes for each of its pixels, the estimate of an image of at least
    two pixels whose sides differ by a factor of at most 128 is a number
    from 0 to 1: the quotient of the two sums is never above 1, never
    NaN and never infinite. *)
Theorem computeComplexity_unit_range
    (getImageData : Image -> number -> number -> list Z) (image : Image) :
  canvasContract getImageData ->
  1 <= naturalWidth image < 2 ^ 32 ->
  1 <= naturalHeight image < 2 ^ 32 ->
  2 <= naturalWidth image * naturalHeight image ->
  Z.max (naturalWidth image) (naturalHeight image)
    <= 128 * Z.min (naturalWidth image) (naturalHeight image) ->
  valid_binary prec emax (computeComplexity getImageData image) = true
  /\ le (of_Z 0) (computeComplexity getImageData image) = true
  /\ le (computeComplexity getImageData image) (of_Z 1) = true.
Proof.
  intros C Hw Hh Hp Ha.
  destruct (computeComplexity_data getImageData C image Hw Hh Hp Ha)
    as (data & N & -> & L & Y & N2 & S).
  exact (complexity_unit data N L Y N2 S).
Qed.

Lemma computeComplexity_unit_range_witness :
  valid_binary prec emax
    (computeComplexity Examples.blackCanvas Examples.photo) = true
  /\ le (of_Z 0) (computeComplexity Examples.blackCanvas Examples.photo)
     = true
  /\ le (computeComplexity Examples.blackCanvas Examples.photo) (of_Z 1)
     = true.
Proof.
  apply computeComplexity_unit_range;
    [exact blackCanvas_contract| | | |]; cbn; lia.
Defined.

(** X6 (handleFiles, lines 47 to 55): under the same conditions the
    entry pushed for a loaded image has an integer quality from 60 to 90,
    shown by its label, and no blob yet. *)
Theorem newEntry_quality_range
    (getImageData : Image -> number -> number -> list Z)
    (f : File) (image : Image) :
  canvasContract getImageData ->
  1 <= naturalWidth image < 2 ^ 32 ->
  1 <= naturalHeight image < 2 ^ 32 ->
  2 <= naturalWidth image * naturalHeight image ->
  Z.max (naturalWidth image) (naturalHeight image)
    <= 128 * Z.min (naturalWidth image) (naturalHeight image) ->
  exists k,
    60 <= k <= 90
    /\ quality (newEntry getImageData f image) = of_Z k
    /\ label (newEntry getImageData f image) = Suggested (of_Z k)
    /\ convertedBlob (newEntry getImageData f image) = None.
Proof.
  intros C Hw Hh Hp Ha.
  destruct (computeComplexity_data getImageData C image Hw Hh Hp Ha)
    as (data & N & Ec & L & Y & N2 & S).
  destruct (suggested_of_canvas data N L Y N2 S) as (k & K & Q).
  exists k. unfold newEntry. cbv zeta. cbn [quality label convertedBlob].
  rewrite Ec, Q. repeat split; lia.
Qed.

Lemma newEntry_quality_range_witness :
  exists k,
    60 <= k <= 90
    /\ quality (newEntry Examples.blackCanvas (mkFile "a.png" "image/png")
                  Examples.photo) = of_Z k
    /\ label (newEntry Examples.blackCanvas (mkFile "a.png" "image/png")
                Examples.photo) = Suggested (of_Z k)
    /\ convertedBlob (newEntry Examples.blackCanvas
                        (mkFile "a.png" "image/png") Examples.photo) = None.
Proof.
  apply newEntry_quality_range;
    [exact blackCanvas_contract| | | |]; cbn; lia.
Defined.

(** ** The budget *)

(** X7 (convertEntry, lines 160 and 163): for a budget of [t] whole
    kilobytes, [t] at least 1 and below 2^43, the two tests are exact:
    the budget counts as set, and a blob is over it exactly when it has
    more than [1024 * t] bytes. *)
Theorem budget_tests_exact (blob : Blob) (t : Z) :
  1 <= t -> 1024 * t < 2 ^ 53 -> size blob < 2 ^ 53 ->
  hasBudget (of_Z t) = true
  /\ overBudget blob (of_Z t) = (1024 * t <? size blob).
Proof.
  intros Ht Hs Hb. split.
  - unfold hasBudget. rewrite isNaN_of_Z by lia.
    rewrite gt_of_Z by lia. cbn [negb andb]. apply Z.ltb_lt. lia.
  - unfold overBudget. rewrite mul_of_Z by lia.
    rewrite gt_of_Z; [f_equal; lia|unfold size in *; lia|lia].
Qed.

Lemma budget_tests_exact_witness :
  hasBudget (of_Z 1) = true
  /\ overBudget (repeat Byte.x00 2048) (of_Z 1)
     = (1024 * 1 <? size (repeat Byte.x00 2048)).
Proof. apply budget_tests_exact; cbn; lia. Defined.

(** X8 (convertEntry, lines 150 to 173): with a budget of [t] whole
    kilobytes and a quality [n] from 0 to 100, a conversion ends, and
    the entry it leaves holds a blob of at most [1024 * t] bytes, or the
    label shows a quality of at most 20: the search only gives up at the
    floor. *)
Theorem conversion_within_budget_or_at_floor
    (codec : Codec) (fuel : nat) (targetValue : string) (entry : Entry)
    (n t : Z) (w : World) :
  (18 <= fuel)%nat ->
  quality entry = of_Z n -> 0 <= n <= 100 ->
  parseInt targetValue = of_Z t -> 1 <= t -> 1024 * t < 2 ^ 53 ->
  (forall w0 image q, size (codec w0 image q) < 2 ^ 53) ->
  exists entry' w' blob used,
    convertEntry codec fuel targetValue entry w = Some (entry', w')
    /\ convertedBlob entry' = Some blob
    /\ label entry' = Used (of_Z used)
    /\ (size blob <= 1024 * t \/ used <= 20).
Proof.
  intros Hf Hq Hn Ht T1 T2 Hc.
  destruct (encode_run codec fuel targetValue entry n Hf Hq Hn w)
    as (blob & k & K & E & HK & Hk).
  destruct (labelChecked_facts n K k Hn HK Hk) as [Lb Fl].
  exists (converted entry blob (descent (fraction n) k)),
    (w ++ mkCall (img entry) (fraction n)
       :: descentCalls (img entry) (fraction n) k),
    blob, (n - 5 * Z.of_nat k).
  split; [apply convertEntry_of_encode; exact E|].
  split; [reflexivity|]. split; [cbn [converted label]; rewrite Lb; reflexivity|].
  assert (Sb : size blob < 2 ^ 53).
  { destruct (encode_shape codec fuel targetValue entry w _ _ _ E)
      as (_ & _ & _ & _ & _ & wm & _ & ->). apply Hc. }
  destruct (budget_tests blob t T1 T2 Sb) as [B O].
  assert (G : guard (parseInt targetValue) blob (descent (fraction n) k)
              = false)
    by (eapply encode_stop; [rewrite Ht; exact B|exact E]).
  unfold guard in G. rewrite Ht, O in G.
  apply andb_false_iff in G. destruct G as [G|G].
  - left. apply Z.ltb_ge. exact G.
  - right. apply Fl. exact G.
Qed.

Lemma conversion_within_budget_or_at_floor_witness :
  exists entry' w' blob used,
    convertEntry Sample.heavy 18 "1" (Sample.entryAt 30) []
    = Some (entry', w')
    /\ convertedBlob entry' = Some blob
    /\ label entry' = Used (of_Z used)
    /\ (size blob <= 1024 * 1 \/ used <= 20).
Proof.
  apply (conversion_within_budget_or_at_floor Sample.heavy 18 "1"
           (Sample.entryAt 30) 30 1 []).
  - lia.
  - reflexivity.
  - lia.
  - reflexivity.
  - lia.
  - lia.
  - intros w0 image q. vm_compute. reflexivity.
Defined.

(** X9 (convertEntry, lines 158 to 172): for a quality [n] from 0 to 100
    a conversion ends, whatever the target size and the codec; if it made
    [k] requests after the first, the label shows exactly [n - 5 k], the
    subtractions of 0.05 and the final multiplication by 100 leaving no
    rounding error in the rounded value; the entry keeps its quality and
    its download button is enabled. *)
Theorem label_shows_quality_less_reductions
    (codec : Codec) (fuel : nat) (targetValue : string) (entry : Entry)
    (n : Z) (w : World) :
  (18 <= fuel)%nat ->
  quality entry = of_Z n -> 0 <= n <= 100 ->
  exists entry' k,
    convertEntry codec fuel targetValue entry w
    = Some (entry', w ++ mkCall (img entry) (fraction n)
                      :: descentCalls (img entry) (fraction n) k)
    /\ label entry' = Used (of_Z (n - 5 * Z.of_nat k))
    /\ quality entry' = of_Z n
    /\ downloadDisabled entry' = false.
Proof.
  intros Hf Hq Hn.
  destruct (encode_run codec fuel targetValue entry n Hf Hq Hn w)
    as (blob & k & K & E & HK & Hk).
  destruct (labelChecked_facts n K k Hn HK Hk) as [Lb _].
  exists (converted entry blob (descent (fraction n) k)), k.
  split; [apply convertEntry_of_encode; exact E|].
  cbn [converted label quality downloadDisabled]. rewrite Lb.
  repeat split. exact Hq.
Qed.

Lemma label_shows_quality_less_reductions_witness :
  exists entry' k,
    convertEntry Sample.heavy 18 "1" (Sample.entryAt 30) []
    = Some (entry', [] ++ mkCall (img (Sample.entryAt 30)) (fraction 30)
                      :: descentCalls (img (Sample.entryAt 30))
                           (fraction 30) k)
    /\ label entry' = Used (of_Z (30 - 5 * Z.of_nat k))
    /\ quality entry' = of_Z 30
    /\ downloadDisabled entry' = false.
Proof.
  apply (label_shows_quality_less_reductions Sample.heavy 18 "1"
           (Sample.entryAt 30) 30 []).
  - lia.
  - reflexivity.
  - lia.
Defined.

(** ** File names *)

Lemma splitOn_nonempty c s : splitOn c s <> [].
Proof.
  destruct s as [|a r]; cbn [splitOn]; [discriminate|].
  destruct (Ascii.eqb a c); [discriminate|].
  destruct (splitOn c r); discriminate.
Qed.

Lemma splitOn_noDot s : noDot s = true -> splitOn "." s = [s].
Proof.
  induction s as [|a r IH]; cbn [noDot splitOn]; [reflexivity|].
  intros H. apply andb_prop in H. destruct H as [Ha Hr].
  apply negb_true_iff in Ha. rewrite Ha, (IH Hr). reflexivity.
Qed.

Lemma joinDot_char a p ps :
  joinDot (String a p :: ps) = String a (joinDot (p :: ps)).
Proof. unfold joinDot. destruct ps; reflexivity. Qed.

Lemma joinDot_empty p ps :
  joinDot (EmptyString :: p :: ps) = String "." (joinDot (p :: ps)).
Proof. reflexivity. Qed.

(** Splitting at the dots and joining with dots gives the string back. *)
Lemma joinDot_splitOn s : joinDot (splitOn "." s) = s.
Proof.
  induction s as [|a r IH]; [reflexivity|].
  cbn [splitOn]. pose proof (splitOn_nonempty "." r) as N.
  destruct (splitOn "." r) as [|p ps] eqn:S; [contradiction|].
  destruct (Ascii.eqb a ".") eqn:E.
  - apply Ascii.eqb_eq in E. subst a. rewrite joinDot_empty, IH. reflexivity.
  - rewrite joinDot_char, IH. reflexivity.
Qed.

(** The pieces of [stem.ext] are those of [stem], then [ext]. *)
Lemma splitOn_last stem ext :
  noDot ext = true ->
  splitOn "." (stem ++ String "." ext) = splitOn "." stem ++ [ext].
Proof.
  intros H. induction stem as [|a r IH].
  - cbn [String.append splitOn]. change (Ascii.eqb "." ".") with true.
    cbn iota. rewrite (splitOn_noDot ext H). reflexivity.
  - cbn [String.append splitOn]. rewrite IH.
    destruct (Ascii.eqb a "."); [reflexivity|].
    pose proof (splitOn_nonempty "." r) as N.
    destruct (splitOn "." r) as [|p ps]; [contradiction|]. reflexivity.
Qed.

Lemma dropLast_snoc (pieces : list string) last :
  dropLast (pieces ++ [last]) = pieces.
Proof. apply removelast_last. Qed.

(** X1 (createCard and the downloadAll handler, lines 135 to 136 and 194
    to 195): the name offered for download.  A name [stem.ext] whose extension
    has no dot and whose stem is not empty becomes [stem.webp]; a name
    without any dot, and a name that starts with its only dot, keep all
    their characters and get [.webp] appended. *)
Theorem downloadName_strips_extension (stem ext : string) :
  noDot ext = true ->
  downloadName (stem ++ String "." ext)
  = ((match stem with
      | EmptyString => String "." ext
      | _ => stem
      end) ++ ".webp")%string
  /\ downloadName ext = (ext ++ ".webp")%string.
Proof.
  intros H. unfold downloadName. split.
  - rewrite (splitOn_last stem ext H), dropLast_snoc, joinDot_splitOn.
    destruct stem; reflexivity.
  - rewrite (splitOn_noDot ext H). reflexivity.
Qed.

Lemma downloadName_strips_extension_witness :
  downloadName ("holiday.photo" ++ String "." "jpeg")
  = ((match "holiday.photo"%string with
      | EmptyString => String "." "jpeg"
      | _ => "holiday.photo"%string
      end) ++ ".webp")%string
  /\ downloadName "jpeg" = ("jpeg" ++ ".webp")%string.
Proof.
  apply (downloadName_strips_extension "holiday.photo" "jpeg").
  reflexivity.
Defined.

(** ** Convert all, download all *)

Section AllFacts.

Variable codec : Codec.
Variable fuel : nat.
Variable targetValue : string.

Lemma converted_not_pending entry blob q :
  pending (converted entry blob q) = false.
Proof. reflexivity. Qed.

Lemma convertAll_done entries : forall w res w',
  convertAll codec fuel targetValue entries w = Some (res, w') ->
  (forall e, In e res -> pending e = false)
  /\ convertAll codec fuel targetValue res w' = Some (res, w').
Proof.
  induction entries as [|entry rest IH]; intros w res w' H.
  - injection H as <- <-. split; [intros e []|reflexivity].
  - rewrite convertAll_cons in H.
    destruct (pending entry) eqn:P.
    + destruct (convertEntry codec fuel targetValue entry w)
        as [[entry' w1]|] eqn:Hc; [|discriminate].
      destruct (convertAll codec fuel targetValue rest w1)
        as [[rest' w2]|] eqn:Hr; [|discriminate].
      injection H as <- <-.
      destruct (IH _ _ _ Hr) as (Hall & Hagain).
      destruct (convertEntry_Some _ _ _ _ _ _ _ Hc) as (blob & q & _ & ->).
      split.
      * intros e [<-|He]; [reflexivity|apply Hall, He].
      * rewrite convertAll_cons, converted_not_pending, Hagain. reflexivity.
    + destruct (convertAll codec fuel targetValue rest w)
        as [[rest' w2]|] eqn:Hr; [|discriminate].
      injection H as <- <-.
      destruct (IH _ _ _ Hr) as (Hall & Hagain).
      split.
      * intros e [<-|He]; [exact P|apply Hall, He].
      * rewrite convertAll_cons, P, Hagain. reflexivity.
Qed.

Lemma downloadAll_convertAll entries : forall w,
  downloadAll codec fuel targetValue entries w
  = match convertAll codec fuel targetValue entries w with
    | Some (res, w') => Some (res, downloadsOf entries, w')
    | None => None
    end.
Proof.
  induction entries as [|entry rest IH]; intros w; [reflexivity|].
  rewrite convertAll_cons. cbn [downloadAll]. unfold pending, bind, ret.
  unfold downloadsOf. cbn [flat_map]. unfold downloadEntry at 1.
  destruct (convertedBlob entry) as [blob|].
  - rewrite IH.
    destruct (convertAll codec fuel targetValue rest w) as [[res w']|];
      reflexivity.
  - destruct (convertEntry codec fuel targetValue entry w)
      as [[entry' w1]|]; [|reflexivity].
    rewrite IH.
    destruct (convertAll codec fuel targetValue rest w1) as [[res w']|];
      reflexivity.
Qed.

Lemma downloadsOf_done entries :
  (forall e, In e entries -> pending e = false) ->
  List.length (downloadsOf entries) = List.length entries
  /\ map download_name (downloadsOf entries)
     = map (fun e => downloadName (file_name (file e))) entries
  /\ map (fun d => Some (download_blob d)) (downloadsOf entries)
     = map convertedBlob entries.
Proof.
  induction entries as [|entry rest IH]; intros H; [repeat split|].
  destruct (IH (fun e He => H e (or_intror He))) as (L & Nm & Bl).
  pose proof (H entry (or_introl eq_refl)) as P. unfold pending in P.
  unfold downloadsOf in *. cbn [flat_map]. unfold downloadEntry at 1 3 5.
  destruct (convertedBlob entry) as [blob|] eqn:E; [|discriminate].
  cbn [app List.length map download_name download_blob].
  rewrite L, Nm, Bl, E. repeat split.
Qed.

End AllFacts.

(** ** Accepting files *)

Section LoadingFacts.

Variable getImageData : Image -> number -> number -> list Z.
Variable decode : File -> option Image.

Lemma loads_added fs entries entries' :
  loads getImageData decode fs entries entries' ->
  exists added,
    entries' = entries ++ added
    /\ Permutation (map file added) (filter (loadable decode) fs)
    /\ Forall (fun e => exists image,
                 decode (file e) = Some image
                 /\ e = newEntry getImageData (file e) image) added.
Proof.
  induction 1 as [entries|before f after image entries entries' D _ IH
                 |before f after entries entries' D _ IH].
  - exists []. rewrite app_nil_r. repeat split; constructor.
  - destruct IH as (added & E & P & A).
    exists (newEntry getImageData f image :: added). split; [|split].
    + rewrite E. unfold onImageLoad. rewrite <- app_assoc. reflexivity.
    + rewrite filter_app in *. cbn [filter map]. unfold loadable at 2.
      rewrite D. change (file (newEntry getImageData f image)) with f.
      apply Permutation_cons_app. exact P.
    + constructor; [|exact A]. exists image. split; [exact D|reflexivity].
  - destruct IH as (added & E & P & A).
    exists added. split; [exact E|]. split; [|exact A].
    rewrite filter_app in *. cbn [filter]. unfold loadable at 2.
    rewrite D. exact P.
Qed.

(** The loads may complete in the order of the files. *)
Lemma loads_in_order fs : forall entries,
  loads getImageData decode fs entries
    (entries ++ inOrder getImageData decode fs).
Proof.
  induction fs as [|f fs IH]; intros entries.
  - cbn. rewrite app_nil_r. constructor.
  - unfold inOrder. cbn [flat_map]. destruct (decode f) as [image|] eqn:D.
    + apply (loads_ok getImageData decode [] f fs image); [exact D|].
      cbn [app]. unfold onImageLoad.
      specialize (IH (entries ++ [newEntry getImageData f image])).
      rewrite <- app_assoc in IH. exact IH.
    + apply (loads_failed getImageData decode [] f fs); [exact D|].
      cbn [app]. apply IH.
Qed.

End LoadingFacts.

Lemma sliderChecked_all n : 30 <= n <= 100 -> sliderChecked n = true.
Proof.
  intros H.
  assert (A : forallb sliderChecked (zrange 30 71) = true)
    by (vm_compute; reflexivity).
  rewrite forallb_forall in A. apply A, zrange_In. lia.
Qed.

Section AllMore.

Variable codec : Codec.
Variable fuel : nat.
Variable targetValue : string.

Lemma convertAll_none_pending entries : forall w,
  (forall e, In e entries -> pending e = false) ->
  convertAll codec fuel targetValue entries w = Some (entries, w).
Proof.
  induction entries as [|entry rest IH]; intros w H; [reflexivity|].
  rewrite convertAll_cons, (H entry (or_introl eq_refl)).
  rewrite (IH w (fun e He => H e (or_intror He))). reflexivity.
Qed.

Lemma downloadsOf_length entries :
  List.length (downloadsOf entries)
  = List.length (filter (fun e => negb (pending e)) entries).
Proof.
  induction entries as [|entry rest IH]; [reflexivity|].
  unfold downloadsOf in *. cbn [flat_map filter].
  unfold downloadEntry at 1. unfold pending at 1.
  destruct (convertedBlob entry); cbn [negb app List.length];
    rewrite IH; reflexivity.
Qed.

End AllMore.

(** ** Accepting files *)

(** X13 (handleFiles, lines 39 to 62): whatever the order in which the
    images finish loading, [handleFiles] only appends to the list of
    entries: the entries already there stay as they are, and the files
    of the new entries are, up to order, the files of an image type
    that could be decoded, one entry for each; every new entry is the
    one built from its file and image, without a blob and with its
    download button disabled. *)
Theorem handleFiles_appends_image_entries
    (getImageData : Image -> number -> number -> list Z)
    (decode : File -> option Image)
    (files : list File) (entries entries' : list Entry) :
  handleFiles getImageData decode files entries entries' ->
  exists added,
    entries' = entries ++ added
    /\ Permutation (map file added)
         (filter (loadable decode) (filter isImageFile files))
    /\ Forall (fun e =>
                 isImageFile (file e) = true /\ In (file e) files
                 /\ convertedBlob e = None /\ downloadDisabled e = true
                 /\ exists image,
                      decode (file e) = Some image
                      /\ e = newEntry getImageData (file e) image) added.
Proof.
  intros H. destruct (loads_added _ _ _ _ _ H) as (added & E & P & A).
  exists added. split; [exact E|]. split; [exact P|].
  rewrite Forall_forall in *. intros e He.
  destruct (A e He) as (image & D & N).
  assert (I : In (file e) (filter (loadable decode)
                             (filter isImageFile files))).
  { apply (Permutation_in _ P). apply in_map. exact He. }
  apply filter_In in I. destruct I as [I _].
  apply filter_In in I. destruct I as [I T].
  split; [exact T|]. split; [exact I|].
  split; [rewrite N; reflexivity|]. split; [rewrite N; reflexivity|].
  exists image. split; [exact D|exact N].
Qed.

Lemma handleFiles_appends_image_entries_witness :
  exists added,
    [Sample.done]
      ++ inOrder Examples.blackCanvas (fun _ => Some Examples.photo)
           (filter isImageFile
              [mkFile "notes.txt" "text/plain"; mkFile "a.png" "image/png"])
    = [Sample.done] ++ added
    /\ Permutation (map file added)
         (filter (loadable (fun _ => Some Examples.photo))
            (filter isImageFile
               [mkFile "notes.txt" "text/plain";
                mkFile "a.png" "image/png"]))
    /\ Forall (fun e =>
                 isImageFile (file e) = true
                 /\ In (file e) [mkFile "notes.txt" "text/plain";
                                 mkFile "a.png" "image/png"]
                 /\ convertedBlob e = None /\ downloadDisabled e = true
                 /\ exists image,
                      (fun _ : File => Some Examples.photo) (file e)
                      = Some image
                      /\ e = newEntry Examples.blackCanvas (file e) image)
         added.
Proof.
  apply (handleFiles_appends_image_entries Examples.blackCanvas
           (fun _ => Some Examples.photo)
           [mkFile "notes.txt" "text/plain"; mkFile "a.png" "image/png"]
           [Sample.done]).
  apply loads_in_order.
Defined.

(** ** The slider *)

(** X14 (createCard, lines 108 to 116): every position of the slider,
    an integer [n] from 30 to 100, is read back exactly: the entry gets
    the quality [n] and the label shows it; the blob, the file, the
    image and the state of the download button are left as they are. *)
Theorem slider_sets_quality (n : Z) (entry : Entry) :
  30 <= n <= 100 ->
  setQuality (sliderValue n) entry
  = {| file := file entry; img := img entry; quality := of_Z n;
       convertedBlob := convertedBlob entry; label := Chosen (of_Z n);
       downloadDisabled := downloadDisabled entry |}.
Proof.
  intros H. unfold setQuality. cbv zeta.
  rewrite (sameNumber_eq _ _ (sliderChecked_all n H)). reflexivity.
Qed.

Lemma slider_sets_quality_witness :
  setQuality (sliderValue 45) Sample.done
  = {| file := file Sample.done; img := img Sample.done;
       quality := of_Z 45;
       convertedBlob := convertedBlob Sample.done;
       label := Chosen (of_Z 45);
       downloadDisabled := downloadDisabled Sample.done |}.
Proof. apply slider_sets_quality. lia. Defined.

(** ** Convert all, download all *)

(** X10 (convertAll handler, lines 175 to 183): when the descent of every
    pending entry reaches the floor within the fuel, a click on
    "convert all" ends and leaves no entry pending, and a second click
    makes no request and changes no entry. *)
Theorem convertAll_twice
    (codec : Codec) (fuel : nat) (targetValue : string)
    (entries : list Entry) (w : World) :
  (forall e, In e entries -> pending e = true ->
     floorSteps fuel (firstQuality e) <> None) ->
  exists res w',
    convertAll codec fuel targetValue entries w = Some (res, w')
    /\ (forall e, In e res -> pending e = false)
    /\ convertAll codec fuel targetValue res w' = Some (res, w').
Proof.
  intros T.
  destruct (convertAll_total codec fuel targetValue entries w T)
    as (res & w' & E).
  exists res, w'. split; [exact E|].
  exact (convertAll_done codec fuel targetValue entries w res w' E).
Qed.

Lemma convertAll_twice_witness :
  exists res w',
    convertAll Sample.heavy 18 "1" [Sample.done; Sample.entryAt 30] []
    = Some (res, w')
    /\ (forall e, In e res -> pending e = false)
    /\ convertAll Sample.heavy 18 "1" res w' = Some (res, w').
Proof.
  apply (convertAll_twice Sample.heavy 18 "1"
           [Sample.done; Sample.entryAt 30] []).
  intros e [<-|[<-|[]]] _; vm_compute; discriminate.
Defined.

(** X11 (downloadAll handler, lines 185 to 212): a click on
    "download all" makes the requests and leaves the entries a click on
    "convert all" would; it downloads, in order, exactly the entries that
    held a blob before the click, under the name and with the blob the
    download button of their card would give.  An entry that was still
    pending is converted but not downloaded by this click. *)
Theorem downloadAll_downloads_converted_only
    (codec : Codec) (fuel : nat) (targetValue : string)
    (entries : list Entry) (w : World) :
  (forall e, In e entries -> pending e = true ->
     floorSteps fuel (firstQuality e) <> None) ->
  exists res w',
    convertAll codec fuel targetValue entries w = Some (res, w')
    /\ downloadAll codec fuel targetValue entries w
       = Some (res, downloadsOf entries, w')
    /\ List.length (downloadsOf entries)
       = List.length (filter (fun e => negb (pending e)) entries).
Proof.
  intros T.
  destruct (convertAll_total codec fuel targetValue entries w T)
    as (res & w' & E).
  exists res, w'. split; [exact E|]. split.
  - rewrite downloadAll_convertAll, E. reflexivity.
  - apply downloadsOf_length.
Qed.

Lemma downloadAll_downloads_converted_only_witness :
  exists res w',
    convertAll Sample.heavy 18 "1" [Sample.done; Sample.entryAt 30] []
    = Some (res, w')
    /\ downloadAll Sample.heavy 18 "1" [Sample.done; Sample.entryAt 30] []
       = Some (res, downloadsOf [Sample.done; Sample.entryAt 30], w')
    /\ List.length (downloadsOf [Sample.done; Sample.entryAt 30])
       = List.length (filter (fun e => negb (pending e))
                        [Sample.done; Sample.entryAt 30]).
Proof.
  apply (downloadAll_downloads_converted_only Sample.heavy 18 "1"
           [Sample.done; Sample.entryAt 30] []).
  intros e [<-|[<-|[]]] _; vm_compute; discriminate.
Defined.

(** X12 (downloadAll handler, lines 185 to 212): after a click on
    "download all" that ended, a second click makes no request, changes
    no entry and downloads every entry, one download each, in order,
    under the entry's download name and with its blob. *)
Theorem downloadAll_second_click
    (codec : Codec) (fuel : nat) (targetValue : string)
    (entries : list Entry) (w : World) :
  (forall e, In e entries -> pending e = true ->
     floorSteps fuel (firstQuality e) <> None) ->
  exists res downloads w',
    downloadAll codec fuel targetValue entries w
    = Some (res, downloads, w')
    /\ downloadAll codec fuel targetValue res w'
       = Some (res, downloadsOf res, w')
    /\ List.length (downloadsOf res) = List.length entries
    /\ map download_name (downloadsOf res)
       = map (fun e => downloadName (file_name (file e))) res
    /\ map (fun d => Some (download_blob d)) (downloadsOf res)
       = map convertedBlob res.
Proof.
  intros T.
  destruct (convertAll_total codec fuel targetValue entries w T)
    as (res & w' & E).
  destruct (convertAll_done codec fuel targetValue entries w res w' E)
    as (D & A).
  destruct (downloadsOf_done res D) as (L & Nm & Bl).
  destruct (convertAll_frame codec fuel targetValue entries w res w' E)
    as (Len & _).
  exists res, (downloadsOf entries), w'.
  split; [rewrite downloadAll_convertAll, E; reflexivity|].
  split; [rewrite downloadAll_convertAll, A; reflexivity|].
  split; [rewrite L; exact Len|]. split; [exact Nm|exact Bl].
Qed.

Lemma downloadAll_second_click_witness :
  exists res downloads w',
    downloadAll Sample.heavy 18 "1" [Sample.done; Sample.entryAt 30] []
    = Some (res, downloads, w')
    /\ downloadAll Sample.heavy 18 "1" res w'
       = Some (res, downloadsOf res, w')
    /\ List.length (downloadsOf res)
       = List.length [Sample.done; Sample.entryAt 30]
    /\ map download_name (downloadsOf res)
       = map (fun e => downloadName (file_name (file e))) res
    /\ map (fun d => Some (download_blob d)) (downloadsOf res)
       = map convertedBlob res.
Proof.
  apply (downloadAll_second_click Sample.heavy 18 "1"
           [Sample.done; Sample.entryAt 30] []).
  intros e [<-|[<-|[]]] _; vm_compute; discriminate.
Defined.

(** X15 (createCard lines 113 to 116 with the convertAll handler, lines
    175 to 183): moving the sliders of entries that are all converted
    does not make them pending again: "convert all" then makes no
    request, and each entry keeps the blob encoded at its former
    quality. *)
Theorem convertAll_ignores_moved_sliders
    (codec : Codec) (fuel : nat) (targetValue : string)
    (values : Entry -> string) (entries : list Entry) (w : World) :
  (forall e, In e entries -> pending e = false) ->
  convertAll codec fuel targetValue
    (map (fun e => setQuality (values e) e) entries) w
  = Some (map (fun e => setQuality (values e) e) entries, w)
  /\ map convertedBlob (map (fun e => setQuality (values e) e) entries)
     = map convertedBlob entries.
Proof.
  intros H. split.
  - apply convertAll_none_pending. intros e He.
    apply in_map_iff in He. destruct He as (e0 & <- & He0).
    exact (H e0 He0).
  - rewrite map_map. reflexivity.
Qed.

Lemma convertAll_ignores_moved_sliders_witness :
  convertAll Sample.heavy 18 "1"
    (map (fun e => setQuality ((fun _ => "40"%string) e) e) [Sample.done]) []
  = Some (map (fun e => setQuality ((fun _ => "40"%string) e) e)
            [Sample.done], [])
  /\ map convertedBlob
       (map (fun e => setQuality ((fun _ => "40"%string) e) e) [Sample.done])
     = map convertedBlob [Sample.done].
Proof.
  apply (convertAll_ignores_moved_sliders Sample.heavy 18 "1"
           (fun _ => "40"%string) [Sample.done] []).
  intros e [<-|[]]. reflexivity.
Defined.
